(** * putingh: put a byte stream under a name on a Git forge, get it back

    A shallow embedding of [putingh.go] (package [putingh]) and of its
    auto-closing reader, with the properties of its three back ends:
    the git mirror driver, the release-asset driver and the gist driver,
    the paginated scanners, the URI router and the constructor with
    its options.

    Conventions of the embedding.
    - A Go function returning [(v, err)] becomes a computation in the
      monad [M W] over a world [W]; a non-nil [err] that the source
      returns at once is [Fail], a nil-pointer dereference is [Panic],
      a [for] loop that has not finished within its fuel is [Diverge].
    - A pointer is an [option]; dereferencing [None] panics.
    - A Go [map] is a [gmap]; a slice is a [list].
    - Every call that leaves the package (forge API, git library,
      operating system) is recorded in the world's trace, so that
      "how many times" and "in which order" are statements on lists. *)

From Stdlib Require Import ZArith String Ascii List Lia.
From stdpp Require Import base option list gmap strings fin_maps relations pretty.

Local Open Scope string_scope.
Local Open Scope list_scope.
Local Open Scope nat_scope.

(** ** Go values shared by all parts *)

Module Go.

(** The error values the package creates, compares against or wraps.
    [other] stands for any error produced by a collaborator (operating
    system, transport, forge API) that the package treats opaquely. *)
Inductive error : Type :=
| ErrNotFound                       (* putingh.ErrNotFound *)
| EOF                               (* io.EOF *)
| NoErrAlreadyUpToDate              (* gogit.NoErrAlreadyUpToDate *)
| ErrEmptyRemoteRepository          (* transport.ErrEmptyRemoteRepository *)
| NoMatchingRefSpecError (refspec : string)  (* gogit.NoMatchingRefSpecError{} *)
| ErrRemoteNotFound                 (* gogit.ErrRemoteNotFound *)
| ErrRemoteExists                   (* gogit.ErrRemoteExists *)
| ErrBranchNotFound                 (* gogit.ErrBranchNotFound *)
| ErrBranchExists                   (* gogit.ErrBranchExists *)
| ErrRepositoryNotExists            (* gogit.ErrRepositoryNotExists *)
| ErrRepositoryAlreadyExists        (* gogit.ErrRepositoryAlreadyExists *)
| ErrNotMatch (uri pattern : string)  (* fmt.Errorf("%q not match <pattern>", uri) *)
| ErrNotSupport (uri : string)        (* fmt.Errorf("%q not support", uri) *)
| other (msg : string)
| wrap (context : string) (e : error)      (* fmt.Errorf("<context>: %w", e) *)
| wrapDir (e : error) (dir : string).      (* fmt.Errorf("%w: %s", e, dir) *)

Global Instance error_eq_dec : EqDecision error.
Proof. solve_decision. Defined.

(** [errors.Unwrap]. *)
Definition Unwrap (e : error) : option error :=
  match e with
  | wrap _ e' | wrapDir e' _ => Some e'
  | _ => None
  end.

(** [errors.Is err target]: [target] occurs on the unwrap chain. *)
Fixpoint errors_Is (err target : error) : bool :=
  bool_decide (err = target) ||
  match err with
  | wrap _ e' | wrapDir e' _ => errors_Is e' target
  | _ => false
  end.

(** [errors.As(err, &noMatchingRefSpecError)]: some error on the
    unwrap chain has the type [gogit.NoMatchingRefSpecError]. *)
Fixpoint errors_As_NoMatchingRefSpecError (err : error) : bool :=
  match err with
  | NoMatchingRefSpecError _ => true
  | wrap _ e' | wrapDir e' _ => errors_As_NoMatchingRefSpecError e'
  | _ => false
  end.

Inductive outcome (A : Type) : Type :=
| Ret (a : A)
| Fail (e : error)
| Panic
| Diverge.
Global Arguments Ret {A} a.
Global Arguments Fail {A} e.
Global Arguments Panic {A}.
Global Arguments Diverge {A}.

(** Computations over a world [W]. *)
Definition M (W A : Type) : Type := W → outcome A * W.

Global Instance M_ret {W} : MRet (M W) := λ A a w, (Ret a, w).
Global Instance M_bind {W} : MBind (M W) := λ A B f m w,
  match m w with
  | (Ret a, w') => f a w'
  | (Fail e, w') => (Fail e, w')
  | (Panic, w') => (Panic, w')
  | (Diverge, w') => (Diverge, w')
  end.

Definition fail {W A} (e : error) : M W A := λ w, (Fail e, w).
Definition panic {W A} : M W A := λ w, (Panic, w).
Definition diverge {W A} : M W A := λ w, (Diverge, w).

(** [*p]: dereference of a pointer. *)
Definition deref {W A} (p : option A) : M W A :=
  match p with Some a => mret a | None => panic end.

(** A call whose error the source inspects instead of returning it:
    the error becomes a value. *)
Definition try {W A} (m : M W A) : M W (error + A) := λ w,
  match m w with
  | (Ret a, w') => (Ret (inr a), w')
  | (Fail e, w') => (Ret (inl e), w')
  | (Panic, w') => (Panic, w')
  | (Diverge, w') => (Diverge, w')
  end.

(** [strings.Join(elems, sep)]. *)
Fixpoint strings_Join (elems : list string) (sep : string) : string :=
  match elems with
  | [] => ""
  | [x] => x
  | x :: rest => x +:+ sep +:+ strings_Join rest sep
  end.

(** The slices [s[n:]] and [s[:n]]. *)
Fixpoint string_drop (n : nat) (s : string) : string :=
  match n, s with
  | S n', String _ s' => string_drop n' s'
  | _, _ => s
  end.

Fixpoint string_take (n : nat) (s : string) : string :=
  match n, s with
  | S n', String c s' => String c (string_take n' s')
  | _, _ => ""
  end.

(** [strings.Index(s, sep)] followed by the slices [s[:m]] and
    [s[m+len(sep):]]; [None] when [sep] does not occur. *)
Fixpoint strings_cut (sep s : string) : option (string * string) :=
  if String.prefix sep s then
    Some (EmptyString, string_drop (String.length sep) s)
  else
    match s with
    | EmptyString => None
    | String c s' =>
        match strings_cut sep s' with
        | Some (a, b) => Some (String c a, b)
        | None => None
        end
    end.

(** [strings.SplitN(s, sep, n)] for [n >= 0] and a non-empty [sep]:
    at most [n] pieces, the last one holding the unsplit remainder. *)
Fixpoint strings_SplitN (s sep : string) (n : nat) : list string :=
  match n with
  | 0 => []
  | S n' =>
      match n' with
      | 0 => [s]
      | S _ =>
          match strings_cut sep s with
          | None => [s]
          | Some (a, rest) => a :: strings_SplitN rest sep n'
          end
      end
  end.

(** [filepath.Join] on clean, relative elements: empty elements are
    dropped and the others joined by the separator. *)
Definition filepath_Join (elems : list string) : string :=
  strings_Join (filter (λ e, e ≠ EmptyString) elems) "/".

(** [filepath.Dir] is only used to create directories; the model keeps
    the path itself as the name of what is created. *)
Definition filepath_Dir (path : string) : string := path.

(** The readers a get returns, by the bytes they hold. *)
Inductive reader : Type :=
| BufferString (s : string)           (* bytes.NewBufferString(s) *)
| ReaderWithAutoCloser (rc : string). (* newReaderWithAutoCloser(rc) *)

End Go.
Export Go.

(** ** The auto-closing reader ([readerWithAutoCloser]) *)

Module AutoCloser.

(** Calls made on the wrapped [io.ReadCloser]. *)
Inductive call : Type := CallRead | CallClose.

Global Instance call_eq_dec : EqDecision call.
Proof. solve_decision. Defined.

(** The wrapped handle is any implementation of [io.ReadCloser]:
    a state with a [Read] and a [Close] transition. *)
Record ReadCloser (H : Type) : Type := {
  rc_Read : H → nat → (string * option error) * H;
  rc_Close : H → option error * H;
}.
Global Arguments rc_Read {H} _ _ _.
Global Arguments rc_Close {H} _ _.

Section Reader.
Context {H : Type} (I : ReadCloser H).

(** The world of a reader: the state of the handle [r.rc] points to
    and the calls made on it so far. *)
Record world : Type := { handle : H; calls : list call }.

Definition newReaderWithAutoCloser (rc : H) : world :=
  {| handle := rc; calls := [] |}.

(** [func (r *readerWithAutoCloser) Read(p []byte) (n int, err error)];
    [cap] is [len(p)], the result carries the bytes stored in [p]. *)
Definition Read (cap : nat) (w : world) : (string * option error) * world :=
  let '(n, err, h1) := rc_Read I (handle w) cap in
  let w1 := {| handle := h1; calls := calls w ++ [CallRead] |} in
  if decide (err = Some EOF) then
    let '(_, h2) := rc_Close I h1 in
    ((n, err), {| handle := h2; calls := calls w1 ++ [CallClose] |})
  else ((n, err), w1).

(** A caller issuing a sequence of [Read] calls with the given buffer
    sizes; the results are collected in order. *)
Fixpoint ReadAll (caps : list nat) (w : world)
  : list (string * option error) * world :=
  match caps with
  | [] => ([], w)
  | c :: rest =>
      let '(r, w1) := Read c w in
      let '(rs, w2) := ReadAll rest w1 in
      (r :: rs, w2)
  end.

Definition is_eof (r : string * option error) : bool :=
  bool_decide (r.2 = Some EOF).

Definition closes (w : world) : nat :=
  length (filter (λ c, c = CallClose) (calls w)).

(** The calls a result leaves on the handle. *)
Definition calls_of (r : string * option error) : list call :=
  if is_eof r then [CallRead; CallClose] else [CallRead].

End Reader.

(** A file-like handle: content, read offset and a closed flag.
    Once closed, [Read] reports a closed-handle error, as [*os.File]
    and HTTP response bodies do. *)
Record file : Type := { content : string; offset : nat; closed : bool }.

Definition file_Read (f : file) (cap : nat) : (string * option error) * file :=
  if closed f then (("", Some (other "file already closed")), f)
  else
    let rest := string_drop (offset f) (content f) in
    match rest with
    | "" => (("", Some EOF), f)
    | _ =>
        let chunk := string_take cap rest in
        ((chunk, None),
         {| content := content f; offset := offset f + String.length chunk;
            closed := false |})
    end.

Definition file_Close (f : file) : option error * file :=
  if closed f then (Some (other "file already closed"), f)
  else (None, {| content := content f; offset := offset f; closed := true |}).

Definition fileHandle : ReadCloser file :=
  {| rc_Read := file_Read; rc_Close := file_Close |}.

(** [http.NoBody], the body of a response without content: [Read]
    always reports end-of-file and [Close] does nothing. *)
Definition noBody : ReadCloser unit :=
  {| rc_Read := λ _ _, (("", Some EOF), tt); rc_Close := λ _, (None, tt) |}.

End AutoCloser.

(** ** The URI router ([GetFrom], [PutIn], [PutInWithFile]) *)

Module Router.

(** Number of occurrences of a byte in a string. *)
Fixpoint count_byte (sep : ascii) (s : string) : nat :=
  match s with
  | EmptyString => 0
  | String c s' => (if decide (c = sep) then 1 else 0) + count_byte sep s'
  end.

(** The fields of [url.URL] the router reads. *)
Record URL : Type := { Scheme : string; Host : string; Path : string }.

Definition slash : string := "/".

(** The segments of an address: the host (the owner) and one more for
    every separator in the path. *)
Definition segment_count (u : URL) : nat := S (count_byte "/"%char (Path u)).

Definition git_pattern : string := "git://owner/repository/branch/name".
Definition asset_pattern : string := "asset://owner/repository/release/name".
Definition gist_pattern : string := "gist://owner/gist_id/name".

Section Dispatch.
(** [G] is what a get returns, [P] what a put returns; [Src] is the
    byte source of [PutIn] (an [io.Reader]). *)
Context {G P Src : Type}.
(** [return nil, err] and [return "", err]. *)
Variable getErr : error → G.
Variable putErr : error → P.
(** [net/url.Parse]. *)
Variable url_Parse : string → error + URL.
(** The six driver entry points. *)
Variable GetFromGit : string → string → string → string → G.
Variable GetFromReleasesAsset : string → string → string → string → G.
Variable GetFromGist : string → string → string → G.
Variable putInGit : string → string → string → string → Src → P.
Variable putInReleasesAsset : string → string → string → string → Src → P.
Variable putInGist : string → string → string → Src → P.
Variable putInGitWithFile : string → string → string → string → string → P.
Variable putInReleasesAssetWithFile : string → string → string → string → string → P.
Variable putInGistWithFile : string → string → string → string → P.

Definition GetFrom (uri : string) : G :=
  match url_Parse uri with
  | inl err => getErr err
  | inr url =>
      if decide (Scheme url = "git") then
        match strings_SplitN (Path url) slash 4 with
        | [_; sl1; sl2; sl3] => GetFromGit (Host url) sl1 sl2 sl3
        | _ => getErr (ErrNotMatch uri git_pattern)
        end
      else if decide (Scheme url = "asset") then
        match strings_SplitN (Path url) slash 4 with
        | [_; sl1; sl2; sl3] => GetFromReleasesAsset (Host url) sl1 sl2 sl3
        | _ => getErr (ErrNotMatch uri asset_pattern)
        end
      else if decide (Scheme url = "gist") then
        match strings_SplitN (Path url) slash 3 with
        | [_; sl1; sl2] => GetFromGist (Host url) sl1 sl2
        | _ => getErr (ErrNotMatch uri gist_pattern)
        end
      else getErr (ErrNotSupport uri)
  end.

Definition PutInWithFile (uri filename : string) : P :=
  match url_Parse uri with
  | inl err => putErr err
  | inr u =>
      if decide (Scheme u = "git") then
        match strings_SplitN (Path u) slash 4 with
        | [_; sl1; sl2; sl3] => putInGitWithFile (Host u) sl1 sl2 sl3 filename
        | _ => putErr (ErrNotMatch uri git_pattern)
        end
      else if decide (Scheme u = "asset") then
        match strings_SplitN (Path u) slash 4 with
        | [_; sl1; sl2; sl3] =>
            putInReleasesAssetWithFile (Host u) sl1 sl2 sl3 filename
        | _ => putErr (ErrNotMatch uri asset_pattern)
        end
      else if decide (Scheme u = "gist") then
        match strings_SplitN (Path u) slash 3 with
        | [_; sl1; sl2] => putInGistWithFile (Host u) sl1 sl2 filename
        | _ => putErr (ErrNotMatch uri gist_pattern)
        end
      else putErr (ErrNotSupport uri)
  end.

Definition PutIn (uri : string) (r : Src) : P :=
  match url_Parse uri with
  | inl err => putErr err
  | inr u =>
      if decide (Scheme u = "git") then
        match strings_SplitN (Path u) slash 4 with
        | [_; sl1; sl2; sl3] => putInGit (Host u) sl1 sl2 sl3 r
        | _ => putErr (ErrNotMatch uri git_pattern)
        end
      else if decide (Scheme u = "asset") then
        match strings_SplitN (Path u) slash 4 with
        | [_; sl1; sl2; sl3] => putInReleasesAsset (Host u) sl1 sl2 sl3 r
        | _ => putErr (ErrNotMatch uri asset_pattern)
        end
      else if decide (Scheme u = "gist") then
        match strings_SplitN (Path u) slash 3 with
        | [_; sl1; sl2] => putInGist (Host u) sl1 sl2 r
        | _ => putErr (ErrNotMatch uri gist_pattern)
        end
      else putErr (ErrNotSupport uri)
  end.

End Dispatch.

(** *** [net/url.Parse] on plain addresses

    The standard library's parser restricted to addresses without
    query, fragment, percent escape, user information or port, which
    is the shape of every address in the package's usage text.  On
    such an address the model follows [url.Parse] step by step
    ([getScheme], the opaque case, the authority, the path); on any
    other address it answers [inl] with a marker error. *)

Definition is_alpha (c : ascii) : bool :=
  let n := nat_of_ascii c in
  ((97 <=? n) && (n <=? 122)) || ((65 <=? n) && (n <=? 90)).

Definition is_scheme_extra (c : ascii) : bool :=
  let n := nat_of_ascii c in
  ((48 <=? n) && (n <=? 57)) || (n =? 43) || (n =? 45) || (n =? 46).

(** [getScheme]: [i] is the loop index, [acc] the bytes read so far in
    reverse; [None] is the error "missing protocol scheme". *)
Fixpoint getScheme_loop (rawURL s : string) (i : nat) (acc : string)
  : option (string * string) :=
  match s with
  | EmptyString => Some (EmptyString, rawURL)
  | String c s' =>
      if is_alpha c then getScheme_loop rawURL s' (S i) (acc +:+ String c EmptyString)
      else if is_scheme_extra c then
        match i with
        | 0 => Some (EmptyString, rawURL)
        | _ => getScheme_loop rawURL s' (S i) (acc +:+ String c EmptyString)
        end
      else if decide (c = ":"%char) then
        match i with
        | 0 => None
        | _ => Some (acc, s')
        end
      else Some (EmptyString, rawURL)
  end.

Definition getScheme (rawURL : string) : option (string * string) :=
  getScheme_loop rawURL rawURL 0 EmptyString.

Definition to_lower (c : ascii) : ascii :=
  let n := nat_of_ascii c in
  if (65 <=? n) && (n <=? 90) then ascii_of_nat (n + 32) else c.

Fixpoint strings_ToLower (s : string) : string :=
  match s with
  | EmptyString => EmptyString
  | String c s' => String (to_lower c) (strings_ToLower s')
  end.

(** Bytes that take an address out of the modelled fragment. *)
Definition is_plain (c : ascii) : bool :=
  let n := nat_of_ascii c in
  (32 <=? n) && (n <? 127)
  && negb (bool_decide (c ∈ ["#"; "?"; "%"; "@"; "["; "]"; ":"; " "]%char)).

Fixpoint all_plain (s : string) : bool :=
  match s with
  | EmptyString => true
  | String c s' => is_plain c && all_plain s'
  end.

Definition unmodelled : error := other "address outside the modelled fragment".

Definition url_Parse_plain (rawURL : string) : error + URL :=
  if decide (rawURL = "*") then
    inr {| Scheme := EmptyString; Host := EmptyString; Path := "*" |}
  else
  match getScheme rawURL with
  | None => inl (other "missing protocol scheme")
  | Some (scheme, rest) =>
      if negb (all_plain rest) then inl unmodelled
      else
        let scheme := strings_ToLower scheme in
        match rest with
        | String "/" (String "/" authority) =>
            (* [rest] starts with "//": authority up to the next "/",
               unless there is no scheme and [rest] starts with "///" *)
            if bool_decide (scheme = EmptyString)
               && match authority with String "/" _ => true | _ => false end then
              inr {| Scheme := scheme; Host := EmptyString; Path := rest |}
            else
            match strings_cut slash authority with
            | Some (host, path) =>
                inr {| Scheme := scheme; Host := host; Path := String "/" path |}
            | None =>
                inr {| Scheme := scheme; Host := authority; Path := EmptyString |}
            end
        | String "/" _ =>
            inr {| Scheme := scheme; Host := EmptyString; Path := rest |}
        | _ =>
            if decide (scheme = EmptyString) then
              inr {| Scheme := scheme; Host := EmptyString; Path := rest |}
            else
              (* a rootless path after a scheme is opaque: Path stays empty *)
              inr {| Scheme := scheme; Host := EmptyString; Path := EmptyString |}
        end
  end.

End Router.

(** ** The forge's REST interface (gists, releases, release assets) *)

Module Forge.

(** [ghv3.Response]: the status code of the embedded [http.Response]
    and the page cursor. *)
Record Response : Type := { StatusCode : Z; NextPage : Z }.

Definition StatusNotFound : Z := 404.

(** [ghv3.GistFile], [ghv3.Gist]. *)
Record GistFile : Type := {
  gf_Filename : option string;
  gf_Content : option string;
  gf_RawURL : option string;
}.

Record Gist : Type := {
  g_ID : option string;
  g_Description : option string;
  g_Public : option bool;
  g_Files : gmap string GistFile;
}.

(** [ghv3.ReleaseAsset], [ghv3.RepositoryRelease]. *)
Record ReleaseAsset : Type := {
  a_ID : option Z;
  a_Name : option string;
  a_BrowserDownloadURL : option string;
}.

Record RepositoryRelease : Type := {
  r_ID : option Z;
  r_Name : option string;
  r_TagName : option string;
  r_Draft : option bool;
  r_Assets : list ReleaseAsset;
}.

(** What a client call returns: [(value, response, err)]. *)
Record reply (T : Type) : Type := {
  val : T;
  resp : option Response;
  err : option error;
}.
Global Arguments val {T} _.
Global Arguments resp {T} _.
Global Arguments err {T} _.

(** The zero value of [ghv3.GistFile], what indexing a map with a
    missing key yields. *)
Definition zeroGistFile : GistFile :=
  {| gf_Filename := None; gf_Content := None; gf_RawURL := None |}.

(** The collaborators of the two REST drivers: the forge client
    ([s.cliv3]), the HTTP client ([s.httpCli]) and the local file
    system, as transitions of a state [St] the package does not see. *)
Record Env (St : Type) : Type := {
  Gists_List : string → Z → Z → St → reply (list Gist) * St;
  Gists_Create : Gist → St → reply (option Gist) * St;
  Gists_Edit : string → Gist → St → reply (option Gist) * St;
  Repositories_ListReleases :
    string → string → Z → Z → St → reply (list RepositoryRelease) * St;
  Repositories_GetReleaseByTag :
    string → string → string → St → reply (option RepositoryRelease) * St;
  Repositories_GetRelease :
    string → string → Z → St → reply (option RepositoryRelease) * St;
  Repositories_CreateRelease :
    string → string → RepositoryRelease → St
    → reply (option RepositoryRelease) * St;
  Repositories_DeleteReleaseAsset :
    string → string → Z → St → reply unit * St;
  (** the last argument is the content of the file handed over *)
  Repositories_UploadReleaseAsset :
    string → string → Z → string → string → St
    → reply (option ReleaseAsset) * St;
  (** [s.httpCli.Do] of a GET request: the body of the response *)
  httpCli_Do : string → St → (option string * option error) * St;
  (** [os.Open]: the content behind the handle *)
  os_Open : string → St → (option string * option error) * St;
  os_Close : string → St → option error * St;
  os_MkdirAll : string → St → option error * St;
  os_OpenFile : string → St → option error * St;
  (** [io.Copy(f, r)] into the file of the given name *)
  io_Copy : string → string → St → option error * St;
}.
Global Arguments Gists_List {St} _ _ _ _ _.
Global Arguments Gists_Create {St} _ _ _.
Global Arguments Gists_Edit {St} _ _ _ _.
Global Arguments Repositories_ListReleases {St} _ _ _ _ _ _.
Global Arguments Repositories_GetReleaseByTag {St} _ _ _ _ _.
Global Arguments Repositories_GetRelease {St} _ _ _ _ _.
Global Arguments Repositories_CreateRelease {St} _ _ _ _ _.
Global Arguments Repositories_DeleteReleaseAsset {St} _ _ _ _ _.
Global Arguments Repositories_UploadReleaseAsset {St} _ _ _ _ _ _ _.
Global Arguments httpCli_Do {St} _ _ _.
Global Arguments os_Open {St} _ _ _.
Global Arguments os_Close {St} _ _ _.
Global Arguments os_MkdirAll {St} _ _ _.
Global Arguments os_OpenFile {St} _ _ _.
Global Arguments io_Copy {St} _ _ _ _.

(** The calls that leave the package. *)
Inductive Event : Type :=
| EvGistsList (owner : string) (page perPage : Z)
| EvGistsCreate (g : Gist)
| EvGistsEdit (id : string) (g : Gist)
| EvListReleases (owner repo : string) (page perPage : Z)
| EvGetReleaseByTag (owner repo tag : string)
| EvGetRelease (owner repo : string) (id : Z)
| EvCreateRelease (owner repo : string) (r : RepositoryRelease)
| EvDeleteReleaseAsset (owner repo : string) (id : Z)
| EvUploadReleaseAsset (owner repo : string) (id : Z) (name data : string)
| EvHttpGet (url : string)
| EvOpen (filename : string)
| EvClose (filename : string)
| EvMkdirAll (path : string)
| EvOpenFile (filename : string)
| EvCopy (filename data : string).

Definition anyFile : string := "*".

Section Drivers.
Context {St : Type} (env : Env St).
(** [s.perPage] and [s.tmpDir]. *)
Variable perPage : Z.
Variable tmpDir : string.

Record world : Type := { forge : St; trace : list Event }.

(** A call to a collaborator: logged, then performed. *)
Definition call {T} (ev : Event) (op : St → T * St) : M world T := λ w,
  let '(r, s') := op (forge w) in
  (Ret r, {| forge := s'; trace := trace w ++ [ev] |}).

(** A pure computation that may ask for a nil pointer. *)
Definition lift {T} (o : outcome T) : M world T := λ w, (o, w).

(** [defer cleanup] around [body]: [cleanup] runs when [body] is left,
    however it is left. *)
Definition with_defer {T} (cleanup : M world unit) (body : M world T)
  : M world T := λ w,
  let '(o, w1) := body w in (o, (cleanup w1).2).

(** [func (s *PutInGH) httpGet(ctx, uri)], returning the response and the error. *)
Definition httpGet (uri : string) : M world (option string * option error) :=
  call (EvHttpGet uri) (httpCli_Do env uri).

(** [func (s *PutInGH) eachGist(ctx, owner, next) error].  The loop is
    entered with [opt.Page] equal to [page]; [acc] is the variable the
    closure [next] captures, returned as it stands when the scan ends. *)
Fixpoint eachGist_from {A} (fuel : nat) (owner : string) (page : Z)
    (next : option (list Gist → A → outcome (bool * A))) (acc : A)
  : M world A :=
  match fuel with
  | 0 => diverge
  | S fuel' =>
      r ← call (EvGistsList owner page perPage)
             (Gists_List env owner page perPage);
      match err r with
      | Some e =>
          match resp r with
          | Some rs =>
              if (StatusCode rs =? StatusNotFound)%Z then mret acc else fail e
          | None => fail e
          end
      | None =>
          '(continue, acc') ←
            match next with
            | Some nx => lift (nx (val r) acc)
            | None => mret (true, acc)
            end;
          if negb continue then mret acc'
          else
            rs ← deref (resp r);
            if (NextPage rs =? 0)%Z then mret acc'
            else eachGist_from fuel' owner (NextPage rs) next acc'
      end
  end.

Definition eachGist {A} (fuel : nat) (owner : string)
    (next : option (list Gist → A → outcome (bool * A))) (acc : A)
  : M world A :=
  eachGist_from fuel owner 0%Z next acc.

(** [func (s *PutInGH) eachReleases(ctx, owner, repo, next) error]. *)
Fixpoint eachReleases_from {A} (fuel : nat) (owner repo : string) (page : Z)
    (next : option (list RepositoryRelease → A → outcome (bool * A)))
    (acc : A) : M world A :=
  match fuel with
  | 0 => diverge
  | S fuel' =>
      r ← call (EvListReleases owner repo page perPage)
             (Repositories_ListReleases env owner repo page perPage);
      match err r with
      | Some e =>
          match resp r with
          | Some rs =>
              if (StatusCode rs =? StatusNotFound)%Z then mret acc else fail e
          | None => fail e
          end
      | None =>
          '(continue, acc') ←
            match next with
            | Some nx => lift (nx (val r) acc)
            | None => mret (true, acc)
            end;
          if negb continue then mret acc'
          else
            rs ← deref (resp r);
            if (NextPage rs =? 0)%Z then mret acc'
            else eachReleases_from fuel' owner repo (NextPage rs) next acc'
      end
  end.

Definition eachReleases {A} (fuel : nat) (owner repo : string)
    (next : option (list RepositoryRelease → A → outcome (bool * A)))
    (acc : A) : M world A :=
  eachReleases_from fuel owner repo 0%Z next acc.

(** The closure handed to [eachGist] by [GetFromGist] and [putInGist];
    the captured variable is [oriGist]. *)
Fixpoint gistNext (gistId name : string) (gists : list Gist)
    (oriGist : option Gist) : outcome (bool * option Gist) :=
  match gists with
  | [] => Ret (true, oriGist)
  | gist :: rest =>
      if decide (gistId = anyFile) then
        match g_Files gist !! name with
        | Some _ => Ret (false, Some gist)
        | None => gistNext gistId name rest oriGist
        end
      else
        match g_ID gist with
        | None => Panic
        | Some id =>
            if decide (id = gistId) then Ret (false, Some gist)
            else gistNext gistId name rest oriGist
        end
  end.

(** [func (s *PutInGH) GetFromGist(ctx, owner, gistId, name)]. *)
Definition GetFromGist (fuel : nat) (owner gistId name : string)
  : M world reader :=
  oriGist ← eachGist fuel owner (Some (gistNext gistId name)) None;
  match oriGist with
  | None => fail ErrNotFound
  | Some g =>
      match g_Files g !! name with
      | None => fail ErrNotFound
      | Some file =>
          match gf_Content file with
          | Some c => mret (BufferString c)
          | None =>
              match gf_RawURL file with
              | Some u =>
                  '(resp, err) ← httpGet u;
                  match err with
                  | Some e => fail e
                  | None => body ← deref resp; mret (ReaderWithAutoCloser body)
                  end
              | None => fail ErrNotFound
              end
          end
      end
  end.

(** [raw = *gist.Files[ghv3.GistFilename(name)].RawURL] after a create
    or an edit that returned [(gist, _, err)]. *)
Definition rawURLOf (name : string) (r : reply (option Gist)) : M world string :=
  match err r with
  | Some e => fail e
  | None =>
      gist ← deref (val r);
      deref (gf_RawURL (default zeroGistFile (g_Files gist !! name)))
  end.

(** [func (s *PutInGH) putInGist(ctx, owner, gistId, name, r)]; [r] is
    what [io.ReadAll(r)] returns. *)
Definition putInGist (fuel : nat) (owner gistId name : string)
    (r : error + string) : M world string :=
  match r with
  | inl e => fail e
  | inr dataContext =>
      oriGist ← eachGist fuel owner (Some (gistNext gistId name)) None;
      raw ←
        match oriGist with
        | None =>
            let req :=
              {| g_ID := None; g_Description := Some gistId;
                 g_Public := Some true;
                 g_Files := {[ name := {| gf_Filename := None;
                                          gf_Content := Some dataContext;
                                          gf_RawURL := None |} ]} |} in
            rep ← call (EvGistsCreate req) (Gists_Create env req);
            rawURLOf name rep
        | Some g =>
            let oriGist' :=
              {| g_ID := g_ID g; g_Description := g_Description g;
                 g_Public := g_Public g;
                 g_Files := {[ name := {| gf_Filename := Some name;
                                          gf_Content := Some dataContext;
                                          gf_RawURL := None |} ]} |} in
            id ← deref (g_ID oriGist');
            rep ← call (EvGistsEdit id oriGist') (Gists_Edit env id oriGist');
            rawURLOf name rep
        end;
      mret (default EmptyString (head (strings_SplitN raw "/raw/" 2))
            +:+ "/raw/" +:+ name)
  end.

(** [if err != nil && response.StatusCode != http.StatusNotFound
    { return err }] after the lookup of a release by tag. *)
Definition checkLookup {T} (r : reply T) : M world unit :=
  match err r with
  | Some e =>
      response ← deref (resp r);
      if negb (StatusCode response =? StatusNotFound)%Z then fail e
      else mret tt
  | None => mret tt
  end.

(** [releaseID]: the [ID] of [respRelease] when there is one. *)
Definition releaseIDOf (r : reply (option RepositoryRelease)) : option Z :=
  match val r with
  | Some respRelease => r_ID respRelease
  | None => None
  end.

(** The loop of [GetFromReleasesAsset] over the assets. *)
Fixpoint findDownloadURL (name : string) (assets : list ReleaseAsset)
    (downloadURL : string) : outcome string :=
  match assets with
  | [] => Ret downloadURL
  | asset :: rest =>
      match a_Name asset with
      | None => Panic
      | Some n =>
          if decide (n = name) then
            match a_BrowserDownloadURL asset with
            | None => Fail ErrNotFound
            | Some u => findDownloadURL name rest u
            end
          else findDownloadURL name rest downloadURL
      end
  end.

(** [func (s *PutInGH) GetFromReleasesAsset(ctx, owner, repo, release, name)]. *)
Definition GetFromReleasesAsset (owner repo release name : string)
  : M world reader :=
  lookup ← call (EvGetReleaseByTag owner repo release)
             (Repositories_GetReleaseByTag env owner repo release);
  _ ← checkLookup lookup;
  match releaseIDOf lookup with
  | None => fail ErrNotFound
  | Some releaseID =>
      rep ← call (EvGetRelease owner repo releaseID)
              (Repositories_GetRelease env owner repo releaseID);
      match err rep with
      | Some e => fail e
      | None =>
          repositoryRelease ← deref (val rep);
          downloadURL ←
            lift (findDownloadURL name (r_Assets repositoryRelease) EmptyString);
          if decide (downloadURL = EmptyString) then fail ErrNotFound
          else
            '(resp, err) ← httpGet downloadURL;
            match err with
            | Some e => fail e
            | None => body ← deref resp; mret (ReaderWithAutoCloser body)
            end
      end
  end.

(** The loop of [putInReleasesAssetWithFile] over the assets of an
    existing release: delete the first asset of the given name. *)
Fixpoint deleteExisting (owner repo name : string)
    (assets : list ReleaseAsset) : M world unit :=
  match assets with
  | [] => mret tt
  | asset :: rest =>
      n ← deref (a_Name asset);
      if decide (n = name) then
        id ← deref (a_ID asset);
        rep ← call (EvDeleteReleaseAsset owner repo id)
                (Repositories_DeleteReleaseAsset env owner repo id);
        match err rep with
        | Some e => fail e
        | None => mret tt
        end
      else deleteExisting owner repo name rest
  end.

(** [func (s *PutInGH) putInReleasesAssetWithFile(ctx, owner, repo,
    release, name, filename)]. *)
Definition putInReleasesAssetWithFile
    (owner repo release name filename : string) : M world string :=
  lookup ← call (EvGetReleaseByTag owner repo release)
             (Repositories_GetReleaseByTag env owner repo release);
  _ ← checkLookup lookup;
  releaseID ←
    match releaseIDOf lookup with
    | None =>
        let req := {| r_ID := None; r_Name := Some release;
                      r_TagName := Some release; r_Draft := Some false;
                      r_Assets := [] |} in
        rep ← call (EvCreateRelease owner repo req)
                (Repositories_CreateRelease env owner repo req);
        match err rep with
        | Some e => fail e
        | None => repositoryRelease ← deref (val rep);
                  mret (r_ID repositoryRelease)
        end
    | Some id =>
        rep ← call (EvGetRelease owner repo id)
                (Repositories_GetRelease env owner repo id);
        match err rep with
        | Some e => fail e
        | None =>
            repositoryRelease ← deref (val rep);
            _ ← deleteExisting owner repo name (r_Assets repositoryRelease);
            mret (Some id)
        end
    end;
  '(f, openErr) ← call (EvOpen filename) (os_Open env filename);
  match openErr with
  | Some e => fail e
  | None =>
      with_defer
        (_ ← call (EvClose filename) (os_Close env filename); mret tt)
        (data ← deref f;
         id ← deref releaseID;
         rep ← call (EvUploadReleaseAsset owner repo id name data)
                 (Repositories_UploadReleaseAsset env owner repo id name data);
         match err rep with
         | Some e => fail e
         | None =>
             respAsset ← deref (val rep);
             deref (a_BrowserDownloadURL respAsset)
         end)
  end.

(** [func (s *PutInGH) putInReleasesAsset(ctx, owner, repo, release,
    name, r)]: the stream is spooled to a file first. *)
Definition putInReleasesAsset (owner repo release name : string)
    (r : string) : M world string :=
  let filename := filepath_Join [tmpDir; "asset"; owner; repo; release; name] in
  _ ← call (EvMkdirAll (filepath_Dir filename))
        (os_MkdirAll env (filepath_Dir filename));
  err ← call (EvOpenFile filename) (os_OpenFile env filename);
  match err with
  | Some e => fail e
  | None =>
      err ← call (EvCopy filename r) (io_Copy env filename r);
      match err with
      | Some e => fail e
      | None =>
          _ ← call (EvClose filename) (os_Close env filename);
          putInReleasesAssetWithFile owner repo release name filename
      end
  end.

(** [func (s *PutInGH) putInGistWithFile(ctx, owner, gistId, name, filename)]. *)
Definition putInGistWithFile (fuel : nat) (owner gistId name filename : string)
  : M world string :=
  '(f, err) ← call (EvOpen filename) (os_Open env filename);
  match err with
  | Some e => fail e
  | None =>
      with_defer
        (_ ← call (EvClose filename) (os_Close env filename); mret tt)
        (data ← deref f; putInGist fuel owner gistId name (inr data))
  end.

End Drivers.
End Forge.

(** ** A forge in memory

    An instance of the collaborators' interface: gists and releases
    kept in lists, the web as a map from URL to body, the local files
    as a map from name to content.  It serves as the concrete
    environment in which the drivers are run on examples. *)

Module MemForge.
Import Forge.

Record mem : Type := {
  m_gists : list Gist;
  m_releases : list RepositoryRelease;
  m_web : gmap string string;
  m_files : gmap string string;
  m_next : Z;                      (* the next fresh identifier *)
  m_offline : bool;                (* the forge cannot be reached *)
  m_uploadError : option error;    (* the forge refuses uploads *)
}.

Definition ok (next : Z) : option Response :=
  Some {| StatusCode := 200; NextPage := next |}.

Definition unreachable {T} (v : T) : reply T :=
  {| val := v; resp := None; err := Some (other "connection refused") |}.

Definition notFound {T} (v : T) : reply T :=
  {| val := v; resp := Some {| StatusCode := 404; NextPage := 0 |};
     err := Some (other "404 Not Found") |}.

(** The items of a page and the number of the next one (0: none). *)
Definition page_of {T} (items : list T) (page perPage : Z) : list T * Z :=
  let p := Z.to_nat (Z.max page 1) in
  let pp := Z.to_nat perPage in
  (take pp (drop ((p - 1) * pp) items),
   if p * pp <? length items then Z.of_nat (S p) else 0%Z).

Definition mem_Gists_List (owner : string) (page perPage : Z) (s : mem)
  : reply (list Gist) * mem :=
  if m_offline s then (unreachable [], s)
  else
    let '(items, next) := page_of (m_gists s) page perPage in
    ({| val := items; resp := ok next; err := None |}, s).

Definition rawURL (id name : string) : string :=
  "https://gist.example/" +:+ id +:+ "/raw/0/" +:+ name.

Definition withRawURLs (id : string) (files : gmap string GistFile)
  : gmap string GistFile :=
  map_imap (λ name f, Some {| gf_Filename := Some name;
                              gf_Content := gf_Content f;
                              gf_RawURL := Some (rawURL id name) |}) files.

Definition set_gists (s : mem) (gs : list Gist) (next : Z) : mem :=
  {| m_gists := gs; m_releases := m_releases s; m_web := m_web s;
     m_files := m_files s; m_next := next; m_offline := m_offline s;
     m_uploadError := m_uploadError s |}.

Definition mem_Gists_Create (g : Gist) (s : mem) : reply (option Gist) * mem :=
  if m_offline s then (unreachable None, s)
  else
    let id := "g" +:+ pretty (m_next s) in
    let g' := {| g_ID := Some id; g_Description := g_Description g;
                 g_Public := g_Public g;
                 g_Files := withRawURLs id (g_Files g) |} in
    ({| val := Some g'; resp := ok 0; err := None |},
     set_gists s (m_gists s ++ [g']) (m_next s + 1)).

(** An edit stores the submitted object under the identifier. *)
Definition mem_Gists_Edit (id : string) (g : Gist) (s : mem)
  : reply (option Gist) * mem :=
  if m_offline s then (unreachable None, s)
  else if existsb (λ x, bool_decide (g_ID x = Some id)) (m_gists s) then
    let g' := {| g_ID := Some id; g_Description := g_Description g;
                 g_Public := g_Public g;
                 g_Files := withRawURLs id (g_Files g) |} in
    ({| val := Some g'; resp := ok 0; err := None |},
     set_gists s
       (map (λ x, if bool_decide (g_ID x = Some id) then g' else x) (m_gists s))
       (m_next s))
  else (notFound None, s).

Definition set_releases (s : mem) (rs : list RepositoryRelease)
    (web : gmap string string) (next : Z) : mem :=
  {| m_gists := m_gists s; m_releases := rs; m_web := web;
     m_files := m_files s; m_next := next; m_offline := m_offline s;
     m_uploadError := m_uploadError s |}.

Definition mem_ListReleases (owner repo : string) (page perPage : Z) (s : mem)
  : reply (list RepositoryRelease) * mem :=
  if m_offline s then (unreachable [], s)
  else
    let '(items, next) := page_of (m_releases s) page perPage in
    ({| val := items; resp := ok next; err := None |}, s).

Definition found (o : option RepositoryRelease) (s : mem)
  : reply (option RepositoryRelease) * mem :=
  match o with
  | Some r => ({| val := Some r; resp := ok 0; err := None |}, s)
  | None => (notFound None, s)
  end.

Definition mem_GetReleaseByTag (owner repo tag : string) (s : mem)
  : reply (option RepositoryRelease) * mem :=
  if m_offline s then (unreachable None, s)
  else found (find (λ r, bool_decide (r_TagName r = Some tag)) (m_releases s)) s.

Definition mem_GetRelease (owner repo : string) (id : Z) (s : mem)
  : reply (option RepositoryRelease) * mem :=
  if m_offline s then (unreachable None, s)
  else found (find (λ r, bool_decide (r_ID r = Some id)) (m_releases s)) s.

Definition mem_CreateRelease (owner repo : string) (req : RepositoryRelease)
    (s : mem) : reply (option RepositoryRelease) * mem :=
  if m_offline s then (unreachable None, s)
  else
    let r := {| r_ID := Some (m_next s); r_Name := r_Name req;
                r_TagName := r_TagName req; r_Draft := r_Draft req;
                r_Assets := [] |} in
    ({| val := Some r; resp := ok 0; err := None |},
     set_releases s (m_releases s ++ [r]) (m_web s) (m_next s + 1)).

Definition with_assets (r : RepositoryRelease) (assets : list ReleaseAsset)
  : RepositoryRelease :=
  {| r_ID := r_ID r; r_Name := r_Name r; r_TagName := r_TagName r;
     r_Draft := r_Draft r; r_Assets := assets |}.

Definition mem_DeleteReleaseAsset (owner repo : string) (id : Z) (s : mem)
  : reply unit * mem :=
  if m_offline s then (unreachable tt, s)
  else
    ({| val := tt; resp := ok 0; err := None |},
     set_releases s
       (map (λ r, with_assets r
                    (filter (λ a, a_ID a ≠ Some id) (r_Assets r)))
            (m_releases s))
       (m_web s) (m_next s)).

Definition downloadURL (owner repo name : string) (id : Z) : string :=
  "https://forge.example/" +:+ owner +:+ "/" +:+ repo
  +:+ "/releases/download/" +:+ pretty id +:+ "/" +:+ name.

Definition mem_UploadReleaseAsset (owner repo : string) (id : Z)
    (name data : string) (s : mem) : reply (option ReleaseAsset) * mem :=
  if m_offline s then (unreachable None, s)
  else
    match m_uploadError s with
    | Some e =>
        ({| val := None; resp := Some {| StatusCode := 422; NextPage := 0 |};
            err := Some e |}, s)
    | None =>
        let url := downloadURL owner repo name id in
        let a := {| a_ID := Some (m_next s); a_Name := Some name;
                    a_BrowserDownloadURL := Some url |} in
        ({| val := Some a; resp := ok 0; err := None |},
         set_releases s
           (map (λ r, if bool_decide (r_ID r = Some id)
                      then with_assets r (r_Assets r ++ [a]) else r)
                (m_releases s))
           (<[url := data]> (m_web s)) (m_next s + 1))
    end.

Definition mem_httpCli_Do (url : string) (s : mem)
  : (option string * option error) * mem :=
  match m_web s !! url with
  | Some body => ((Some body, None), s)
  | None => ((None, Some (other "no such host")), s)
  end.

Definition mem_os_Open (filename : string) (s : mem)
  : (option string * option error) * mem :=
  match m_files s !! filename with
  | Some data => ((Some data, None), s)
  | None => ((None, Some (other "no such file or directory")), s)
  end.

Definition set_files (s : mem) (files : gmap string string) : mem :=
  {| m_gists := m_gists s; m_releases := m_releases s; m_web := m_web s;
     m_files := files; m_next := m_next s; m_offline := m_offline s;
     m_uploadError := m_uploadError s |}.

Definition memEnv : Env mem := {|
  Gists_List := mem_Gists_List;
  Gists_Create := mem_Gists_Create;
  Gists_Edit := mem_Gists_Edit;
  Repositories_ListReleases := mem_ListReleases;
  Repositories_GetReleaseByTag := mem_GetReleaseByTag;
  Repositories_GetRelease := mem_GetRelease;
  Repositories_CreateRelease := mem_CreateRelease;
  Repositories_DeleteReleaseAsset := mem_DeleteReleaseAsset;
  Repositories_UploadReleaseAsset := mem_UploadReleaseAsset;
  httpCli_Do := mem_httpCli_Do;
  os_Open := mem_os_Open;
  os_Close := λ _ s, (None, s);
  os_MkdirAll := λ _ s, (None, s);
  os_OpenFile := λ filename s, (None, set_files s (<[filename := EmptyString]> (m_files s)));
  io_Copy := λ filename data s, (None, set_files s (<[filename := data]> (m_files s)));
|}.

(** Sample content. *)
Definition inlineFile (name content : string) : GistFile :=
  {| gf_Filename := Some name; gf_Content := Some content; gf_RawURL := None |}.

Definition gistA : Gist :=
  {| g_ID := Some "a1"; g_Description := Some "notes"; g_Public := Some true;
     g_Files := {[ "y" := inlineFile "y" "old y" ]} |}.

Definition gistB : Gist :=
  {| g_ID := Some "b2"; g_Description := Some "data"; g_Public := Some true;
     g_Files := {[ "x" := inlineFile "x" "old x"; "y" := inlineFile "y" "why" ]} |}.

Definition gistC : Gist :=
  {| g_ID := Some "c3"; g_Description := Some "more"; g_Public := Some true;
     g_Files := {[ "x" := inlineFile "x" "other x" ]} |}.

Definition assetOld : ReleaseAsset :=
  {| a_ID := Some 7%Z; a_Name := Some "tool.tgz";
     a_BrowserDownloadURL := Some "https://forge.example/o/r/releases/download/5/tool.tgz" |}.

Definition releaseV1 : RepositoryRelease :=
  {| r_ID := Some 5%Z; r_Name := Some "v1"; r_TagName := Some "v1";
     r_Draft := Some false;
     r_Assets := [ {| a_ID := Some 6%Z; a_Name := Some "notes.txt";
                      a_BrowserDownloadURL := None |}; assetOld ] |}.

Definition sample : mem :=
  {| m_gists := [gistA; gistB; gistC];
     m_releases := [releaseV1];
     m_web := ∅;
     m_files := {[ "/tmp/tool.tgz" := "new bytes" ]};
     m_next := 10;
     m_offline := false;
     m_uploadError := None |}.

Definition offline (s : mem) : mem :=
  {| m_gists := m_gists s; m_releases := m_releases s; m_web := m_web s;
     m_files := m_files s; m_next := m_next s; m_offline := true;
     m_uploadError := m_uploadError s |}.

Definition start (s : mem) : world (St:=mem) := {| forge := s; trace := [] |}.

End MemForge.

(** ** The git mirror driver *)

Module Git.

(** *** Objects, references and repositories

    [plumbing.Hash] is a natural number: 0 is the zero hash, [S n]
    names the [n]-th commit of the world's object universe.  A tree is
    a map from path to blob content. *)
Definition ZeroHash : nat := 0.
Definition IsZero (h : nat) : bool := h =? 0.

Record Signature : Type := { sig_Name : string; sig_Email : string }.

(** [gogit.CommitOptions]; the time of the signature is left out. *)
Record CommitOptions : Type := { Author : option Signature }.

Record Commit : Type := {
  c_tree : gmap string string;
  c_parents : list nat;
  c_message : string;
  c_author : option Signature;
}.

Inductive Target : Type :=
| HashTarget (h : nat)
| SymbolicTarget (name : string).

Record Reference : Type := { ref_name : string; ref_target : Target }.

Global Instance Target_eq_dec : EqDecision Target.
Proof. solve_decision. Defined.

(** [plumbing.NewHashReference], [plumbing.NewSymbolicReference]. *)
Definition NewHashReference (n : string) (h : nat) : Reference :=
  {| ref_name := n; ref_target := HashTarget h |}.
Definition NewSymbolicReference (n target : string) : Reference :=
  {| ref_name := n; ref_target := SymbolicTarget target |}.

(** [Reference.Hash]: the zero hash for a symbolic one. *)
Definition Reference_Hash (r : Reference) : nat :=
  match ref_target r with
  | HashTarget h => h
  | SymbolicTarget _ => ZeroHash
  end.

Definition HEAD : string := "HEAD".

(** [plumbing.NewBranchReferenceName]. *)
Definition NewBranchReferenceName (branch : string) : string :=
  "refs/heads/" +:+ branch.

(** [gogitconfig.RefSpec], by its parts: ["+src:dst"]. *)
Record RefSpec : Type := { rs_force : bool; rs_src : string; rs_dst : string }.

Definition RefSpec_String (rs : RefSpec) : string :=
  (if rs_force rs then "+" else "") +:+ rs_src rs +:+ ":" +:+ rs_dst rs.

Record RemoteConfig : Type := {
  rc_Name : string;
  rc_URLs : list string;
  rc_Fetch : list RefSpec;
}.

Record BranchConfig : Type := {
  bc_Name : string;
  bc_Merge : string;
  bc_Remote : string;
}.

(** A repository: its references in the order the storer's iterator
    yields them, its index, and the remotes and branches of its
    configuration. *)
Record Repository : Type := {
  refs : list Reference;
  index : gmap string string;
  remotes : list RemoteConfig;
  branches : list BranchConfig;
}.

(** A directory of the local disk: the repository in its [.git], when
    there is one, and the files beside it. *)
Record Dir : Type := {
  dotgit : option Repository;
  files : gmap string string;
}.

Definition emptyDir : Dir := {| dotgit := None; files := ∅ |}.

(** [gogithttp.BasicAuth]. *)
Record BasicAuth : Type := { Username : string; Password : string }.

(** The calls that leave the package. *)
Inductive Event : Type :=
| EvMkdirAll (path : string)
| EvStat (path : string)
| EvPlainOpen (dir : string)
| EvPlainInit (dir : string)
| EvSetReference (dir : string) (r : Reference)
| EvRemote (dir name : string)
| EvCreateRemote (dir : string) (c : RemoteConfig)
| EvBranch (dir name : string)
| EvCreateBranch (dir : string) (c : BranchConfig)
| EvFetch (dir remoteName : string) (refSpecs : list RefSpec) (auth : BasicAuth)
| EvIterReferences (dir : string)
| EvNext (dir : string)
| EvWorktree (dir : string)
| EvReset (dir : string) (commit : nat)
| EvOpenFile (path : string)
| EvCopy (path data : string)
| EvClose (path : string)
| EvOpen (path : string)
| EvAdd (dir name : string)
| EvStatus (dir : string)
| EvCommit (dir message : string) (opt : CommitOptions)
| EvPush (dir remoteName : string) (auth : BasicAuth).

Definition is_commit (e : Event) : bool :=
  match e with EvCommit _ _ _ => true | _ => false end.
Definition is_push (e : Event) : bool :=
  match e with EvPush _ _ _ => true | _ => false end.

(** The world of the driver: the local disk, the universe of commit
    objects, the repositories of the forge (URL to branch reference
    name to tip), the failures the collaborators will report (by the
    number of the call) and the calls made so far. *)
Record world : Type := {
  dirs : gmap string Dir;
  objects : list Commit;
  upstream : gmap string (gmap string nat);
  faults : nat → option error;
  trace : list Event;
}.

Definition log (ev : Event) (w : world) : world :=
  {| dirs := dirs w; objects := objects w; upstream := upstream w;
     faults := faults w; trace := trace w ++ [ev] |}.

(** A call to a collaborator: logged; it reports the failure the world
    holds for this call, if any, and else does its work. *)
Definition lib {A} (ev : Event) (work : M world A) : M world A := λ w,
  match faults w (length (trace w)) with
  | Some e => (Fail e, log ev w)
  | None => work (log ev w)
  end.

(** [fmt.Errorf("<context>: %w", err)] on the error of a call. *)
Definition wrapping {A} (context : string) (m : M world A) : M world A := λ w,
  match m w with
  | (Fail e, w') => (Fail (wrap context e), w')
  | r => r
  end.

Definition commits (w : world) : nat := length (filter is_commit (trace w)).
Definition pushes (w : world) : nat := length (filter is_push (trace w)).

(** *** The reference store *)

(** The order in which the storer of a repository on disk yields its
    references: those under [refs/] by path, then [HEAD]. *)
Definition ref_before (a b : string) : bool :=
  if decide (a = HEAD) then false
  else if decide (b = HEAD) then true
  else String.ltb a b.

Fixpoint set_ref (r : Reference) (l : list Reference) : list Reference :=
  match l with
  | [] => [r]
  | x :: rest =>
      if decide (ref_name x = ref_name r) then r :: rest
      else if ref_before (ref_name r) (ref_name x) then r :: x :: rest
      else x :: set_ref r rest
  end.

Definition lookup_ref (n : string) (l : list Reference) : option Target :=
  ref_target <$> find (λ x, bool_decide (ref_name x = n)) l.

(** The commit [HEAD] stands for, the zero hash when there is none. *)
Definition resolve_head (l : list Reference) : nat :=
  match lookup_ref HEAD l with
  | Some (SymbolicTarget t) =>
      match lookup_ref t l with
      | Some (HashTarget h) => h
      | _ => ZeroHash
      end
  | Some (HashTarget h) => h
  | None => ZeroHash
  end.

(** The reference a commit or a reset moves: the branch [HEAD] points
    to, or [HEAD] itself when detached. *)
Definition head_target (l : list Reference) : option string :=
  match lookup_ref HEAD l with
  | Some (SymbolicTarget t) => Some t
  | Some (HashTarget _) => Some HEAD
  | None => None
  end.

Definition commit_at (objs : list Commit) (h : nat) : option Commit :=
  match h with
  | 0 => None
  | S n => objs !! n
  end.

Definition tree_at (objs : list Commit) (h : nat) : gmap string string :=
  match commit_at objs h with
  | Some c => c_tree c
  | None => ∅
  end.

(** [u] is [h] or one of its ancestors. *)
Fixpoint reaches (fuel : nat) (objs : list Commit) (h u : nat) : bool :=
  (h =? u) ||
  match fuel with
  | 0 => false
  | S fuel' =>
      match commit_at objs h with
      | Some c => existsb (λ p, reaches fuel' objs p u) (c_parents c)
      | None => false
      end
  end.

(** *** Status *)

Inductive StatusCode : Type :=
| Unmodified | Untracked | Modified | Added | Deleted.

Global Instance StatusCode_eq_dec : EqDecision StatusCode.
Proof. solve_decision. Defined.

Record FileStatus : Type := { Staging : StatusCode; Worktree : StatusCode }.

Inductive Action : Type := Insert | Delete | Modify.

Definition change (a b : option string) : option Action :=
  match a, b with
  | None, None => None
  | None, Some _ => Some Insert
  | Some _, None => Some Delete
  | Some x, Some y => if decide (x = y) then None else Some Modify
  end.

(** The status of one path, from its blob in the commit of [HEAD], in
    the index and in the working tree; [None] when nothing changed. *)
Definition file_status (h i f : option string) : option FileStatus :=
  let staged :=
    match change h i with
    | Some Delete => Some {| Staging := Deleted; Worktree := Unmodified |}
    | Some Insert => Some {| Staging := Added; Worktree := Unmodified |}
    | Some Modify => Some {| Staging := Modified; Worktree := Unmodified |}
    | None => None
    end in
  match change i f with
  | None => staged
  | Some a =>
      let fs := default {| Staging := Untracked; Worktree := Untracked |} staged in
      let stg := if decide (Staging fs = Untracked) then Unmodified
                 else Staging fs in
      Some match a with
           | Delete => {| Staging := stg; Worktree := Deleted |}
           | Insert => {| Staging := Untracked; Worktree := Untracked |}
           | Modify => {| Staging := stg; Worktree := Modified |}
           end
  end.

(** [gogit.Status]: the paths that changed, with their status. *)
Definition status_of (head idx fs : gmap string string)
  : gmap string FileStatus :=
  merge (λ hi f, file_status (hi ≫= fst) (hi ≫= snd) f)
    (merge (λ h i, match h, i with
                   | None, None => None
                   | _, _ => Some (h, i)
                   end) head idx)
    fs.

(** *** The collaborators: operating system and git library

    Each operation is a logged call ([lib]) around its work on the
    world. *)

Definition set_dirs (w : world) (d : gmap string Dir) : world :=
  {| dirs := d; objects := objects w; upstream := upstream w;
     faults := faults w; trace := trace w |}.

Definition set_objects (w : world) (o : list Commit) : world :=
  {| dirs := dirs w; objects := o; upstream := upstream w;
     faults := faults w; trace := trace w |}.

Definition set_upstream (w : world) (u : gmap string (gmap string nat)) : world :=
  {| dirs := dirs w; objects := objects w; upstream := u;
     faults := faults w; trace := trace w |}.

Definition the_dir (w : world) (dir : string) : Dir :=
  default emptyDir (dirs w !! dir).

Definition put_repo (dir : string) (r : Repository) (w : world) : world :=
  set_dirs w (<[dir := {| dotgit := Some r; files := files (the_dir w dir) |}]>
                (dirs w)).

Definition put_files (dir : string) (fs : gmap string string) (w : world)
  : world :=
  set_dirs w (<[dir := {| dotgit := dotgit (the_dir w dir); files := fs |}]>
                (dirs w)).

Definition with_refs (r : Repository) (l : list Reference) : Repository :=
  {| refs := l; index := index r; remotes := remotes r;
     branches := branches r |}.

Definition with_index (r : Repository) (i : gmap string string) : Repository :=
  {| refs := refs r; index := i; remotes := remotes r;
     branches := branches r |}.

(** Work on the repository of a directory. *)
Definition on_repo {A} (dir : string) (k : Repository → M world A)
  : M world A := λ w,
  match dotgit (the_dir w dir) with
  | Some r => k r w
  | None => (Fail ErrRepositoryNotExists, w)
  end.

Definition os_MkdirAll (path : string) : M world unit :=
  lib (EvMkdirAll path) (mret tt).

(** [os.Stat(dir + "/.git")]. *)
Definition os_Stat_dotgit (dir : string) : M world unit :=
  lib (EvStat (dir +:+ "/.git")) (on_repo dir (λ _, mret tt)).

Definition PlainOpen (dir : string) : M world string :=
  lib (EvPlainOpen dir) (on_repo dir (λ _, mret dir)).

(** [gogit.PlainInit(dir, false)]: an empty repository whose [HEAD]
    points to the default branch. *)
Definition PlainInit (dir : string) : M world string :=
  lib (EvPlainInit dir) (λ w,
    match dotgit (the_dir w dir) with
    | Some _ => (Fail ErrRepositoryAlreadyExists, w)
    | None =>
        (Ret dir,
         put_repo dir
           {| refs := [NewSymbolicReference HEAD "refs/heads/master"];
              index := ∅; remotes := []; branches := [] |} w)
    end).

Definition Storer_SetReference (dir : string) (ref : Reference) : M world unit :=
  lib (EvSetReference dir ref) (on_repo dir (λ r w,
    (Ret tt, put_repo dir (with_refs r (set_ref ref (refs r))) w))).

Definition Repository_Remote (dir name : string) : M world RemoteConfig :=
  lib (EvRemote dir name) (on_repo dir (λ r,
    match find (λ c, bool_decide (rc_Name c = name)) (remotes r) with
    | Some c => mret c
    | None => fail ErrRemoteNotFound
    end)).

Definition Repository_CreateRemote (dir : string) (c : RemoteConfig)
  : M world RemoteConfig :=
  lib (EvCreateRemote dir c) (on_repo dir (λ r w,
    if existsb (λ x, bool_decide (rc_Name x = rc_Name c)) (remotes r)
    then (Fail ErrRemoteExists, w)
    else (Ret c,
          put_repo dir {| refs := refs r; index := index r;
                          remotes := remotes r ++ [c];
                          branches := branches r |} w))).

Definition Repository_Branch (dir name : string) : M world BranchConfig :=
  lib (EvBranch dir name) (on_repo dir (λ r,
    match find (λ c, bool_decide (bc_Name c = name)) (branches r) with
    | Some c => mret c
    | None => fail ErrBranchNotFound
    end)).

Definition Repository_CreateBranch (dir : string) (c : BranchConfig)
  : M world unit :=
  lib (EvCreateBranch dir c) (on_repo dir (λ r w,
    if existsb (λ x, bool_decide (bc_Name x = bc_Name c)) (branches r)
    then (Fail ErrBranchExists, w)
    else (Ret tt,
          put_repo dir {| refs := refs r; index := index r;
                          remotes := remotes r;
                          branches := branches r ++ [c] |} w))).

(** [remote.FetchContext] with one refspec: the tip of the source
    reference on the forge is stored under the destination reference. *)
Definition Remote_FetchContext (dir : string) (remote : RemoteConfig)
    (remoteName : string) (refSpecs : list RefSpec) (auth : BasicAuth)
  : M world unit :=
  lib (EvFetch dir remoteName refSpecs auth) (on_repo dir (λ r w,
    match rc_URLs remote, refSpecs with
    | url :: _, rs :: _ =>
        let up := default ∅ (upstream w !! url) in
        if decide (up = ∅) then (Fail ErrEmptyRemoteRepository, w)
        else
          match up !! rs_src rs with
          | None => (Fail (NoMatchingRefSpecError (RefSpec_String rs)), w)
          | Some tip =>
              if decide (lookup_ref (rs_dst rs) (refs r) = Some (HashTarget tip))
              then (Fail NoErrAlreadyUpToDate, w)
              else (Ret tt,
                    put_repo dir
                      (with_refs r
                         (set_ref (NewHashReference (rs_dst rs) tip) (refs r)))
                      w)
          end
    | _, _ => (Fail (other "malformed fetch"), w)
    end)).

Definition Storer_IterReferences (dir : string) : M world (list Reference) :=
  lib (EvIterReferences dir) (on_repo dir (λ r, mret (refs r))).

(** [refIter.Next()]. *)
Definition ReferenceIter_Next (dir : string) (it : list Reference)
  : M world Reference :=
  lib (EvNext dir)
    match it with
    | x :: _ => mret x
    | [] => fail EOF
    end.

Definition Repository_Worktree (dir : string) : M world string :=
  lib (EvWorktree dir) (on_repo dir (λ _, mret dir)).

(** [work.Reset] in hard mode: the branch of [HEAD], the index and the
    tracked files become those of the commit; untracked files stay. *)
Definition Worktree_Reset_Hard (dir : string) (commit : nat) : M world unit :=
  lib (EvReset dir commit) (on_repo dir (λ r w,
    match commit_at (objects w) commit, head_target (refs r) with
    | Some c, Some t =>
        (Ret tt,
         put_files dir
           (c_tree c ∪ filter (λ kv, index r !! kv.1 = None)
                         (files (the_dir w dir)))
           (put_repo dir
              {| refs := set_ref (NewHashReference t commit) (refs r);
                 index := c_tree c; remotes := remotes r;
                 branches := branches r |} w))
    | _, _ => (Fail (other "object not found"), w)
    end)).

(** [os.OpenFile(fname, O_WRONLY|O_CREATE|O_TRUNC, 0644)] for the file
    [name] of [dir]. *)
Definition os_OpenFile (dir name : string) : M world unit :=
  lib (EvOpenFile (filepath_Join [dir; name])) (λ w,
    (Ret tt, put_files dir (<[name := EmptyString]> (files (the_dir w dir))) w)).

(** [io.Copy(f, r)]. *)
Definition io_Copy (dir name data : string) : M world unit :=
  lib (EvCopy (filepath_Join [dir; name]) data) (λ w,
    (Ret tt, put_files dir (<[name := data]> (files (the_dir w dir))) w)).

Definition File_Close (dir name : string) : M world unit :=
  lib (EvClose (filepath_Join [dir; name])) (mret tt).

Definition os_Open (dir name : string) : M world string :=
  lib (EvOpen (filepath_Join [dir; name])) (λ w,
    match files (the_dir w dir) !! name with
    | Some c => (Ret c, w)
    | None => (Fail (other "no such file or directory"), w)
    end).

Definition Worktree_Add (dir name : string) : M world unit :=
  lib (EvAdd dir name) (on_repo dir (λ r w,
    match files (the_dir w dir) !! name with
    | Some c => (Ret tt, put_repo dir (with_index r (<[name := c]> (index r))) w)
    | None => (Fail (other "entry not found"), w)
    end)).

Definition Worktree_Status (dir : string) : M world (gmap string FileStatus) :=
  lib (EvStatus dir) (on_repo dir (λ r w,
    (Ret (status_of (tree_at (objects w) (resolve_head (refs r)))
            (index r) (files (the_dir w dir))), w))).

(** [work.Commit]: a new commit of the index on top of the commit of
    [HEAD]; the branch of [HEAD] moves to it. *)
Definition Worktree_Commit (dir message : string) (opt : CommitOptions)
  : M world nat :=
  lib (EvCommit dir message opt) (on_repo dir (λ r w,
    match head_target (refs r) with
    | None => (Fail (other "reference not found"), w)
    | Some t =>
        let parent := resolve_head (refs r) in
        let c := {| c_tree := index r;
                    c_parents := if IsZero parent then [] else [parent];
                    c_message := message; c_author := Author opt |} in
        let h := S (length (objects w)) in
        (Ret h,
         put_repo dir (with_refs r (set_ref (NewHashReference t h) (refs r)))
           (set_objects w (objects w ++ [c])))
    end)).

(** The local branches a push sends: those whose tip differs from the
    forge's. *)
Definition to_push (up : gmap string nat) (l : list Reference)
  : list Reference :=
  filter (λ x, String.prefix "refs/heads/" (ref_name x) = true
               ∧ up !! ref_name x ≠ Some (Reference_Hash x)) l.

Definition fast_forward (objs : list Commit) (up : gmap string nat)
    (x : Reference) : bool :=
  match up !! ref_name x with
  | None => true
  | Some u => reaches (length objs) objs (Reference_Hash x) u
  end.

(** The remote-tracking reference a pushed branch is recorded under. *)
Definition track (remote : RemoteConfig) (x : Reference) (l : list Reference)
  : list Reference :=
  match find (λ rs, bool_decide (rs_src rs = ref_name x)) (rc_Fetch remote) with
  | Some rs => set_ref (NewHashReference (rs_dst rs) (Reference_Hash x)) l
  | None => l
  end.

(** [repository.PushContext] with the default refspec: every local
    branch is sent; the forge takes fast-forwards only. *)
Definition Repository_PushContext (dir remoteName : string) (auth : BasicAuth)
  : M world unit :=
  lib (EvPush dir remoteName auth) (on_repo dir (λ r w,
    match find (λ c, bool_decide (rc_Name c = remoteName)) (remotes r) with
    | None => (Fail ErrRemoteNotFound, w)
    | Some remote =>
        match rc_URLs remote with
        | [] => (Fail (other "malformed remote"), w)
        | url :: _ =>
            let up := default ∅ (upstream w !! url) in
            let news := to_push up (refs r) in
            match news with
            | [] => (Fail NoErrAlreadyUpToDate, w)
            | _ =>
                if forallb (fast_forward (objects w) up) news then
                  (Ret tt,
                   put_repo dir
                     (with_refs r (foldr (track remote) (refs r) news))
                     (set_upstream w
                        (<[url := foldr (λ x m, <[ref_name x := Reference_Hash x]> m)
                                    up news]> (upstream w))))
                else (Fail (other "non-fast-forward update"), w)
            end
        end
    end)).

(** *** The driver *)

(** The configuration of [PutInGH] the git driver reads. *)
Record PutInGH : Type := {
  tmpDir : string;
  host : string;
  token : string;
  gitCommitMessage : string → string → string → string → string → string;
  gitCommitOption : string → string → string → string → string → CommitOptions;
}.

Section Driver.
Variable s : PutInGH.

(** [func (s *PutInGH) gitRemoteName(branch string) string]. *)
Definition gitRemoteName (branch : string) : string := "origin-" +:+ branch.

(** [func (s *PutInGH) gitBasicAuth(owner string)]. *)
Definition gitBasicAuth (owner : string) : BasicAuth :=
  {| Username := owner; Password := token s |}.

(** [func (s *PutInGH) gitURL(owner, repo string) string]. *)
Definition gitURL (owner repo : string) : string :=
  strings_Join [host s; owner; repo] "/".

(** [fmt.Sprintf("+refs/heads/%s:refs/remotes/%s/%[1]s", branch, remoteName)]. *)
Definition fetchRefSpec (branch remoteName : string) : RefSpec :=
  {| rs_force := true;
     rs_src := "refs/heads/" +:+ branch;
     rs_dst := "refs/remotes/" +:+ remoteName +:+ "/" +:+ branch |}.

(** The fetch errors that let the operation go on. *)
Definition fetch_tolerated (err : error) : bool :=
  negb (negb (errors_Is err NoErrAlreadyUpToDate)
        && negb (errors_Is err ErrEmptyRemoteRepository))
  || errors_As_NoMatchingRefSpecError err.

(** [func (s *PutInGH) fetchGit(ctx, owner, repo, branch)], in the
    steps of its body: open or initialise the mirror ([fetchGit_open]),
    bind [HEAD], remote and branch ([fetchGit_configure]), fetch
    ([fetchGit_fetch]), look at the first reference and reset
    ([fetchGit_sync]). *)
Definition mirrorDir (owner repo branch : string) : string :=
  filepath_Join [tmpDir s; "git"; owner; repo; branch].

(** Open the mirror when its [.git] is there, initialise it otherwise. *)
Definition fetchGit_open (dir : string) : M world string :=
  st ← try (os_Stat_dotgit dir);
  opened ← try (match st with
                | inr _ => PlainOpen dir
                | inl _ => PlainInit dir
                end);
  match opened with
  | inl err => fail (wrapDir err dir)
  | inr repository => mret repository
  end.

(** Point [HEAD] at the branch; find or create the remote and the
    branch of the configuration. *)
Definition fetchGit_configure (owner repo branch repository : string)
  : M world RemoteConfig :=
  let giturl := gitURL owner repo in
  let remoteName := gitRemoteName branch in
  let refName := NewBranchReferenceName branch in
  let fetch := [fetchRefSpec branch remoteName] in
  _ ← Storer_SetReference repository (NewSymbolicReference HEAD refName);
  found ← try (Repository_Remote repository remoteName);
  remote ←
    match found with
    | inr remote => mret remote
    | inl err =>
        if negb (errors_Is err ErrRemoteNotFound) then fail err
        else Repository_CreateRemote repository
               {| rc_Name := remoteName; rc_URLs := [giturl];
                  rc_Fetch := fetch |}
    end;
  b ← try (Repository_Branch repository branch);
  _ ← match b with
      | inr _ => mret tt
      | inl err =>
          if negb (errors_Is err ErrBranchNotFound) then fail err
          else
            _ ← Repository_CreateBranch repository
                  {| bc_Name := branch; bc_Merge := refName;
                     bc_Remote := remoteName |};
            _ ← Repository_Branch repository branch;
            mret tt
      end;
  mret remote.

Definition fetchGit_bind (owner repo branch : string) : M world RemoteConfig :=
  let dir := mirrorDir owner repo branch in
  _ ← try (os_MkdirAll (filepath_Dir dir));
  repository ← fetchGit_open dir;
  fetchGit_configure owner repo branch repository.

Definition fetchGit_fetch (owner repo branch : string) (remote : RemoteConfig)
  : M world (error + unit) :=
  let dir := mirrorDir owner repo branch in
  let remoteName := gitRemoteName branch in
  try (Remote_FetchContext dir remote remoteName
         [fetchRefSpec branch remoteName] (gitBasicAuth owner)).

Definition fetchGit_sync (owner repo branch : string) : M world (string * string) :=
  let dir := mirrorDir owner repo branch in
  let refName := NewBranchReferenceName branch in
  refIter ← wrapping "iterReferences" (Storer_IterReferences dir);
  ref ← wrapping "next" (ReferenceIter_Next dir refIter);
  _ ← (if negb (IsZero (Reference_Hash ref)) then
         _ ← wrapping "setReference"
               (Storer_SetReference dir
                  (NewHashReference refName (Reference_Hash ref)));
         work ← Repository_Worktree dir;
         wrapping "git reset" (Worktree_Reset_Hard work (Reference_Hash ref))
       else mret tt);
  mret (dir, dir).

Definition fetchGit (owner repo branch : string) : M world (string * string) :=
  remote ← fetchGit_bind owner repo branch;
  fetched ← fetchGit_fetch owner repo branch remote;
  match fetched with
  | inl err =>
      if negb (errors_Is err NoErrAlreadyUpToDate)
         && negb (errors_Is err ErrEmptyRemoteRepository)
      then
        if negb (errors_As_NoMatchingRefSpecError err)
        then fail (wrap "git fetch" err)
        else fetchGit_sync owner repo branch
      else fetchGit_sync owner repo branch
  | inr _ => fetchGit_sync owner repo branch
  end.

(** [func (s *PutInGH) GetFromGit(ctx, owner, repo, branch, name)]. *)
Definition GetFromGit (owner repo branch name : string) : M world reader :=
  '(dir, _) ← fetchGit owner repo branch;
  f ← os_Open dir name;
  mret (ReaderWithAutoCloser f).

(** The test of [putInGit] on the status of the path. *)
Definition changed (status : gmap string FileStatus) (name : string) : bool :=
  negb (size status =? 0)
  && match status !! name with
     | None => false
     | Some fs =>
         negb (bool_decide (Staging fs = Unmodified))
         || negb (bool_decide (Worktree fs = Unmodified))
     end.

(** [putInGit] between the sync and the inspection of the status:
    write the file, add it, ask for the status. *)
Definition putInGit_write (dir repository name r : string)
  : M world (string * gmap string FileStatus) :=
  _ ← os_MkdirAll (filepath_Dir (filepath_Join [dir; name]));
  _ ← os_OpenFile dir name;
  copied ← try (io_Copy dir name r);
  match copied with
  | inl err => _ ← try (File_Close dir name); fail err
  | inr _ =>
      _ ← try (File_Close dir name);
      work ← Repository_Worktree repository;
      _ ← wrapping "git add" (Worktree_Add work name);
      status ← Worktree_Status work;
      mret (dir, status)
  end.

(** [putInGit] up to the inspection of the status. *)
Definition putInGit_stage (owner repo branch name r : string)
  : M world (string * gmap string FileStatus) :=
  '(dir, repository) ← fetchGit owner repo branch;
  putInGit_write dir repository name r.

(** [func (s *PutInGH) putInGit(ctx, owner, repo, branch, name, r)]. *)
Definition putInGit (owner repo branch name r : string) : M world string :=
  '(dir, status) ← putInGit_stage owner repo branch name r;
  _ ← (if changed status name then
         let fname := filepath_Join [dir; name] in
         let opt := gitCommitOption s owner repo branch name fname in
         let message := gitCommitMessage s owner repo branch name fname in
         _ ← wrapping "git commit" (Worktree_Commit dir message opt);
         wrapping "git push"
           (Repository_PushContext dir (gitRemoteName branch)
              (gitBasicAuth owner))
       else mret tt);
  mret (gitURL owner repo +:+ "/raw/" +:+ branch +:+ "/" +:+ name).

End Driver.

End Git.

(** ** A sample forge and configuration for the git driver *)

Module GitSample.
Import Git.

(** The default configuration of the package. *)
Definition cfg : PutInGH :=
  {| tmpDir := "./tmp/"; host := "https://github.com"; token := "secret";
     gitCommitMessage := λ _ _ _ name _, "Automatic update " +:+ name;
     gitCommitOption := λ _ _ _ _ _,
       {| Author := Some {| sig_Name := "bot"; sig_Email := "" |} |} |}.

Definition commit1 : Commit :=
  {| c_tree := {[ "f" := "v0" ]}; c_parents := []; c_message := "first";
     c_author := None |}.

Definition commit2 : Commit :=
  {| c_tree := {[ "f" := "theirs" ]}; c_parents := [1]; c_message := "second";
     c_author := None |}.

(** No mirror yet; the forge holds the branch [main] of [o/r] at the
    first commit. *)
Definition fresh : world :=
  {| dirs := ∅; objects := [commit1];
     upstream := {[ "https://github.com/o/r" := {[ "refs/heads/main" := 1 ]} ]};
     faults := λ _, None; trace := [] |}.

(** The same with a transport failure at the tenth call, the fetch. *)
Definition fresh_unreachable : world :=
  {| dirs := ∅; objects := [commit1];
     upstream := {[ "https://github.com/o/r" := {[ "refs/heads/main" := 1 ]} ]};
     faults := λ n, if n =? 9 then Some (other "connection reset") else None;
     trace := [] |}.

(** The world a first get leaves, after another writer has pushed the
    second commit to the branch. *)
Definition advanced : world :=
  let w := (GetFromGit cfg "o" "r" "main" "f" fresh).2 in
  {| dirs := dirs w; objects := objects w ++ [commit2];
     upstream := {[ "https://github.com/o/r" := {[ "refs/heads/main" := 2 ]} ]};
     faults := faults w; trace := [] |}.

(** The world a first get leaves, after the branch has been deleted on
    the forge (another branch remains). *)
Definition deleted : world :=
  let w := (GetFromGit cfg "o" "r" "main" "f" fresh).2 in
  {| dirs := dirs w; objects := objects w;
     upstream := {[ "https://github.com/o/r" := {[ "refs/heads/other" := 1 ]} ]};
     faults := faults w; trace := [] |}.

Definition mirror (w : world) : Dir := the_dir w (mirrorDir cfg "o" "r" "main").

End GitSample.

(** * The vocabulary of the properties *)

(** ** Paths and their segments *)

Module RouterSpec.
Import Router.

(** The cut at a one-byte separator, by recursion on the string. *)
Fixpoint cut (sep : ascii) (s : string) : option (string * string) :=
  match s with
  | EmptyString => None
  | String c s' =>
      if decide (c = sep) then Some (EmptyString, s')
      else match cut sep s' with
           | Some (a, b) => Some (String c a, b)
           | None => None
           end
  end.

(** A path split in four: three separator-free pieces and a remainder. *)
Definition segments4 (path x a b c : string) : Prop :=
  path = x +:+ "/" +:+ a +:+ "/" +:+ b +:+ "/" +:+ c
  ∧ count_byte "/"%char x = 0 ∧ count_byte "/"%char a = 0 ∧ count_byte "/"%char b = 0.

Definition segments3 (path x a b : string) : Prop :=
  path = x +:+ "/" +:+ a +:+ "/" +:+ b
  ∧ count_byte "/"%char x = 0 ∧ count_byte "/"%char a = 0.

End RouterSpec.

(** ** The turns of a scan *)

Module ScannerSpec.
Import Forge.

(** One turn of a scanner's loop, with the monad unfolded: the page is
    requested, then the scan ends or goes on with the page the response
    names. *)
Definition scan_turn {St T A}
    (list_page : Z → St → reply (list T) * St) (ev : Z → Event)
    (next : option (list T → A → outcome (bool * A)))
    (rest : Z → A → M (world (St:=St)) A)
    (page : Z) (acc : A) : M (world (St:=St)) A := λ w,
  let '(r, s') := list_page page (forge w) in
  let w' := {| forge := s'; trace := trace w ++ [ev page] |} in
  match err r with
  | Some e =>
      match resp r with
      | Some rs =>
          if (StatusCode rs =? StatusNotFound)%Z then (Ret acc, w')
          else (Fail e, w')
      | None => (Fail e, w')
      end
  | None =>
      match (match next with
             | Some nx => nx (val r) acc
             | None => Ret (true, acc)
             end) with
      | Ret (continue, acc') =>
          if negb continue then (Ret acc', w')
          else
            match resp r with
            | None => (Panic, w')
            | Some rs =>
                if (NextPage rs =? 0)%Z then (Ret acc', w')
                else rest (NextPage rs) acc' w'
            end
      | Fail e => (Fail e, w')
      | Panic => (Panic, w')
      | Diverge => (Diverge, w')
      end
  end.

Section Law.
Context {St T A : Type}.
Variable list_page : Z → St → reply (list T) * St.
Variable ev : Z → Event.
Variable next : option (list T → A → outcome (bool * A)).

(** What the predicate answers on a page; without a predicate the scan
    goes on. *)
Definition verdict (l : list T) (acc : A) : outcome (bool * A) :=
  match next with
  | Some nx => nx l acc
  | None => Ret (true, acc)
  end.

(** The scan goes from one request to the next: the page came without
    error, the predicate asked for more, and the response names a
    further page. *)
Inductive goes_on : Z * A * world (St:=St) → Z * A * world (St:=St) → Prop :=
| goes_on_intro page acc w r s' acc' rs :
    list_page page (forge w) = (r, s') →
    err r = None →
    verdict (val r) acc = Ret (true, acc') →
    resp r = Some rs →
    NextPage rs ≠ 0%Z →
    goes_on (page, acc, w)
      (NextPage rs, acc',
       {| forge := s'; trace := trace w ++ [ev page] |}).

Variable scan : nat → Z → A → M (world (St:=St)) A.

(** The law of a scanner.  After [k] turns that went on, the scan
    stands at [page]; the request for it is answered by [r] without
    error.  Then, with fuel for [k + 1] requests:
    - if the predicate returns false, the scan returns at once, the
      request for [page] being the last one, whatever further page the
      response names (and even without a response);
    - if the predicate asks for more and the response names no further
      page, the scan returns as well;
    - if the predicate asks for more and the response names a further
      page, the scan goes on with a request for that page. *)
Definition scanner_law : Prop :=
  ∀ k page0 acc0 w0 page acc w r s',
    nsteps goes_on k (page0, acc0, w0) (page, acc, w) →
    list_page page (forge w) = (r, s') →
    err r = None →
    ∀ fuel, k < fuel →
    let w' := {| forge := s'; trace := trace w ++ [ev page] |} in
    (∃ pages, length pages = k
              ∧ trace w' = trace w0 ++ map ev pages ++ [ev page])
    ∧ (∀ acc', verdict (val r) acc = Ret (false, acc') →
         scan fuel page0 acc0 w0 = (Ret acc', w'))
    ∧ (∀ acc' rs, verdict (val r) acc = Ret (true, acc') →
         resp r = Some rs → NextPage rs = 0%Z →
         scan fuel page0 acc0 w0 = (Ret acc', w'))
    ∧ (∀ acc' rs, verdict (val r) acc = Ret (true, acc') →
         resp r = Some rs → NextPage rs ≠ 0%Z →
         scan fuel page0 acc0 w0
         = scan (fuel - S k) (NextPage rs) acc' w').

End Law.
End ScannerSpec.

(** ** Gists as served and as submitted *)

Module GistSpec.
Import Forge.

(** The match rule of the spec: the wildcard selects a gist holding a
    file of the given name, a concrete selector the gist of that
    identifier. *)
Definition gist_matches (gistId name : string) (g : Gist) : bool :=
  if decide (gistId = anyFile) then bool_decide (is_Some (g_Files g !! name))
  else bool_decide (g_ID g = Some gistId).

(** The gists scanned carry an identifier, which the concrete selector
    reads of each of them. *)
Definition ids_ok (gistId : string) (gs : list Gist) : Prop :=
  gistId = anyFile ∨ Forall (λ g, is_Some (g_ID g)) gs.


Section Served.
Context {St : Type} (env : Env St) (perPage : Z) (owner : string).

(** The forge serves the owner's gists as the given pages, each
    response but the last naming the next page. *)
Inductive serves : Z → St → list (list Gist) → Prop :=
| serves_last page s r s' rs :
    Gists_List env owner page perPage s = (r, s') →
    err r = None → resp r = Some rs → NextPage rs = 0%Z →
    serves page s [val r]
| serves_more page s r s' rs rest :
    Gists_List env owner page perPage s = (r, s') →
    err r = None → resp r = Some rs → NextPage rs ≠ 0%Z →
    serves (NextPage rs) s' rest →
    serves page s (val r :: rest).

(** What fetching a raw-content URL yields from a given world on. *)
Definition fetched (u : string) (w1 : world (St:=St)) : outcome reader * world :=
  let r := httpCli_Do env u (forge w1) in
  let w2 := {| forge := r.2; trace := trace w1 ++ [EvHttpGet u] |} in
  match r.1.2 with
  | Some e => (Fail e, w2)
  | None =>
      match r.1.1 with
      | Some body => (Ret (ReaderWithAutoCloser body), w2)
      | None => (Panic, w2)
      end
  end.

End Served.
End GistSpec.

(** ** The state of a git mirror *)

Module GitSpec.
Import Git.

(** Nothing but the trace differs. *)
Definition unchanged (w w' : world) : Prop :=
  dirs w' = dirs w ∧ objects w' = objects w ∧ upstream w' = upstream w
  ∧ faults w' = faults w.

(** A call that failed has changed nothing but the trace, whatever the
    call. *)
Definition fails_clean {A} (m : M world A) : Prop :=
  ∀ w e w', m w = (Fail e, w') → unchanged w w'.

(** Calls that only look. *)
Definition observes {A} (m : M world A) : Prop := ∀ w, unchanged w (m w).2.

Definition store_same (w w' : world) : Prop :=
  objects w' = objects w ∧ upstream w' = upstream w.

Definition heads (b : string) : string := NewBranchReferenceName b.

Definition tracking (b : string) : string :=
  rs_dst (fetchRefSpec b (gitRemoteName b)).

Definition opt_ref (n : string) (o : option nat) : list Reference :=
  match o with
  | Some h => [NewHashReference n h]
  | None => []
  end.

(** The store of a mirror for branch [b]: the local branch, the
    remote-tracking reference and [HEAD], each of the first two present
    or not. *)
Definition shape (b : string) (lb rt : option nat) (ht : Target)
  : list Reference :=
  opt_ref (heads b) lb ++ opt_ref (tracking b) rt
  ++ [{| ref_name := HEAD; ref_target := ht |}].

(** The first reference the iterator yields. *)
Definition first_hash (lb rt : option nat) : nat :=
  match lb, rt with
  | Some h, _ => h
  | None, Some h => h
  | None, None => ZeroHash
  end.

(** Every remote of the name this driver uses has the fetch refspec
    this driver gives it. *)
Definition remotes_ok (b : string) (rems : list RemoteConfig) : Prop :=
  ∀ c, find (λ c, bool_decide (rc_Name c = gitRemoteName b)) rems = Some c →
       rc_Fetch c = [fetchRefSpec b (gitRemoteName b)].

(** The directory holds a repository with the given references and
    index, beside the given files. *)
Definition mirror_at (dir b : string) (w : world) (l : list Reference)
    (idx fs : gmap string string) : Prop :=
  ∃ r, the_dir w dir = {| dotgit := Some r; files := fs |}
       ∧ refs r = l ∧ index r = idx ∧ remotes_ok b (remotes r).

Definition quiet {A} (m : M world A) : Prop :=
  ∀ w, commits (m w).2 = commits w ∧ pushes (m w).2 = pushes w.

(** The work of a call leaves the trace alone. *)
Definition silent {A} (work : M world A) : Prop :=
  ∀ w, trace (work w).2 = trace w.

(** The content of a path in the commit [HEAD] stands for: what is
    committed at that path in the mirror. *)
Definition committed (w : world) (dir name : string) : option string :=
  match dotgit (the_dir w dir) with
  | Some r => tree_at (objects w) (resolve_head (refs r)) !! name
  | None => None
  end.

Section Owned.
Variable s : PutInGH.
Variables owner repo b : string.

(** A mirror this driver owns, or none yet. *)
Definition owned_mirror (w : world) (lb rt : option nat)
    (idx fs : gmap string string) : Prop :=
  (∃ ht, mirror_at (mirrorDir s owner repo b) b w (shape b lb rt ht) idx fs)
  ∨ (dotgit (the_dir w (mirrorDir s owner repo b)) = None
     ∧ lb = None ∧ rt = None ∧ idx = ∅
     ∧ fs = files (the_dir w (mirrorDir s owner repo b))).

(** What the sync leaves, by the first reference [F] the iterator
    yields after the fetch. *)
Definition synced (w0 w' : world) (lb rt : option nat)
    (idx fs : gmap string string) : Prop :=
  if IsZero (first_hash lb rt)
  then mirror_at (mirrorDir s owner repo b) b w'
         (shape b lb rt (SymbolicTarget (heads b))) idx fs
  else ∃ c, commit_at (objects w0) (first_hash lb rt) = Some c
            ∧ mirror_at (mirrorDir s owner repo b) b w'
                (shape b (Some (first_hash lb rt)) rt
                   (SymbolicTarget (heads b)))
                (c_tree c)
                (c_tree c ∪ filter (λ kv, idx !! kv.1 = None) fs).

(** The mirror directory is used by this driver only: it holds no
    repository yet, or one whose references are those the driver
    creates and whose remote of the driver's name has the driver's
    refspec. *)
Definition mirror_owned (w : world) : Prop :=
  ∃ lb rt idx fs, owned_mirror w lb rt idx fs.

End Owned.
End GitSpec.

(** ** The end of a scan on a failed request *)

Module ScannerEnds.
Import Forge ScannerSpec.

Section Law.
Context {St T A : Type}.
Variable list_page : Z → St → reply (list T) * St.
Variable ev : Z → Event.
Variable next : option (list T → A → outcome (bool * A)).
Variable scan : nat → Z → A → M (world (St:=St)) A.

(** How a scanner ends when a request does not go well.  After [k]
    turns that went on the scan stands at [page] and requests it.
    - If the request returns an error, the predicate is not asked: with
      a response of status 404 the scan returns, without error, what
      the predicate has collected so far; with any other response, or
      with none, it returns the error.
    - If the request returns no error and no response, and the
      predicate asks for more, the scan dereferences the nil response.
    - If the predicate itself panics, so does the scan.
    In each case the request for [page] is the last one. *)
Definition scanner_ends : Prop :=
  ∀ k page0 acc0 w0 page acc w r s',
    nsteps (goes_on list_page ev next) k (page0, acc0, w0) (page, acc, w) →
    list_page page (forge w) = (r, s') →
    ∀ fuel, k < fuel →
    let w' := {| forge := s'; trace := trace w ++ [ev page] |} in
    (∀ e, err r = Some e →
       scan fuel page0 acc0 w0
       = match resp r with
         | Some rs =>
             if (StatusCode rs =? StatusNotFound)%Z then (Ret acc, w')
             else (Fail e, w')
         | None => (Fail e, w')
         end)
    ∧ (err r = None → resp r = None →
       ∀ acc', verdict next (val r) acc = Ret (true, acc') →
       scan fuel page0 acc0 w0 = (Panic, w'))
    ∧ (err r = None → verdict next (val r) acc = Panic →
       scan fuel page0 acc0 w0 = (Panic, w')).

End Law.
End ScannerEnds.

(** ** Further samples for the forge in memory *)

Module MemSamples.
Import Forge MemForge.

Definition assetNew : ReleaseAsset :=
  {| a_ID := Some 8%Z; a_Name := Some "tool.tgz";
     a_BrowserDownloadURL := Some "https://forge.example/o/r/releases/download/5/tool-2.tgz" |}.

(** A release that carries two assets of the same name. *)
Definition releaseTwice : RepositoryRelease :=
  {| r_ID := Some 5%Z; r_Name := Some "v1"; r_TagName := Some "v1";
     r_Draft := Some false; r_Assets := [assetOld; assetNew] |}.

Definition twice : mem :=
  {| m_gists := [];
     m_releases := [releaseTwice];
     m_web := {[ "https://forge.example/o/r/releases/download/5/tool.tgz" := "first bytes";
                 "https://forge.example/o/r/releases/download/5/tool-2.tgz" := "second bytes" ]};
     m_files := ∅;
     m_next := 10;
     m_offline := false;
     m_uploadError := None |}.

End MemSamples.

(** ** What the git driver leaves behind *)

Module GitSpecMore.
Import Git GitSpec.

(** A computation that leaves the object store, the branches of the
    forge and the failures to come as they are, however it ends. *)
Definition keeps {A} (m : M world A) : Prop :=
  ∀ w, store_same w (m w).2 ∧ faults (m w).2 = faults w.

(** The mirror of the address has its branch at a commit that holds
    the given content under the given name. *)
Definition holds_at (s : PutInGH) (owner repo b name data : string)
    (w : world) : Prop :=
  ∃ h rt idx fs,
    mirror_at (mirrorDir s owner repo b) b w
      (shape b (Some h) rt (SymbolicTarget (heads b))) idx fs
    ∧ IsZero h = false
    ∧ tree_at (objects w) h !! name = Some data.

(** The remote that the mirror of the address has under the driver's
    name for it, if any, points at the repository of the address. *)
Definition home (s : PutInGH) (owner repo b : string) (w : world) : Prop :=
  ∀ r c,
    dotgit (the_dir w (mirrorDir s owner repo b)) = Some r →
    find (λ c, bool_decide (rc_Name c = gitRemoteName b)) (remotes r) = Some c →
    rc_URLs c = [gitURL s owner repo].

(** A computation after which the remote still points there. *)
Definition homes (s : PutInGH) (owner repo b : string) {A} (m : M world A)
  : Prop :=
  ∀ w, home s owner repo b w → home s owner repo b (m w).2.

(** The tip of the branch on the forge. *)
Definition forge_tip (s : PutInGH) (owner repo b : string) (w : world)
  : option nat :=
  default ∅ (upstream w !! gitURL s owner repo) !! ("refs/heads/" +:+ b).

End GitSpecMore.

(** ** The constructor and its options *)

Module Options.

(** What the constructor takes from its libraries: contexts, writers,
    HTTP clients and the client of the API. *)
Record Libraries : Type := {
  Ctx : Type;
  Writer : Type;
  Client : Type;
  Api : Type;
  context_Background : Ctx;
  io_Discard : Writer;
  (** [oauth2.NewClient(ctx, oauth2.StaticTokenSource(&oauth2.Token{AccessToken: token}))] *)
  oauth2_NewClient : option Ctx → string → Client;
  (** [ghv3.NewClient(httpClient)] *)
  ghv3_NewClient : Client → Api;
}.

Section Construction.
Variable L : Libraries.

(** [type PutInGH struct]; a field that holds a function, an interface
    or a pointer is [None] when it is nil. *)
Record PutInGH : Type := {
  tmpDir : string;
  gitCommitMessage :
    option (string → string → string → string → string → string);
  gitCommitOption :
    option (string → string → string → string → string → Git.CommitOptions);
  ctx : option (Ctx L);
  out : option (Writer L);
  host : string;
  perPage : Z;
  token : string;
  httpCli : option (Client L);
  cliv3 : option (Api L);
}.

(** [type Option func(p *PutInGH)]: what the call leaves in [*p]. *)
Definition Option : Type := PutInGH → PutInGH.

(** [func WithTmpDir(dir string) Option]. *)
Definition WithTmpDir (dir : string) : Option := λ p,
  {| tmpDir := dir; gitCommitMessage := gitCommitMessage p;
     gitCommitOption := gitCommitOption p; ctx := ctx p; out := out p;
     host := host p; perPage := perPage p; token := token p;
     httpCli := httpCli p; cliv3 := cliv3 p |}.

(** [func WithGitCommitMessage(fn) Option]. *)
Definition WithGitCommitMessage
    (fn : option (string → string → string → string → string → string))
  : Option := λ p,
  {| tmpDir := tmpDir p; gitCommitMessage := fn;
     gitCommitOption := gitCommitOption p; ctx := ctx p; out := out p;
     host := host p; perPage := perPage p; token := token p;
     httpCli := httpCli p; cliv3 := cliv3 p |}.

(** [func WithGitCommitOptions(fn) Option]. *)
Definition WithGitCommitOptions
    (fn : option (string → string → string → string → string
                  → Git.CommitOptions))
  : Option := λ p,
  {| tmpDir := tmpDir p; gitCommitMessage := gitCommitMessage p;
     gitCommitOption := fn; ctx := ctx p; out := out p;
     host := host p; perPage := perPage p; token := token p;
     httpCli := httpCli p; cliv3 := cliv3 p |}.

(** [func WithGitAuthorSignature(username, email string) Option]. *)
Definition WithGitAuthorSignature (username email : string) : Option :=
  WithGitCommitOptions (Some (λ _ _ _ _ _,
    {| Git.Author := Some {| Git.sig_Name := username;
                             Git.sig_Email := email |} |})).

(** [func WithContext(ctx context.Context) Option]. *)
Definition WithContext (c : option (Ctx L)) : Option := λ p,
  {| tmpDir := tmpDir p; gitCommitMessage := gitCommitMessage p;
     gitCommitOption := gitCommitOption p; ctx := c; out := out p;
     host := host p; perPage := perPage p; token := token p;
     httpCli := httpCli p; cliv3 := cliv3 p |}.

(** [func WithOutput(out io.Writer) Option]. *)
Definition WithOutput (o : option (Writer L)) : Option := λ p,
  {| tmpDir := tmpDir p; gitCommitMessage := gitCommitMessage p;
     gitCommitOption := gitCommitOption p; ctx := ctx p; out := o;
     host := host p; perPage := perPage p; token := token p;
     httpCli := httpCli p; cliv3 := cliv3 p |}.

(** [func WithHost(host string) Option]. *)
Definition WithHost (h : string) : Option := λ p,
  {| tmpDir := tmpDir p; gitCommitMessage := gitCommitMessage p;
     gitCommitOption := gitCommitOption p; ctx := ctx p; out := out p;
     host := h; perPage := perPage p; token := token p;
     httpCli := httpCli p; cliv3 := cliv3 p |}.

(** [func WithPerPage(perPage int) Option]. *)
Definition WithPerPage (n : Z) : Option := λ p,
  {| tmpDir := tmpDir p; gitCommitMessage := gitCommitMessage p;
     gitCommitOption := gitCommitOption p; ctx := ctx p; out := out p;
     host := host p; perPage := n; token := token p;
     httpCli := httpCli p; cliv3 := cliv3 p |}.

(** [func WithHTTPClient(fun func(cli *http.Client) *http.Client) Option]. *)
Definition WithHTTPClient (fn : option (Client L) → option (Client L))
  : Option := λ p,
  {| tmpDir := tmpDir p; gitCommitMessage := gitCommitMessage p;
     gitCommitOption := gitCommitOption p; ctx := ctx p; out := out p;
     host := host p; perPage := perPage p; token := token p;
     httpCli := fn (httpCli p); cliv3 := cliv3 p |}.

(** [var DefaultOptions], as the package initialises it. *)
Definition DefaultOptions : list (option Option) :=
  [ Some (WithHost "https://github.com");
    Some (WithGitAuthorSignature "bot" "");
    Some (WithTmpDir "./tmp/");
    Some (WithOutput (Some (io_Discard L)));
    Some (WithPerPage 100);
    Some (WithContext (Some (context_Background L)));
    Some (WithGitCommitMessage
            (Some (λ _ _ _ name _, "Automatic update " +:+ name))) ].

(** [for _, opt := range opts { if opt != nil { opt(p) } }]. *)
Definition run_options (opts : list (option Option)) (p : PutInGH) : PutInGH :=
  foldl (λ p opt, match opt with Some f => f p | None => p end) p opts.

(** [p.cliv3 = c]. *)
Definition set_cliv3 (p : PutInGH) (c : option (Api L)) : PutInGH :=
  {| tmpDir := tmpDir p; gitCommitMessage := gitCommitMessage p;
     gitCommitOption := gitCommitOption p; ctx := ctx p; out := out p;
     host := host p; perPage := perPage p; token := token p;
     httpCli := httpCli p; cliv3 := c |}.

(** [func NewPutInGH(token string, options ...Option) *PutInGH]. *)
Definition NewPutInGH (tok : string) (options : list (option Option))
  : PutInGH :=
  let p := {| tmpDir := EmptyString; gitCommitMessage := None;
              gitCommitOption := None; ctx := None; out := None;
              host := EmptyString; perPage := 0; token := tok;
              httpCli := None; cliv3 := None |} in
  let httpClient := oauth2_NewClient L (ctx p) tok in
  let p := {| tmpDir := tmpDir p; gitCommitMessage := gitCommitMessage p;
              gitCommitOption := gitCommitOption p; ctx := ctx p;
              out := out p; host := host p; perPage := perPage p;
              token := token p; httpCli := Some httpClient;
              cliv3 := cliv3 p |} in
  let p := run_options DefaultOptions p in
  let p := run_options options p in
  set_cliv3 p (Some (ghv3_NewClient L httpClient)).

End Construction.

Global Arguments tmpDir {L} _.
Global Arguments gitCommitMessage {L} _.
Global Arguments gitCommitOption {L} _.
Global Arguments ctx {L} _.
Global Arguments out {L} _.
Global Arguments host {L} _.
Global Arguments perPage {L} _.
Global Arguments token {L} _.
Global Arguments httpCli {L} _.
Global Arguments cliv3 {L} _.
Global Arguments set_cliv3 {L} _ _.
Global Arguments run_options {L} _ _.

(** Libraries whose clients are written out, to run the constructor. *)
Inductive client : Type :=
| OAuth (c : option unit) (tok : string)
| Logging (inner : client).

Definition plain : Libraries :=
  {| Ctx := unit; Writer := unit; Client := client; Api := client;
     context_Background := tt; io_Discard := tt;
     oauth2_NewClient := OAuth; ghv3_NewClient := λ c, c |}.

End Options.

(** ** Vocabulary of the statements on the options *)

Module OptionsSpec.
Import Options.

Section Fields.
Context {L : Libraries}.

(** An option, or nil, that leaves a field as it finds it. *)
Definition leaves {A} (field : PutInGH L → A) (o : option (Option L)) : Prop :=
  ∀ p, field (run_options [o] p) = field p.

(** The options the package exports. *)
Inductive exported : Option L → Prop :=
| ex_TmpDir dir : exported (WithTmpDir L dir)
| ex_GitCommitMessage fn : exported (WithGitCommitMessage L fn)
| ex_GitAuthorSignature username email :
    exported (WithGitAuthorSignature L username email)
| ex_GitCommitOptions fn : exported (WithGitCommitOptions L fn)
| ex_Context c : exported (WithContext L c)
| ex_Output o : exported (WithOutput L o)
| ex_Host h : exported (WithHost L h)
| ex_PerPage n : exported (WithPerPage L n)
| ex_HTTPClient fn : exported (WithHTTPClient L fn).

(** What the git driver reads of the configuration, when the two
    functions are set. *)
Definition git_config (p : PutInGH L) : option Git.PutInGH :=
  msg ← gitCommitMessage p;
  opt ← gitCommitOption p;
  Some {| Git.tmpDir := tmpDir p; Git.host := host p; Git.token := token p;
          Git.gitCommitMessage := msg; Git.gitCommitOption := opt |}.

End Fields.
End OptionsSpec.

(** * Properties *)

(** ** The monad of the embedding *)

Module GoFacts.

Lemma bind_Ret {W A B} (m : M W A) (f : A → M W B) w a w' :
  m w = (Ret a, w') → (m ≫= f) w = f a w'.
Proof. intros H. unfold mbind, M_bind. by rewrite H. Qed.

Lemma bind_Fail {W A B} (m : M W A) (f : A → M W B) w e w' :
  m w = (Fail e, w') → (m ≫= f) w = (Fail e, w').
Proof. intros H. unfold mbind, M_bind. by rewrite H. Qed.

Lemma bind_Panic {W A B} (m : M W A) (f : A → M W B) w w' :
  m w = (Panic, w') → (m ≫= f) w = (Panic, w').
Proof. intros H. unfold mbind, M_bind. by rewrite H. Qed.

Lemma bind_unfold {W A B} (m : M W A) (f : A → M W B) w :
  (m ≫= f) w
  = match m w with
    | (Ret a, w') => f a w'
    | (Fail e, w') => (Fail e, w')
    | (Panic, w') => (Panic, w')
    | (Diverge, w') => (Diverge, w')
    end.
Proof. reflexivity. Qed.

End GoFacts.
Export GoFacts.

(** ** The auto-closing reader *)

Module AutoCloserFacts.
Import AutoCloser.

Section Generic.
Context {H : Type} (I : ReadCloser H).

Lemma Read_calls cap (w : world) :
  calls (Read I cap w).2 = calls w ++ calls_of (Read I cap w).1.
Proof.
  unfold Read, calls_of, is_eof.
  destruct (rc_Read I (handle w) cap) as [[n err] h1]. simpl.
  destruct (decide (err = Some EOF)) as [->|Hne].
  - destruct (rc_Close I h1) as [e h2]. simpl. by rewrite <- app_assoc.
  - simpl. by rewrite bool_decide_eq_false_2.
Qed.

(** The calls made on the handle are those of the individual results,
    in order: one [Read] per call, followed by a [Close] exactly when
    that [Read] returned [io.EOF]. *)
Lemma ReadAll_calls caps (w : world) :
  calls (ReadAll I caps w).2
  = calls w ++ concat (map calls_of (ReadAll I caps w).1).
Proof.
  revert w. induction caps as [|c rest IH]; intros w; simpl.
  - by rewrite app_nil_r.
  - pose proof (Read_calls c w) as Hr.
    destruct (Read I c w) as [r w1]. simpl in Hr.
    specialize (IH w1). destruct (ReadAll I rest w1) as [rs w2]. simpl in *.
    rewrite IH, Hr. by rewrite <- app_assoc.
Qed.

Lemma closes_app (l1 l2 : list call) :
  length (filter (λ c, c = CallClose) (l1 ++ l2))
  = length (filter (λ c, c = CallClose) l1)
    + length (filter (λ c, c = CallClose) l2).
Proof. by rewrite filter_app, length_app. Qed.

Lemma closes_concat (rs : list (string * option error)) :
  length (filter (λ c, c = CallClose) (concat (map calls_of rs)))
  = length (filter (λ r, is_eof r = true) rs).
Proof.
  induction rs as [|r rs IH]; [done|]. simpl.
  rewrite closes_app, IH. rewrite filter_cons. unfold calls_of.
  destruct (is_eof r) eqn:E.
  - rewrite decide_True by done. reflexivity.
  - rewrite decide_False by done. reflexivity.
Qed.

Lemma no_eof_filter (rs : list (string * option error)) :
  Forall (λ r, is_eof r = false) rs →
  filter (λ r, is_eof r = true) rs = [].
Proof.
  induction 1 as [|r rs Hr _ IH]; [done|].
  rewrite filter_cons, decide_False by (rewrite Hr; done). done.
Qed.

(** [Close] is called once per [Read] that returned [io.EOF]. *)
Lemma ReadAll_closes caps (w : world) :
  closes (ReadAll I caps w).2
  = closes w + length (filter (λ r, is_eof r = true) (ReadAll I caps w).1).
Proof.
  unfold closes. rewrite ReadAll_calls, closes_app. by rewrite closes_concat.
Qed.

End Generic.

Section Disciplined.
Context {H : Type} (I : ReadCloser H).
(** A handle that knows it has been closed. *)
Variable isClosed : H → Prop.
Hypothesis Close_closes : ∀ h, isClosed (rc_Close I h).2.
Hypothesis Read_closed : ∀ h cap,
  isClosed h →
  (rc_Read I h cap).1.2 ≠ Some EOF ∧ isClosed (rc_Read I h cap).2.

Lemma Read_after_close cap (w : world) :
  isClosed (handle w) →
  is_eof (Read I cap w).1 = false ∧ isClosed (handle (Read I cap w).2).
Proof.
  intros Hc. unfold Read, is_eof.
  destruct (Read_closed (handle w) cap Hc) as [Hne Hc'].
  destruct (rc_Read I (handle w) cap) as [[n err] h1]. simpl in *.
  rewrite decide_False by done. simpl.
  split; [by rewrite bool_decide_eq_false_2 | done].
Qed.

Lemma ReadAll_after_close caps (w : world) :
  isClosed (handle w) →
  filter (λ r, is_eof r = true) (ReadAll I caps w).1 = [].
Proof.
  revert w. induction caps as [|c rest IH]; intros w Hc; [done|]. simpl.
  destruct (Read_after_close c w Hc) as [Hne Hc'].
  destruct (Read I c w) as [r w1]. simpl in *.
  specialize (IH w1 Hc'). destruct (ReadAll I rest w1) as [rs w2]. simpl in *.
  rewrite filter_cons, decide_False by (rewrite Hne; done). done.
Qed.

Lemma Read_eof_closes cap (w : world) :
  is_eof (Read I cap w).1 = true → isClosed (handle (Read I cap w).2).
Proof.
  unfold Read, is_eof.
  destruct (rc_Read I (handle w) cap) as [[n err] h1]. simpl.
  destruct (decide (err = Some EOF)) as [->|Hne].
  - pose proof (Close_closes h1) as Hc.
    destruct (rc_Close I h1) as [e h2]. simpl in *. done.
  - simpl. intros Hb. apply bool_decide_eq_true_1 in Hb. done.
Qed.

Lemma ReadAll_eof_at_most_once caps (w : world) :
  length (filter (λ r, is_eof r = true) (ReadAll I caps w).1) ≤ 1.
Proof.
  revert w. induction caps as [|c rest IH]; intros w; simpl; [lia|].
  pose proof (Read_eof_closes c w) as Hc.
  destruct (Read I c w) as [r w1]. simpl in *.
  pose proof (ReadAll_after_close rest w1) as Hac.
  specialize (IH w1). destruct (ReadAll I rest w1) as [rs w2]. simpl in *.
  rewrite filter_cons. destruct (is_eof r) eqn:E.
  - rewrite decide_True by done. simpl. rewrite Hac by auto. simpl. lia.
  - rewrite decide_False by done. done.
Qed.

End Disciplined.

(** C9 (as amended): for every handle and every sequence of [Read]
    calls on a fresh auto-closing reader, [Close] is called on the
    wrapped handle right after each [Read] that returned [io.EOF] and at
    no other time; so it is never called when no [Read] returned
    [io.EOF].  For a handle that stops reporting [io.EOF] once it has
    been closed, it is called at most once in total. *)
Theorem autoclose_on_eof {H : Type} (I : ReadCloser H) (rc : H)
    (caps : list nat) :
  let run := ReadAll I caps (newReaderWithAutoCloser rc) in
  calls run.2 = concat (map calls_of run.1)
  ∧ closes run.2 = length (filter (λ r, is_eof r = true) run.1)
  ∧ (Forall (λ r, is_eof r = false) run.1 → closes run.2 = 0)
  ∧ (∀ isClosed : H → Prop,
       (∀ h, isClosed (rc_Close I h).2) →
       (∀ h cap, isClosed h →
          (rc_Read I h cap).1.2 ≠ Some EOF ∧ isClosed (rc_Read I h cap).2) →
       closes run.2 ≤ 1).
Proof.
  cbv zeta.
  pose proof (ReadAll_calls I caps (newReaderWithAutoCloser rc)) as Hcalls.
  pose proof (ReadAll_closes I caps (newReaderWithAutoCloser rc)) as Hcl.
  simpl in Hcalls. change (closes (newReaderWithAutoCloser rc)) with 0 in Hcl.
  simpl in Hcl.
  split; [done|]. split; [done|]. split.
  - intros Hall. rewrite Hcl. by rewrite no_eof_filter.
  - intros isClosed Close_closes Read_closed. rewrite Hcl.
    exact (ReadAll_eof_at_most_once I isClosed Close_closes Read_closed caps
             (newReaderWithAutoCloser rc)).
Qed.

Lemma fileHandle_Close_closes (f : file) :
  closed (rc_Close fileHandle f).2 = true.
Proof. simpl. unfold file_Close. by destruct (closed f) eqn:E. Qed.

Lemma fileHandle_Read_closed (f : file) (cap : nat) :
  closed f = true →
  (rc_Read fileHandle f cap).1.2 ≠ Some EOF
  ∧ closed (rc_Read fileHandle f cap).2 = true.
Proof. intros Hc. simpl. unfold file_Read. rewrite Hc. simpl. done. Qed.

(** The theorem at a two-byte file read with one-byte buffers: the
    third [Read] reports end-of-file and closes, the fourth one finds
    the file closed.  And at an empty body, which reports end-of-file
    at every [Read]: each of the two reads is followed by a [Close]. *)
Lemma autoclose_on_eof_witness :
  (let run := ReadAll fileHandle [1; 1; 1; 1]
                (newReaderWithAutoCloser
                   {| content := "ab"; offset := 0; closed := false |}) in
   calls run.2 = concat (map calls_of run.1)
   ∧ closes run.2 = length (filter (λ r, is_eof r = true) run.1)
   ∧ closes run.2 ≤ 1)
  ∧ (let run := ReadAll noBody [8; 8] (newReaderWithAutoCloser tt) in
     calls run.2 = [CallRead; CallClose; CallRead; CallClose]
     ∧ closes run.2 = 2).
Proof.
  split.
  - destruct (autoclose_on_eof fileHandle
                {| content := "ab"; offset := 0; closed := false |}
                [1; 1; 1; 1]) as (Hcalls & Hcl & _ & Hone).
    split; [exact Hcalls|]. split; [exact Hcl|].
    exact (Hone (λ f, closed f = true) fileHandle_Close_closes
             fileHandle_Read_closed).
  - destruct (autoclose_on_eof noBody tt [8; 8]) as (Hcalls & Hcl & _).
    cbv zeta in *. rewrite Hcalls, Hcl. split; reflexivity.
Defined.

(** C9 as stated fails: on a handle that reports end-of-file at every
    [Read] (an empty response body), two [Read] calls close it twice. *)
Lemma autoclose_twice_counterexample :
  ¬ closes (ReadAll noBody [8; 8] (newReaderWithAutoCloser tt)).2 ≤ 1.
Proof. vm_compute. lia. Qed.

End AutoCloserFacts.

(** ** The URI router *)

Module RouterFacts.
Import Router RouterSpec.

Lemma strings_cut_byte sep s : strings_cut (String sep EmptyString) s = cut sep s.
Proof.
  induction s as [|c s IH]; [done|].
  simpl. destruct (ascii_dec sep c) as [->|Hne].
  - rewrite decide_True by done. by destruct s.
  - rewrite decide_False by done. by rewrite IH.
Qed.

Lemma cut_None sep s : cut sep s = None ↔ count_byte sep s = 0.
Proof.
  induction s as [|c s IH]; simpl; [done|].
  destruct (decide (c = sep)); [split; [done | lia]|].
  destruct (cut sep s) as [[a b]|]; simpl.
  - split; [done|]. intros H. by apply IH in H.
  - split; [|done]. intros _. by apply IH.
Qed.

Lemma cut_Some sep s a b :
  cut sep s = Some (a, b) →
  s = a +:+ String sep b
  ∧ count_byte sep a = 0
  ∧ count_byte sep s = S (count_byte sep b).
Proof.
  revert a b. induction s as [|c s IH]; intros a b; simpl; [done|].
  destruct (decide (c = sep)) as [->|Hne].
  - intros [= <- <-]. simpl. done.
  - destruct (cut sep s) as [[a' b']|] eqn:E; [|done].
    intros [= <- <-]. destruct (IH a' b' eq_refl) as (-> & Ha & Hc).
    simpl. rewrite decide_False by done. simpl. done.
Qed.

(** [strings.SplitN] yields [n] pieces exactly when the string holds at
    least [n - 1] separators, and fewer otherwise. *)
Lemma strings_SplitN_length s sep n :
  length (strings_SplitN s (String sep EmptyString) (S n))
  = Nat.min (S n) (S (count_byte sep s)).
Proof.
  revert s. induction n as [|n IH]; intros s; [done|].
  change (strings_SplitN s (String sep EmptyString) (S (S n)))
    with (match strings_cut (String sep EmptyString) s with
          | None => [s]
          | Some (a, rest) =>
              a :: strings_SplitN rest (String sep EmptyString) (S n)
          end).
  rewrite strings_cut_byte.
  destruct (cut sep s) as [[a rest]|] eqn:E.
  - apply cut_Some in E as (_ & _ & ->).
    change (length (a :: strings_SplitN rest (String sep EmptyString) (S n)))
      with (S (length (strings_SplitN rest (String sep EmptyString) (S n)))).
    rewrite IH. lia.
  - apply cut_None in E as ->. done.
Qed.

Lemma strings_SplitN_3 s :
  2 ≤ count_byte "/"%char s →
  ∃ x a b, strings_SplitN s slash 3 = [x; a; b] ∧ segments3 s x a b.
Proof.
  intros Hc.
  change (strings_SplitN s slash 3)
    with (match strings_cut slash s with
          | None => [s]
          | Some (a, rest) =>
              a :: match strings_cut slash rest with
                   | None => [rest]
                   | Some (b, rest') => [b; rest']
                   end
          end).
  unfold slash. rewrite strings_cut_byte.
  destruct (cut "/"%char s) as [[x r1]|] eqn:E1;
    [|apply cut_None in E1; lia].
  apply cut_Some in E1 as (-> & Hx & E1). rewrite E1 in Hc.
  rewrite strings_cut_byte.
  destruct (cut "/"%char r1) as [[a r2]|] eqn:E2;
    [|apply cut_None in E2; lia].
  apply cut_Some in E2 as (-> & Ha & E2).
  exists x, a, r2. split; [done|]. split; [|done]. done.
Qed.

Lemma strings_SplitN_4 s :
  3 ≤ count_byte "/"%char s →
  ∃ x a b c, strings_SplitN s slash 4 = [x; a; b; c] ∧ segments4 s x a b c.
Proof.
  intros Hc.
  change (strings_SplitN s slash 4)
    with (match strings_cut slash s with
          | None => [s]
          | Some (a, rest) => a :: strings_SplitN rest slash 3
          end).
  unfold slash at 1. rewrite strings_cut_byte.
  destruct (cut "/"%char s) as [[x r1]|] eqn:E1;
    [|apply cut_None in E1; lia].
  apply cut_Some in E1 as (-> & Hx & E1). rewrite E1 in Hc.
  destruct (strings_SplitN_3 r1) as (a & b & c & -> & -> & Ha & Hb); [lia|].
  exists x, a, b, c. done.
Qed.

Lemma match4_short {A R} (l : list A) (k : A → A → A → R) (d : R) :
  length l ≠ 4 →
  match l with [_; a; b; c] => k a b c | _ => d end = d.
Proof. destruct l as [|? [|? [|? [|? [|? ?]]]]]; simpl; try done. Qed.

Lemma match3_short {A R} (l : list A) (k : A → A → R) (d : R) :
  length l ≠ 3 →
  match l with [_; a; b] => k a b | _ => d end = d.
Proof. destruct l as [|? [|? [|? [|? ?]]]]; simpl; try done. Qed.

Section Arity.
Context {G P Src : Type}.
Variable getErr : error → G.
Variable putErr : error → P.
Variable GetFromGit : string → string → string → string → G.
Variable GetFromReleasesAsset : string → string → string → string → G.
Variable GetFromGist : string → string → string → G.
Variable putInGit : string → string → string → string → Src → P.
Variable putInReleasesAsset : string → string → string → string → Src → P.
Variable putInGist : string → string → string → Src → P.
Variable putInGitWithFile : string → string → string → string → string → P.
Variable putInReleasesAssetWithFile : string → string → string → string → string → P.
Variable putInGistWithFile : string → string → string → string → P.

Abbreviation get parse :=
  (GetFrom getErr parse GetFromGit GetFromReleasesAsset GetFromGist).
Abbreviation put parse :=
  (PutIn putErr parse putInGit putInReleasesAsset putInGist).
Abbreviation putFile parse :=
  (PutInWithFile putErr parse putInGitWithFile putInReleasesAssetWithFile
     putInGistWithFile).

Lemma git_short parse uri u r f :
  parse uri = inr u → Scheme u = "git" →
  count_byte "/"%char (Path u) < 3 →
  get parse uri = getErr (ErrNotMatch uri git_pattern)
  ∧ put parse uri r = putErr (ErrNotMatch uri git_pattern)
  ∧ putFile parse uri f = putErr (ErrNotMatch uri git_pattern).
Proof.
  intros Hp Hs Hc. unfold GetFrom, PutIn, PutInWithFile. rewrite Hp, Hs.
  repeat (rewrite decide_False by done). rewrite !decide_True by done.
  rewrite !match4_short; [done|..];
    unfold slash; rewrite strings_SplitN_length; lia.
Qed.

Lemma git_full parse uri u r f :
  parse uri = inr u → Scheme u = "git" →
  3 ≤ count_byte "/"%char (Path u) →
  ∃ x repo branch name,
    segments4 (Path u) x repo branch name
    ∧ get parse uri = GetFromGit (Host u) repo branch name
    ∧ put parse uri r = putInGit (Host u) repo branch name r
    ∧ putFile parse uri f = putInGitWithFile (Host u) repo branch name f.
Proof.
  intros Hp Hs Hc.
  destruct (strings_SplitN_4 (Path u) Hc) as (x & a & b & c & E & Hseg).
  exists x, a, b, c. split; [done|].
  unfold GetFrom, PutIn, PutInWithFile. rewrite Hp, Hs, E. done.
Qed.

Lemma asset_short parse uri u r f :
  parse uri = inr u → Scheme u = "asset" →
  count_byte "/"%char (Path u) < 3 →
  get parse uri = getErr (ErrNotMatch uri asset_pattern)
  ∧ put parse uri r = putErr (ErrNotMatch uri asset_pattern)
  ∧ putFile parse uri f = putErr (ErrNotMatch uri asset_pattern).
Proof.
  intros Hp Hs Hc. unfold GetFrom, PutIn, PutInWithFile. rewrite Hp, Hs.
  repeat (rewrite decide_False by done). rewrite !decide_True by done.
  rewrite !match4_short; [done|..];
    unfold slash; rewrite strings_SplitN_length; lia.
Qed.

Lemma asset_full parse uri u r f :
  parse uri = inr u → Scheme u = "asset" →
  3 ≤ count_byte "/"%char (Path u) →
  ∃ x repo release name,
    segments4 (Path u) x repo release name
    ∧ get parse uri = GetFromReleasesAsset (Host u) repo release name
    ∧ put parse uri r = putInReleasesAsset (Host u) repo release name r
    ∧ putFile parse uri f
      = putInReleasesAssetWithFile (Host u) repo release name f.
Proof.
  intros Hp Hs Hc.
  destruct (strings_SplitN_4 (Path u) Hc) as (x & a & b & c & E & Hseg).
  exists x, a, b, c. split; [done|].
  unfold GetFrom, PutIn, PutInWithFile. rewrite Hp, Hs, E. done.
Qed.

Lemma gist_short parse uri u r f :
  parse uri = inr u → Scheme u = "gist" →
  count_byte "/"%char (Path u) < 2 →
  get parse uri = getErr (ErrNotMatch uri gist_pattern)
  ∧ put parse uri r = putErr (ErrNotMatch uri gist_pattern)
  ∧ putFile parse uri f = putErr (ErrNotMatch uri gist_pattern).
Proof.
  intros Hp Hs Hc. unfold GetFrom, PutIn, PutInWithFile. rewrite Hp, Hs.
  repeat (rewrite decide_False by done). rewrite !decide_True by done.
  rewrite !match3_short; [done|..];
    unfold slash; rewrite strings_SplitN_length; lia.
Qed.

Lemma gist_full parse uri u r f :
  parse uri = inr u → Scheme u = "gist" →
  2 ≤ count_byte "/"%char (Path u) →
  ∃ x gistId name,
    segments3 (Path u) x gistId name
    ∧ get parse uri = GetFromGist (Host u) gistId name
    ∧ put parse uri r = putInGist (Host u) gistId name r
    ∧ putFile parse uri f = putInGistWithFile (Host u) gistId name f.
Proof.
  intros Hp Hs Hc.
  destruct (strings_SplitN_3 (Path u) Hc) as (x & a & b & E & Hseg).
  exists x, a, b. split; [done|].
  unfold GetFrom, PutIn, PutInWithFile. rewrite Hp, Hs, E. done.
Qed.

(** C3 (as amended): for every address that [url.Parse] accepts, the
    router checks the segment count against the arity of the scheme
    (git 4, asset 4, gist 3).  With fewer segments [GetFrom], [PutIn]
    and [PutInWithFile] fail with the error carrying the address and
    the expected pattern; with as many or more they hand the host and
    the pieces of the path to the driver of the scheme, all pieces but
    the last free of separators, the last one (the name) holding the
    rest of the path, separators included, for each of the three
    schemes.  In particular git://a/b fails, git://a/b/c/d is
    dispatched, and so are asset://o/r/v1/a/b and gist://o/g1/a/b, with
    the name a/b. *)
Theorem router_arity :
  (∀ parse uri u r f, parse uri = inr u →
     (Scheme u = "git" →
        (segment_count u < 4 →
           get parse uri = getErr (ErrNotMatch uri git_pattern)
           ∧ put parse uri r = putErr (ErrNotMatch uri git_pattern)
           ∧ putFile parse uri f = putErr (ErrNotMatch uri git_pattern))
        ∧ (4 ≤ segment_count u →
           ∃ x repo branch name,
             segments4 (Path u) x repo branch name
             ∧ get parse uri = GetFromGit (Host u) repo branch name
             ∧ put parse uri r = putInGit (Host u) repo branch name r
             ∧ putFile parse uri f
               = putInGitWithFile (Host u) repo branch name f))
     ∧ (Scheme u = "asset" →
        (segment_count u < 4 →
           get parse uri = getErr (ErrNotMatch uri asset_pattern)
           ∧ put parse uri r = putErr (ErrNotMatch uri asset_pattern)
           ∧ putFile parse uri f = putErr (ErrNotMatch uri asset_pattern))
        ∧ (4 ≤ segment_count u →
           ∃ x repo release name,
             segments4 (Path u) x repo release name
             ∧ get parse uri = GetFromReleasesAsset (Host u) repo release name
             ∧ put parse uri r = putInReleasesAsset (Host u) repo release name r
             ∧ putFile parse uri f
               = putInReleasesAssetWithFile (Host u) repo release name f))
     ∧ (Scheme u = "gist" →
        (segment_count u < 3 →
           get parse uri = getErr (ErrNotMatch uri gist_pattern)
           ∧ put parse uri r = putErr (ErrNotMatch uri gist_pattern)
           ∧ putFile parse uri f = putErr (ErrNotMatch uri gist_pattern))
        ∧ (3 ≤ segment_count u →
           ∃ x gistId name,
             segments3 (Path u) x gistId name
             ∧ get parse uri = GetFromGist (Host u) gistId name
             ∧ put parse uri r = putInGist (Host u) gistId name r
             ∧ putFile parse uri f = putInGistWithFile (Host u) gistId name f)))
  ∧ get url_Parse_plain "git://a/b"
    = getErr (ErrNotMatch "git://a/b" "git://owner/repository/branch/name")
  ∧ get url_Parse_plain "git://a/b/c/d" = GetFromGit "a" "b" "c" "d"
  ∧ get url_Parse_plain "git://a/b/c/dir/file" = GetFromGit "a" "b" "c" "dir/file"
  ∧ get url_Parse_plain "asset://o/r/v1/a/b"
    = GetFromReleasesAsset "o" "r" "v1" "a/b"
  ∧ get url_Parse_plain "gist://o/g1/a/b" = GetFromGist "o" "g1" "a/b".
Proof.
  split; [|by vm_compute].
  intros parse uri u r f Hp. unfold segment_count.
  split; [|split]; intros Hs; (split; intros Hc).
  - apply (git_short parse uri u r f Hp Hs). lia.
  - apply (git_full parse uri u r f Hp Hs). lia.
  - apply (asset_short parse uri u r f Hp Hs). lia.
  - apply (asset_full parse uri u r f Hp Hs). lia.
  - apply (gist_short parse uri u r f Hp Hs). lia.
  - apply (gist_full parse uri u r f Hp Hs). lia.
Qed.

End Arity.

(** C3 as stated fails: an asset address of five segments does not
    match the arity of four, and is dispatched all the same, the name
    taking the last two. *)
Lemma router_arity_counterexample :
  ¬ (∀ uri u,
       url_Parse_plain uri = inr u → Scheme u = "asset" →
       segment_count u ≠ 4 →
       GetFrom (G:=error + list string) inl url_Parse_plain
         (λ o a b c, inr ["git"; o; a; b; c])
         (λ o a b c, inr ["asset"; o; a; b; c])
         (λ o a c, inr ["gist"; o; a; c]) uri
       = inl (ErrNotMatch uri asset_pattern)).
Proof.
  intros H.
  specialize (H "asset://o/r/v1/a/b"
                {| Scheme := "asset"; Host := "o"; Path := "/r/v1/a/b" |}
                eq_refl eq_refl ltac:(done)).
  vm_compute in H. discriminate H.
Qed.

End RouterFacts.

(** ** The paginated scanners *)

Module ScannerFacts.
Import Forge ScannerSpec.

Section Unfold.
Context {St : Type} (env : Env St) (perPage : Z).

Lemma eachGist_from_S {A} fuel owner page
    (next : option (list Gist → A → outcome (bool * A))) acc w :
  eachGist_from env perPage (S fuel) owner page next acc w
  = scan_turn (λ p, Gists_List env owner p perPage)
      (λ p, EvGistsList owner p perPage) next
      (λ p a, eachGist_from env perPage fuel owner p next a) page acc w.
Proof.
  unfold scan_turn. simpl. unfold mbind, M_bind, call.
  destruct (Gists_List env owner page perPage (forge w)) as [r s'].
  destruct (err r) as [e|].
  { destruct (resp r) as [rs|]; [|done].
    by destruct (StatusCode rs =? StatusNotFound)%Z. }
  destruct next as [nx|]; simpl.
  - unfold lift. destruct (nx (val r) acc) as [[c a]| | |]; try done.
    destruct c; simpl; [|done].
    destruct (resp r) as [rs|]; simpl; [|done].
    by destruct (NextPage rs =? 0)%Z.
  - destruct (resp r) as [rs|]; simpl; [|done].
    by destruct (NextPage rs =? 0)%Z.
Qed.

Lemma eachReleases_from_S {A} fuel owner repo page
    (next : option (list RepositoryRelease → A → outcome (bool * A))) acc w :
  eachReleases_from env perPage (S fuel) owner repo page next acc w
  = scan_turn (λ p, Repositories_ListReleases env owner repo p perPage)
      (λ p, EvListReleases owner repo p perPage) next
      (λ p a, eachReleases_from env perPage fuel owner repo p next a)
      page acc w.
Proof.
  unfold scan_turn. simpl. unfold mbind, M_bind, call.
  destruct (Repositories_ListReleases env owner repo page perPage (forge w))
    as [r s'].
  destruct (err r) as [e|].
  { destruct (resp r) as [rs|]; [|done].
    by destruct (StatusCode rs =? StatusNotFound)%Z. }
  destruct next as [nx|]; simpl.
  - unfold lift. destruct (nx (val r) acc) as [[c a]| | |]; try done.
    destruct c; simpl; [|done].
    destruct (resp r) as [rs|]; simpl; [|done].
    by destruct (NextPage rs =? 0)%Z.
  - destruct (resp r) as [rs|]; simpl; [|done].
    by destruct (NextPage rs =? 0)%Z.
Qed.

End Unfold.

Section Law.
Context {St T A : Type}.
Variable list_page : Z → St → reply (list T) * St.
Variable ev : Z → Event.
Variable next : option (list T → A → outcome (bool * A)).

(** A scanner, by its unfolding. *)
Variable scan : nat → Z → A → M (world (St:=St)) A.
Hypothesis scan_S : ∀ fuel page acc w,
  scan (S fuel) page acc w
  = scan_turn list_page ev next (scan fuel) page acc w.

Abbreviation verdict := (ScannerSpec.verdict next).
Abbreviation goes_on := (ScannerSpec.goes_on list_page ev next).
Abbreviation scanner_law := (ScannerSpec.scanner_law list_page ev next scan).

Lemma goes_on_scan c c' fuel :
  goes_on c c' →
  scan (S fuel) c.1.1 c.1.2 c.2 = scan fuel c'.1.1 c'.1.2 c'.2.
Proof.
  intros [page acc w r s' acc' rs Hl He Hv Hr Hn]. simpl.
  rewrite scan_S. unfold scan_turn. rewrite Hl, He.
  unfold ScannerSpec.verdict in Hv. rewrite Hv. simpl. rewrite Hr.
  destruct (NextPage rs =? 0)%Z eqn:E; [|done].
  apply Z.eqb_eq in E. done.
Qed.

Lemma nsteps_goes_on_scan k c c' fuel :
  nsteps goes_on k c c' →
  scan (k + fuel) c.1.1 c.1.2 c.2 = scan fuel c'.1.1 c'.1.2 c'.2.
Proof.
  induction 1 as [|k c1 c2 c3 Hstep _ IH]; [done|].
  change (S k + fuel) with (S (k + fuel)).
  rewrite (goes_on_scan _ _ _ Hstep). exact IH.
Qed.

(** Each turn appends exactly one request to the trace. *)
Lemma nsteps_goes_on_trace k c c' :
  nsteps goes_on k c c' →
  ∃ pages, length pages = k ∧ trace c'.2 = trace c.2 ++ map ev pages.
Proof.
  induction 1 as [c|k c1 c2 c3 Hstep _ (pages & Hlen & Htr)].
  - exists []. by rewrite app_nil_r.
  - destruct Hstep as [page acc w r s' acc' rs _ _ _ _ _]. simpl in *.
    exists (page :: pages). split; [simpl; lia|].
    rewrite Htr. simpl. by rewrite <- app_assoc.
Qed.

Lemma scanner_law_holds : scanner_law.
Proof.
  intros k page0 acc0 w0 page acc w r s' Hsteps Hl He fuel Hfuel w'.
  assert (Hrun : scan fuel page0 acc0 w0 = scan (S (fuel - S k)) page acc w).
  { replace fuel with (k + S (fuel - S k)) at 1 by lia.
    exact (nsteps_goes_on_scan _ _ _ _ Hsteps). }
  split; [|split; [|split]].
  - destruct (nsteps_goes_on_trace _ _ _ Hsteps) as (pages & Hlen & Htr).
    exists pages. split; [done|]. simpl in *. rewrite Htr.
    by rewrite <- app_assoc.
  - intros acc' Hv. rewrite Hrun, scan_S. unfold scan_turn.
    rewrite Hl, He. unfold ScannerSpec.verdict in Hv. by rewrite Hv.
  - intros acc' rs Hv Hr Hn. rewrite Hrun, scan_S. unfold scan_turn.
    rewrite Hl, He. unfold ScannerSpec.verdict in Hv. rewrite Hv. simpl.
    rewrite Hr, Hn. done.
  - intros acc' rs Hv Hr Hn. rewrite Hrun.
    apply (goes_on_scan (page, acc, w) (NextPage rs, acc', w')).
    by econstructor.
Qed.

End Law.
End ScannerFacts.

(** ** The scanners on both collections *)

Module ScanClaims.
Import Forge ScannerSpec ScannerFacts MemForge.

(** C6: both scanners obey the scanner's law: they never request a
    further page after the predicate has returned false, even if the
    response names one; otherwise they stop exactly when the response
    names no further page, and go on with the named page when it does. *)
Theorem scan_short_circuit {St} (env : Env St) (perPage : Z) :
  (∀ A owner (next : option (list Gist → A → outcome (bool * A))),
     scanner_law (λ p, Gists_List env owner p perPage)
       (λ p, EvGistsList owner p perPage) next
       (λ fuel page acc, eachGist_from env perPage fuel owner page next acc))
  ∧ (∀ A owner repo
       (next : option (list RepositoryRelease → A → outcome (bool * A))),
     scanner_law (λ p, Repositories_ListReleases env owner repo p perPage)
       (λ p, EvListReleases owner repo p perPage) next
       (λ fuel page acc,
          eachReleases_from env perPage fuel owner repo page next acc)).
Proof.
  split.
  - intros A owner next. apply scanner_law_holds.
    intros fuel page acc w. apply eachGist_from_S.
  - intros A owner repo next. apply scanner_law_holds.
    intros fuel page acc w. apply eachReleases_from_S.
Qed.

(** The law at work on the forge in memory, one gist per page: the
    wildcard scan for a file [x] asks for the first page, goes on, finds
    the file on the second page and stops there, although the response
    names a third page. *)
Lemma scan_short_circuit_witness :
  eachGist memEnv 1 5 "o" (Some (gistNext "*" "x")) None (start sample)
  = (Ret (Some gistB),
     {| forge := sample;
        trace := [EvGistsList "o" 0 1; EvGistsList "o" 2 1] |})
  ∧ NextPage <$> resp (mem_Gists_List "o" 2 1 sample).1 = Some 3%Z.
Proof.
  split; [|reflexivity].
  destruct (scan_short_circuit memEnv 1) as [Hgists _].
  assert (Hturn : goes_on (λ p, Gists_List memEnv "o" p 1)
                    (λ p, EvGistsList "o" p 1) (Some (gistNext "*" "x"))
                    (0%Z, None, start sample)
                    (2%Z, None,
                     {| forge := sample; trace := [EvGistsList "o" 0 1] |})).
  { exact (goes_on_intro (λ p, Gists_List memEnv "o" p 1)
             (λ p, EvGistsList "o" p 1) (Some (gistNext "*" "x"))
             0%Z None (start sample) (mem_Gists_List "o" 0 1 sample).1 sample
             None {| StatusCode := 200; NextPage := 2 |}
             eq_refl eq_refl eq_refl eq_refl ltac:(done)). }
  destruct (Hgists _ "o" (Some (gistNext "*" "x")) 1 0%Z None (start sample)
              2%Z None {| forge := sample; trace := [EvGistsList "o" 0 1] |}
              (mem_Gists_List "o" 2 1 sample).1 sample
              (nsteps_once _ _ Hturn) eq_refl eq_refl 5 ltac:(lia))
    as (_ & Hmatch & _).
  apply Hmatch. reflexivity.
Defined.

End ScanClaims.

(** ** The gist driver *)

Module GistFacts.
Import Forge ScannerSpec GistSpec ScannerFacts MemForge.

Lemma find_app_first {A} (f : A → bool) (l1 l2 : list A) :
  find f (l1 ++ l2)
  = match find f l1 with Some x => Some x | None => find f l2 end.
Proof.
  induction l1 as [|x l1 IH]; [done|]. simpl. by destruct (f x).
Qed.

Lemma gistNext_find gistId name gs acc :
  ids_ok gistId gs →
  gistNext gistId name gs acc
  = Ret (match find (gist_matches gistId name) gs with
         | Some g => (false, Some g)
         | None => (true, acc)
         end).
Proof.
  intros Hok. induction gs as [|g gs IH]; [done|].
  assert (Hok' : ids_ok gistId gs).
  { destruct Hok as [?|Hall]; [by left|right]. by inversion Hall. }
  simpl. unfold gist_matches at 1.
  destruct (decide (gistId = anyFile)) as [Hany|Hne].
  - destruct (g_Files g !! name) as [f|] eqn:E.
    + by rewrite bool_decide_eq_true_2.
    + rewrite bool_decide_eq_false_2 by (intros [? ?]; done). by apply IH.
  - destruct Hok as [?|Hall]; [done|]. inversion Hall as [|? ? [id Hid] _].
    subst. rewrite Hid.
    destruct (decide (id = gistId)) as [->|Hid'].
    + by rewrite bool_decide_eq_true_2.
    + rewrite bool_decide_eq_false_2 by congruence. by apply IH.
Qed.

Section Served.
Context {St : Type} (env : Env St) (perPage : Z) (owner : string).

Abbreviation serves := (GistSpec.serves env perPage owner).
Abbreviation fetched := (GistSpec.fetched env).

(** The scan with the closure of the gist driver finds the first gist,
    in the order served, that the match rule selects. *)
Lemma eachGist_from_find gistId name page w pages fuel :
  serves page (forge w) pages →
  ids_ok gistId (concat pages) →
  length pages ≤ fuel →
  ∃ w1,
    eachGist_from env perPage fuel owner page
      (Some (gistNext gistId name)) None w
    = (Ret (find (gist_matches gistId name) (concat pages)), w1)
    ∧ ∃ visited,
        trace w1 = trace w ++ map (λ p, EvGistsList owner p perPage) visited.
Proof.
  intros Hs. remember (forge w) as s eqn:Hw. symmetry in Hw.
  revert w fuel Hw.
  induction Hs as [page s r s' rs Hl He Hr Hn
                  |page s r s' rs rest Hl He Hr Hn Hrest IH];
    intros w fuel Hw Hok Hfuel; subst s.
  - destruct fuel as [|fuel]; [simpl in Hfuel; lia|].
    rewrite eachGist_from_S. unfold scan_turn. rewrite Hl, He.
    simpl in Hok. rewrite app_nil_r in Hok.
    rewrite (gistNext_find _ _ _ _ Hok). simpl. rewrite app_nil_r.
    eexists. split.
    + destruct (find (gist_matches gistId name) (val r)); simpl; [done|].
      rewrite Hr, Hn. done.
    + exists [page]. done.
  - destruct fuel as [|fuel]; [simpl in Hfuel; lia|].
    assert (Hok1 : ids_ok gistId (val r)).
    { destruct Hok as [?|Hall]; [by left|right].
      simpl in Hall. by apply Forall_app in Hall as [? _]. }
    assert (Hok2 : ids_ok gistId (concat rest)).
    { destruct Hok as [?|Hall]; [by left|right].
      simpl in Hall. by apply Forall_app in Hall as [_ ?]. }
    rewrite eachGist_from_S. unfold scan_turn. rewrite Hl, He.
    rewrite (gistNext_find _ _ _ _ Hok1). simpl concat.
    rewrite find_app_first.
    destruct (find (gist_matches gistId name) (val r)) as [g|]; simpl.
    + eexists. split; [done|]. exists [page]. done.
    + rewrite Hr. destruct (NextPage rs =? 0)%Z eqn:E;
        [apply Z.eqb_eq in E; done|].
      destruct (IH {| forge := s';
                      trace := trace w ++ [EvGistsList owner page perPage] |}
                   fuel eq_refl Hok2 ltac:(simpl in Hfuel; lia))
        as (w1 & Hrun & visited & Htr).
      exists w1. split; [done|]. exists (page :: visited).
      rewrite Htr. simpl. by rewrite <- app_assoc.
Qed.

(** C8: a gist get returns what the match rule selects among the gists
    in the order the forge serves them.  The scan yields the first gist
    that holds a file of the given name (wildcard) or whose identifier
    equals the selector; of that gist the named file's inline content is
    returned when present, else its raw-content URL is fetched and
    handed out as an auto-closing stream; when no gist is selected, or
    the selected gist has no file of that name, or the file has neither
    content nor URL, the result is [ErrNotFound]. *)
Theorem GetFromGist_match_rule gistId name w pages fuel :
  serves 0 (forge w) pages →
  ids_ok gistId (concat pages) →
  length pages ≤ fuel →
  ∃ w1,
    eachGist env perPage fuel owner (Some (gistNext gistId name)) None w
    = (Ret (find (gist_matches gistId name) (concat pages)), w1)
    ∧ GetFromGist env perPage fuel owner gistId name w
      = match find (gist_matches gistId name) (concat pages) with
        | None => (Fail ErrNotFound, w1)
        | Some g =>
            match g_Files g !! name with
            | None => (Fail ErrNotFound, w1)
            | Some file =>
                match gf_Content file with
                | Some c => (Ret (BufferString c), w1)
                | None =>
                    match gf_RawURL file with
                    | Some u => fetched u w1
                    | None => (Fail ErrNotFound, w1)
                    end
                end
            end
        end.
Proof.
  intros Hs Hok Hfuel.
  destruct (eachGist_from_find gistId name 0 w pages fuel Hs Hok Hfuel)
    as (w1 & Hrun & _).
  exists w1. split; [exact Hrun|].
  unfold GetFromGist. rewrite (bind_Ret _ _ _ _ _ Hrun).
  destruct (find (gist_matches gistId name) (concat pages)) as [g|]; [|done].
  destruct (g_Files g !! name) as [file|]; [|done].
  destruct (gf_Content file) as [c|]; [done|].
  destruct (gf_RawURL file) as [u|]; [|done].
  unfold GistSpec.fetched, httpGet, call, mbind, M_bind.
  destruct (httpCli_Do env u (forge w1)) as [[body e] s2]. simpl.
  destruct e; [done|]. by destruct body.
Qed.


End Served.

Lemma sample_serves :
  serves memEnv 2 "o" 0 sample [[gistA; gistB]; [gistC]].
Proof.
  exact (serves_more memEnv 2 "o" 0%Z sample (mem_Gists_List "o" 0 2 sample).1
           sample {| StatusCode := 200; NextPage := 2 |} [[gistC]]
           eq_refl eq_refl eq_refl ltac:(done)
           (serves_last memEnv 2 "o" 2%Z sample
              (mem_Gists_List "o" 2 2 sample).1 sample
              {| StatusCode := 200; NextPage := 0 |}
              eq_refl eq_refl eq_refl eq_refl)).
Defined.

Lemma sample_ids :
  Forall (λ g, is_Some (g_ID g)) (concat [[gistA; gistB]; [gistC]]).
Proof.
  simpl. repeat (apply Forall_cons; split; [eexists; reflexivity|]).
  apply Forall_nil_2.
Qed.

(** The wildcard get of [x] on the forge in memory: of the two gists
    holding a file [x] the first one served is read. *)
Lemma GetFromGist_match_rule_witness :
  (GetFromGist memEnv 2 5 "o" "*" "x" (start sample)).1
  = Ret (BufferString "old x").
Proof.
  destruct (GetFromGist_match_rule memEnv 2 "o" "*" "x" (start sample)
              [[gistA; gistB]; [gistC]] 5 sample_serves
              (or_introl eq_refl) ltac:(simpl; lia))
    as (w1 & _ & Hget).
  rewrite Hget. reflexivity.
Defined.


End GistFacts.

(** ** The release-asset driver *)

Module AssetFacts.
Import Forge MemForge.

Lemma call_run {St T} (ev : Event) (op : St → T * St) (w : world (St:=St)) :
  call ev op w
  = (Ret (op (forge w)).1,
     {| forge := (op (forge w)).2; trace := trace w ++ [ev] |}).
Proof. unfold call. by destruct (op (forge w)). Qed.

Ltac mstep :=
  repeat (progress (rewrite ?bind_unfold, ?call_run;
                    cbv beta iota delta [mret M_ret deref fail panic lift];
                    cbn [fst snd forge trace])).

Section Assets.
Context {St : Type} (env : Env St).

(** The loop over the assets deletes the first asset of the given name
    and stops; a failed delete is returned. *)
Lemma deleteExisting_first owner repo name pre a post aid w :
  Forall (λ b, ∃ n, a_Name b = Some n ∧ n ≠ name) pre →
  a_Name a = Some name → a_ID a = Some aid →
  deleteExisting env owner repo name (pre ++ a :: post) w
  = let del := Repositories_DeleteReleaseAsset env owner repo aid (forge w) in
    let w' := {| forge := del.2;
                 trace := trace w ++ [EvDeleteReleaseAsset owner repo aid] |} in
    match err del.1 with
    | Some e => (Fail e, w')
    | None => (Ret tt, w')
    end.
Proof.
  intros Hpre Hn Hid. induction Hpre as [|b pre (n & Hb & Hne) _ IH]; simpl.
  - rewrite Hn, Hid. unfold mbind, M_bind, deref, mret, M_ret, call. simpl.
    rewrite decide_True by done. simpl.
    destruct (Repositories_DeleteReleaseAsset env owner repo aid (forge w))
      as [del s']. simpl. by destruct (err del).
  - rewrite Hb. unfold mbind, M_bind, deref, mret, M_ret. simpl.
    rewrite decide_False by done. exact IH.
Qed.

(** The guard after the lookup by tag, when the lookup came with a
    response: the error is returned exactly when the status is not 404. *)
Lemma checkLookup_with_response {T} (r : reply T) e rs (w : world (St:=St)) :
  err r = Some e → resp r = Some rs →
  checkLookup r w
  = if (StatusCode rs =? 404)%Z then (Ret tt, w) else (Fail e, w).
Proof.
  intros He Hr. unfold checkLookup. rewrite He, Hr.
  unfold mbind, M_bind, deref, mret, M_ret. simpl.
  unfold StatusNotFound. by destruct (StatusCode rs =? 404)%Z.
Qed.

(** Without a response the guard dereferences a nil pointer. *)
Lemma checkLookup_without_response {T} (r : reply T) e (w : world (St:=St)) :
  err r = Some e → resp r = None → checkLookup r w = (Panic, w).
Proof. intros He Hr. unfold checkLookup. by rewrite He, Hr. Qed.

Lemma lookup_without_response_panics owner repo release name filename w e :
  let lookup := Repositories_GetReleaseByTag env owner repo release (forge w) in
  let w1 := {| forge := lookup.2;
               trace := trace w ++ [EvGetReleaseByTag owner repo release] |} in
  err lookup.1 = Some e → resp lookup.1 = None →
  GetFromReleasesAsset env owner repo release name w = (Panic, w1)
  ∧ putInReleasesAssetWithFile env owner repo release name filename w
    = (Panic, w1).
Proof.
  intros lookup w1 He Hr. subst lookup w1.
  unfold GetFromReleasesAsset, putInReleasesAssetWithFile. mstep.
  rewrite !(checkLookup_without_response _ e _ He Hr). done.
Qed.

(** C5: when the release exists and carries an asset of the given
    name, the put looks the release up, reads it, and deletes that
    asset before anything else.  If the delete fails the put returns
    the delete's error with no file opened and no upload requested.
    Otherwise the file is opened and uploaded; if the upload fails the
    put returns the upload's error, and the only call after the upload
    is the deferred close of the file: the deleted asset is not created
    again. *)
Theorem putAsset_deletes_before_upload
    owner repo release name filename w rel id rr pre a post aid :
  let lookup := Repositories_GetReleaseByTag env owner repo release (forge w) in
  let got := Repositories_GetRelease env owner repo id lookup.2 in
  let del := Repositories_DeleteReleaseAsset env owner repo aid got.2 in
  let t3 := trace w ++ [EvGetReleaseByTag owner repo release;
                        EvGetRelease owner repo id;
                        EvDeleteReleaseAsset owner repo aid] in
  let opened := os_Open env filename del.2 in
  let run := putInReleasesAssetWithFile env owner repo release name filename w in
  err lookup.1 = None → val lookup.1 = Some rel → r_ID rel = Some id →
  err got.1 = None → val got.1 = Some rr →
  r_Assets rr = pre ++ a :: post →
  Forall (λ b, ∃ n, a_Name b = Some n ∧ n ≠ name) pre →
  a_Name a = Some name → a_ID a = Some aid →
  (∀ e, err del.1 = Some e →
        run = (Fail e, {| forge := del.2; trace := t3 |}))
  ∧ (err del.1 = None →
     (∀ e, opened.1.2 = Some e →
           run = (Fail e, {| forge := opened.2;
                             trace := t3 ++ [EvOpen filename] |}))
     ∧ (∀ data, opened.1 = (Some data, None) →
          let up := Repositories_UploadReleaseAsset env owner repo id name data
                      opened.2 in
          let closed := os_Close env filename up.2 in
          let w6 := {| forge := closed.2;
                       trace := t3 ++ [EvOpen filename;
                                       EvUploadReleaseAsset owner repo id name data;
                                       EvClose filename] |} in
          (∀ e, err up.1 = Some e → run = (Fail e, w6))
          ∧ (err up.1 = None → ∀ ra url,
               val up.1 = Some ra → a_BrowserDownloadURL ra = Some url →
               run = (Ret url, w6)))).
Proof.
  intros lookup got del t3 opened run Hle Hlv Hrid Hge Hgv Hassets Hpre Hn Hid.
  assert (Hrun : run =
    match err del.1 with
    | Some e => (Fail e, {| forge := del.2; trace := t3 |})
    | None =>
        match opened.1.2 with
        | Some e => (Fail e, {| forge := opened.2;
                                trace := t3 ++ [EvOpen filename] |})
        | None =>
            with_defer
              (_ ← call (EvClose filename) (os_Close env filename); mret tt)
              (data ← deref opened.1.1;
               id' ← deref (Some id);
               rep ← call (EvUploadReleaseAsset owner repo id' name data)
                       (Repositories_UploadReleaseAsset env owner repo id' name data);
               match err rep with
               | Some e => fail e
               | None => respAsset ← deref (val rep);
                         deref (a_BrowserDownloadURL respAsset)
               end)
              {| forge := opened.2; trace := t3 ++ [EvOpen filename] |}
        end
    end).
  { subst run t3 opened del got lookup.
    unfold putInReleasesAssetWithFile.
    unfold mbind at 1, M_bind at 1, call at 1.
    destruct (Repositories_GetReleaseByTag env owner repo release (forge w))
      as [lookup s1]. simpl in *.
    unfold mbind at 1, M_bind at 1. unfold checkLookup at 1. rewrite Hle.
    unfold mret at 1, M_ret at 1. unfold releaseIDOf. rewrite Hlv, Hrid.
    unfold mbind at 1, M_bind at 1.
    unfold mbind at 1, M_bind at 1, call at 1. simpl.
    destruct (Repositories_GetRelease env owner repo id s1) as [got s2].
    simpl in *. rewrite Hge, Hgv.
    unfold mbind at 1, M_bind at 1, deref at 1, mret at 1, M_ret at 1.
    unfold mbind at 1, M_bind at 1. rewrite Hassets.
    rewrite (deleteExisting_first owner repo name pre a post aid _ Hpre Hn Hid).
    simpl.
    destruct (Repositories_DeleteReleaseAsset env owner repo aid s2)
      as [del s3]. simpl.
    rewrite <- !app_assoc. simpl.
    destruct (err del) as [e|]; [done|].
    unfold mret at 1, M_ret at 1.
    unfold mbind at 1, M_bind at 1, call at 1. simpl.
    destruct (os_Open env filename s3) as [[f operr] s4]. simpl.
    rewrite <- !app_assoc. simpl.
    by destruct operr. }
  split.
  - intros e He. rewrite Hrun, He. done.
  - intros Hd. rewrite Hd in Hrun. split.
    + intros e He. by rewrite Hrun, He.
    + intros data Hdata up closed w6. rewrite Hdata in Hrun. simpl in Hrun.
      assert (Hbody : run =
        match err up.1 with
        | Some e => (Fail e, w6)
        | None =>
            match val up.1 with
            | None => (Panic, w6)
            | Some ra =>
                match a_BrowserDownloadURL ra with
                | Some url => (Ret url, w6)
                | None => (Panic, w6)
                end
            end
        end).
      { rewrite Hrun. subst w6 closed up. unfold with_defer. mstep.
        destruct (err (Repositories_UploadReleaseAsset env owner repo id name
                         data opened.2).1) as [e|]; mstep.
        { by rewrite <- !app_assoc. }
        destruct (val (Repositories_UploadReleaseAsset env owner repo id name
                         data opened.2).1) as [ra|]; mstep;
          [|by rewrite <- !app_assoc].
        destruct (a_BrowserDownloadURL ra); mstep; by rewrite <- !app_assoc. }
      split.
      * intros e He. by rewrite Hbody, He.
      * intros Hu ra url Hra Hurl. by rewrite Hbody, Hu, Hra, Hurl.
Qed.

End Assets.

(** The put of [tool.tgz] on the release [v1] of the forge in memory,
    which carries an asset of that name with identifier 7. *)
Lemma putAsset_deletes_before_upload_witness :
  let run := putInReleasesAssetWithFile memEnv "o" "r" "v1" "tool.tgz"
               "/tmp/tool.tgz" (start sample) in
  run.1 = Ret "https://forge.example/o/r/releases/download/5/tool.tgz"
  ∧ trace run.2
    = [EvGetReleaseByTag "o" "r" "v1"; EvGetRelease "o" "r" 5;
       EvDeleteReleaseAsset "o" "r" 7; EvOpen "/tmp/tool.tgz";
       EvUploadReleaseAsset "o" "r" 5 "tool.tgz" "new bytes";
       EvClose "/tmp/tool.tgz"].
Proof.
  destruct (putAsset_deletes_before_upload memEnv "o" "r" "v1" "tool.tgz"
              "/tmp/tool.tgz" (start sample) releaseV1 5%Z releaseV1
              [ {| a_ID := Some 6%Z; a_Name := Some "notes.txt";
                   a_BrowserDownloadURL := None |} ] assetOld [] 7%Z
              eq_refl eq_refl eq_refl eq_refl eq_refl eq_refl
              ltac:(apply Forall_cons; split;
                      [by exists "notes.txt" | apply Forall_nil_2])
              eq_refl eq_refl)
    as [_ Hok].
  destruct (Hok eq_refl) as [_ Hup].
  destruct (Hup "new bytes" eq_refl) as [_ Hdone].
  cbv zeta. rewrite (Hdone eq_refl _ _ eq_refl eq_refl). split; reflexivity.
Defined.

(** When the forge refuses the upload, the put fails after the delete:
    the release is left without the asset it had. *)
Example asset_lost_when_upload_fails :
  let refusing :=
    {| m_gists := []; m_releases := [releaseV1]; m_web := ∅;
       m_files := {[ "/tmp/tool.tgz" := "new bytes" ]}; m_next := 10;
       m_offline := false; m_uploadError := Some (other "422 Validation Failed") |} in
  let run := putInReleasesAssetWithFile memEnv "o" "r" "v1" "tool.tgz"
               "/tmp/tool.tgz" (start refusing) in
  run.1 = Fail (other "422 Validation Failed")
  ∧ (λ r, a_Name <$> r_Assets r) <$> m_releases (forge run.2)
    = [[Some "notes.txt"]]
  ∧ last (trace run.2) = Some (EvClose "/tmp/tool.tgz").
Proof. vm_compute. done. Qed.

(** C10 fails on the code: when the lookup by tag returns an error and
    no response (the forge cannot be reached), both drivers dereference
    the nil response and panic. *)
Theorem lookup_error_without_response_panics :
  Repositories_GetReleaseByTag memEnv "o" "r" "v1" (offline sample)
  = ({| val := None; resp := None; err := Some (other "connection refused") |},
     offline sample)
  ∧ (GetFromReleasesAsset memEnv "o" "r" "v1" "tool.tgz"
       (start (offline sample))).1 = Panic
  ∧ (putInReleasesAssetWithFile memEnv "o" "r" "v1" "tool.tgz" "/tmp/tool.tgz"
       (start (offline sample))).1 = Panic
  ∧ (eachReleases (A:=unit) memEnv 100 5 "o" "r" None tt
       (start (offline sample))).1 = Fail (other "connection refused").
Proof. vm_compute. done. Qed.

End AssetFacts.

(** ** The git mirror driver *)

Module GitFacts.
Import Git GitSample GitSpec.

(** *** Stepping through computations *)

Lemma bind_Ret_inv {W A B} (m : M W A) (f : A → M W B) w b w'' :
  (m ≫= f) w = (Ret b, w'') →
  ∃ a w', m w = (Ret a, w') ∧ f a w' = (Ret b, w'').
Proof.
  rewrite bind_unfold. destruct (m w) as [[a| | |] w']; try done. eauto.
Qed.

Lemma try_inv {W A} (m : M W A) w x w' :
  try m w = (Ret x, w') →
  (∃ a, x = inr a ∧ m w = (Ret a, w')) ∨ (∃ e, x = inl e ∧ m w = (Fail e, w')).
Proof.
  unfold try. destruct (m w) as [[a|e| |] w1]; intros [= <- <-]; eauto.
Qed.

Lemma wrapping_Ret_inv {A} ctx (m : M world A) w a w' :
  wrapping ctx m w = (Ret a, w') → m w = (Ret a, w').
Proof. unfold wrapping. by destruct (m w) as [[?|?| |] ?]. Qed.

Lemma lib_Ret {A} ev (work : M world A) w a w' :
  lib ev work w = (Ret a, w') → work (log ev w) = (Ret a, w').
Proof. unfold lib. by destruct (faults w (length (trace w))). Qed.

(** *** What a call may change *)

Lemma unchanged_refl w : unchanged w w.
Proof. done. Qed.

Lemma unchanged_log ev w : unchanged w (log ev w).
Proof. done. Qed.

Lemma unchanged_trans w1 w2 w3 :
  unchanged w1 w2 → unchanged w2 w3 → unchanged w1 w3.
Proof.
  intros (?&?&?&?) (?&?&?&?). repeat split; congruence.
Qed.

Lemma unchanged_the_dir w w' dir : unchanged w w' → the_dir w' dir = the_dir w dir.
Proof. intros (H&_). unfold the_dir. by rewrite H. Qed.

Lemma lib_fails_clean {A} ev (work : M world A) :
  (∀ w e w', work w = (Fail e, w') → w' = w) → fails_clean (lib ev work).
Proof.
  intros Hw w e w'. unfold lib.
  destruct (faults w (length (trace w))).
  - intros [= _ <-]. apply unchanged_log.
  - intros H. apply Hw in H as ->. apply unchanged_log.
Qed.

Lemma on_repo_fail_same {A} dir (k : Repository → M world A) :
  (∀ r w e w', k r w = (Fail e, w') → w' = w) →
  ∀ w e w', on_repo dir k w = (Fail e, w') → w' = w.
Proof.
  intros Hk w e w'. unfold on_repo.
  destruct (dotgit (the_dir w dir)) as [r|]; [apply Hk|]. by intros [= _ <-].
Qed.

(** *** The references of a mirror this driver owns *)

Lemma heads_ne_tracking b : heads b ≠ tracking b.
Proof. done. Qed.
Lemma heads_ne_HEAD b : heads b ≠ HEAD.
Proof. done. Qed.
Lemma tracking_ne_HEAD b : tracking b ≠ HEAD.
Proof. done. Qed.

Lemma heads_before_tracking b : ref_before (heads b) (tracking b) = true.
Proof. reflexivity. Qed.
Lemma tracking_before_heads b : ref_before (tracking b) (heads b) = false.
Proof. reflexivity. Qed.
Lemma before_HEAD n : n ≠ HEAD → ref_before n HEAD = true.
Proof. intros H. unfold ref_before. by rewrite decide_False, decide_True. Qed.
Lemma HEAD_before n : ref_before HEAD n = false.
Proof. unfold ref_before. by rewrite decide_True. Qed.

Ltac shape_cases lb rt :=
  destruct lb as [?|], rt as [?|]; unfold shape, opt_ref, NewHashReference,
    NewSymbolicReference; cbn [app set_ref ref_name];
  repeat first
    [ rewrite decide_True by done
    | rewrite decide_False by
        first [ apply heads_ne_tracking | apply heads_ne_HEAD
              | apply tracking_ne_HEAD
              | apply not_eq_sym; apply heads_ne_tracking
              | apply not_eq_sym; apply heads_ne_HEAD
              | apply not_eq_sym; apply tracking_ne_HEAD ]
    | rewrite heads_before_tracking
    | rewrite tracking_before_heads
    | rewrite (before_HEAD _ (heads_ne_HEAD _))
    | rewrite (before_HEAD _ (tracking_ne_HEAD _))
    | rewrite HEAD_before
    | progress cbn [app set_ref ref_name] ].

Lemma set_ref_HEAD b lb rt ht t :
  set_ref {| ref_name := HEAD; ref_target := t |} (shape b lb rt ht)
  = shape b lb rt t.
Proof. shape_cases lb rt; reflexivity. Qed.

Lemma set_ref_heads b lb rt ht h :
  set_ref (NewHashReference (heads b) h) (shape b lb rt ht)
  = shape b (Some h) rt ht.
Proof. shape_cases lb rt; reflexivity. Qed.

Lemma set_ref_tracking b lb rt ht h :
  set_ref (NewHashReference (tracking b) h) (shape b lb rt ht)
  = shape b lb (Some h) ht.
Proof. shape_cases lb rt; reflexivity. Qed.

Lemma lookup_ref_cons n x l :
  lookup_ref n (x :: l)
  = if decide (ref_name x = n) then Some (ref_target x) else lookup_ref n l.
Proof.
  unfold lookup_ref. simpl. destruct (decide (ref_name x = n)).
  - by rewrite bool_decide_eq_true_2.
  - by rewrite bool_decide_eq_false_2.
Qed.

Ltac lookup_cases lb rt :=
  destruct lb as [?|], rt as [?|]; unfold shape, opt_ref, NewHashReference;
  cbn [app]; rewrite ?lookup_ref_cons; cbn [ref_name ref_target];
  repeat first
    [ rewrite decide_True by done
    | rewrite decide_False by
        first [ apply heads_ne_tracking | apply heads_ne_HEAD
              | apply tracking_ne_HEAD
              | apply not_eq_sym; apply heads_ne_tracking
              | apply not_eq_sym; apply heads_ne_HEAD
              | apply not_eq_sym; apply tracking_ne_HEAD ] ].

Lemma lookup_ref_HEAD b lb rt ht : lookup_ref HEAD (shape b lb rt ht) = Some ht.
Proof. lookup_cases lb rt; reflexivity. Qed.

Lemma lookup_ref_heads b lb rt t :
  lookup_ref (heads b) (shape b lb rt (SymbolicTarget t)) = HashTarget <$> lb.
Proof. lookup_cases lb rt; reflexivity. Qed.

Lemma lookup_ref_tracking b lb rt ht :
  lookup_ref (tracking b) (shape b lb rt ht) = HashTarget <$> rt.
Proof. lookup_cases lb rt; reflexivity. Qed.

Lemma resolve_head_shape b lb rt :
  resolve_head (shape b lb rt (SymbolicTarget (heads b))) = default ZeroHash lb.
Proof.
  unfold resolve_head. rewrite lookup_ref_HEAD, lookup_ref_heads.
  by destruct lb.
Qed.

Lemma head_target_shape b lb rt t :
  head_target (shape b lb rt (SymbolicTarget t)) = Some t.
Proof. unfold head_target. by rewrite lookup_ref_HEAD. Qed.

Lemma head_shape b lb rt t :
  ∃ x rest, shape b lb rt (SymbolicTarget t) = x :: rest
            ∧ Reference_Hash x = first_hash lb rt.
Proof. destruct lb, rt; eexists _, _; split; reflexivity. Qed.

(** *** The state of a mirror *)

Lemma store_same_refl w : store_same w w.
Proof. done. Qed.

Lemma store_same_trans w1 w2 w3 :
  store_same w1 w2 → store_same w2 w3 → store_same w1 w3.
Proof. intros [? ?] [? ?]. split; congruence. Qed.

Lemma unchanged_store_same w w' : unchanged w w' → store_same w w'.
Proof. intros (_&?&?&_). done. Qed.

Lemma the_dir_put_repo dir r w :
  the_dir (put_repo dir r w) dir
  = {| dotgit := Some r; files := files (the_dir w dir) |}.
Proof. unfold the_dir, put_repo. simpl. by rewrite lookup_insert_eq. Qed.

Lemma the_dir_put_files dir fs w :
  the_dir (put_files dir fs w) dir
  = {| dotgit := dotgit (the_dir w dir); files := fs |}.
Proof. unfold the_dir, put_files. simpl. by rewrite lookup_insert_eq. Qed.

Lemma mirror_at_unchanged dir b w w' l idx fs :
  unchanged w w' → mirror_at dir b w l idx fs → mirror_at dir b w' l idx fs.
Proof.
  intros Hu (r & Hd & H). exists r. by rewrite (unchanged_the_dir _ _ _ Hu).
Qed.

Lemma lib_observes {A} ev (work : M world A) :
  (∀ w, (work w).2 = w) → observes (lib ev work).
Proof.
  intros Hw w. unfold lib. destruct (faults w (length (trace w))).
  - apply unchanged_log.
  - rewrite Hw. apply unchanged_log.
Qed.

Lemma on_repo_same {A} dir (k : Repository → M world A) :
  (∀ r w, (k r w).2 = w) → ∀ w, (on_repo dir k w).2 = w.
Proof. intros Hk w. unfold on_repo. by destruct (dotgit (the_dir w dir)). Qed.

Lemma observes_MkdirAll path : observes (os_MkdirAll path).
Proof. by apply lib_observes. Qed.
Lemma observes_Stat dir : observes (os_Stat_dotgit dir).
Proof. apply lib_observes, on_repo_same. done. Qed.
Lemma observes_PlainOpen dir : observes (PlainOpen dir).
Proof. apply lib_observes, on_repo_same. done. Qed.
Lemma observes_Remote dir n : observes (Repository_Remote dir n).
Proof.
  apply lib_observes, on_repo_same. intros r w.
  by destruct (find _ (remotes r)).
Qed.
Lemma observes_Branch dir n : observes (Repository_Branch dir n).
Proof.
  apply lib_observes, on_repo_same. intros r w.
  by destruct (find _ (branches r)).
Qed.
Lemma observes_IterReferences dir : observes (Storer_IterReferences dir).
Proof. apply lib_observes, on_repo_same. done. Qed.
Lemma observes_Next dir it : observes (ReferenceIter_Next dir it).
Proof. apply lib_observes. intros w. by destruct it. Qed.
Lemma observes_Worktree dir : observes (Repository_Worktree dir).
Proof. apply lib_observes, on_repo_same. done. Qed.
Lemma observes_Close dir n : observes (File_Close dir n).
Proof. by apply lib_observes. Qed.
Lemma observes_Status dir : observes (Worktree_Status dir).
Proof. apply lib_observes, on_repo_same. done. Qed.
Lemma observes_Open dir n : observes (os_Open dir n).
Proof.
  apply lib_observes. intros w. by destruct (files (the_dir w dir) !! n).
Qed.

Lemma observes_run {A} (m : M world A) w o w' :
  observes m → m w = (o, w') → unchanged w w'.
Proof. intros Hm H. specialize (Hm w). by rewrite H in Hm. Qed.

Lemma observes_try {A} (m : M world A) w x w' :
  observes m → try m w = (Ret x, w') → unchanged w w'.
Proof.
  intros Hm H. apply try_inv in H as [(a & _ & H)|(e & _ & H)];
    by apply (observes_run _ _ _ _ Hm) in H.
Qed.

(** Calls on the repository of a mirror that succeed. *)
Ltac on_mirror H r Hd :=
  apply lib_Ret in H; unfold on_repo in H;
  match type of H with
  | context [the_dir (log ?ev ?w) ?dir] =>
      change (the_dir (log ev w) dir) with (the_dir w dir) in H
  end;
  rewrite Hd in H; cbn [dotgit files] in H.

Lemma PlainOpen_Ret dir w d w' : PlainOpen dir w = (Ret d, w') → d = dir.
Proof.
  intros H. apply lib_Ret in H. unfold on_repo in H.
  destruct (dotgit (the_dir (log _ w) dir)); by injection H.
Qed.

Lemma Worktree_Ret dir w d w' : Repository_Worktree dir w = (Ret d, w') → d = dir.
Proof.
  intros H. apply lib_Ret in H. unfold on_repo in H.
  destruct (dotgit (the_dir (log _ w) dir)); by injection H.
Qed.

Lemma Stat_Ret dir w w' :
  os_Stat_dotgit dir w = (Ret tt, w') → is_Some (dotgit (the_dir w dir)).
Proof.
  intros H. apply lib_Ret in H. unfold on_repo in H.
  change (the_dir (log _ w) dir) with (the_dir w dir) in H.
  destruct (dotgit (the_dir w dir)); [eauto | done].
Qed.

Lemma PlainInit_Ret dir b w d w' :
  PlainInit dir w = (Ret d, w') →
  d = dir ∧ dotgit (the_dir w dir) = None
  ∧ mirror_at dir b w'
      [NewSymbolicReference HEAD "refs/heads/master"] ∅ (files (the_dir w dir))
  ∧ store_same w w'.
Proof.
  intros H. apply lib_Ret in H.
  change (the_dir (log _ w) dir) with (the_dir w dir) in H.
  destruct (dotgit (the_dir w dir)) eqn:E; [done|].
  simplify_eq. split; [done|]. split; [done|]. split; [|done].
  eexists. rewrite the_dir_put_repo. split; [reflexivity|].
  split; [done|]. split; [done|]. by intros c.
Qed.

Lemma SetReference_Ret dir b ref w w' l idx fs :
  mirror_at dir b w l idx fs →
  Storer_SetReference dir ref w = (Ret tt, w') →
  mirror_at dir b w' (set_ref ref l) idx fs ∧ store_same w w'.
Proof.
  intros (r & Hd & <- & <- & Hrem) H. on_mirror H r Hd.
  simplify_eq. split; [|done].
  eexists. rewrite the_dir_put_repo.
  change (the_dir (log _ w) dir) with (the_dir w dir). rewrite Hd.
  split; [reflexivity|]. done.
Qed.

Lemma find_app_none {A} (f : A → bool) l x :
  find f l = None → find f (l ++ [x]) = if f x then Some x else None.
Proof.
  induction l as [|y l IH]; simpl; [done|].
  destruct (f y); [done|]. exact IH.
Qed.

Lemma existsb_false_find {A} (f : A → bool) l :
  existsb f l = false → find f l = None.
Proof.
  induction l as [|y l IH]; simpl; [done|].
  destruct (f y); [done|]. exact IH.
Qed.

Lemma CreateRemote_Ret s owner repo dir b w c w' l idx fs :
  mirror_at dir b w l idx fs →
  Repository_CreateRemote dir
    {| rc_Name := gitRemoteName b; rc_URLs := [gitURL s owner repo];
       rc_Fetch := [fetchRefSpec b (gitRemoteName b)] |} w = (Ret c, w') →
  mirror_at dir b w' l idx fs ∧ store_same w w'.
Proof.
  intros (r & Hd & <- & <- & Hrem) H. on_mirror H r Hd.
  destruct (existsb _ (remotes r)) eqn:E; [done|].
  simplify_eq. split; [|done].
  eexists. rewrite the_dir_put_repo.
  change (the_dir (log _ w) dir) with (the_dir w dir). rewrite Hd.
  split; [reflexivity|]. split; [done|]. split; [done|].
  intros c. simpl. rewrite (find_app_none _ _ _ (existsb_false_find _ _ E)).
  simpl. rewrite bool_decide_eq_true_2 by done. by intros [= <-].
Qed.

Lemma CreateBranch_Ret dir b c w w' l idx fs :
  mirror_at dir b w l idx fs →
  Repository_CreateBranch dir c w = (Ret tt, w') →
  mirror_at dir b w' l idx fs ∧ store_same w w'.
Proof.
  intros (r & Hd & <- & <- & Hrem) H. on_mirror H r Hd.
  destruct (existsb _ (branches r)) eqn:E; [done|].
  simplify_eq. split; [|done].
  eexists. rewrite the_dir_put_repo.
  change (the_dir (log _ w) dir) with (the_dir w dir). rewrite Hd.
  split; [reflexivity|]. done.
Qed.

Lemma FetchContext_fails_clean dir remote n rs auth :
  fails_clean (Remote_FetchContext dir remote n rs auth).
Proof.
  apply lib_fails_clean, on_repo_fail_same. intros r w e w'.
  destruct (rc_URLs remote) as [|url ?]; [by intros [= _ <-]|].
  destruct rs as [|spec ?]; [by intros [= _ <-]|]. cbv zeta.
  destruct (decide (default ∅ (upstream w !! url) = ∅)); [by intros [= _ <-]|].
  destruct (default ∅ (upstream w !! url) !! rs_src spec);
    [|by intros [= _ <-]].
  destruct (decide (lookup_ref _ _ = _)); [by intros [= _ <-]|done].
Qed.

Lemma FetchContext_Ret dir b remote w w' lb rt ht idx fs auth :
  mirror_at dir b w (shape b lb rt ht) idx fs →
  Remote_FetchContext dir remote (gitRemoteName b)
    [fetchRefSpec b (gitRemoteName b)] auth w = (Ret tt, w') →
  ∃ tip, mirror_at dir b w' (shape b lb (Some tip) ht) idx fs
         ∧ store_same w w'.
Proof.
  intros (r & Hd & Hl & <- & Hrem) H. on_mirror H r Hd.
  destruct (rc_URLs remote) as [|url ?]; [done|]. cbv zeta in H.
  change (upstream (log _ w)) with (upstream w) in H.
  destruct (decide (default ∅ (upstream w !! url) = ∅)); [done|].
  destruct (default ∅ (upstream w !! url) !! _) as [tip|]; [|done].
  destruct (decide (lookup_ref _ _ = _)); [done|].
  simplify_eq. exists tip. split; [|done].
  eexists. rewrite the_dir_put_repo.
  change (the_dir (log _ w) dir) with (the_dir w dir). rewrite Hd.
  split; [reflexivity|]. split; [|done]. simpl. rewrite Hl.
  apply set_ref_tracking.
Qed.

Lemma IterReferences_Ret dir b w it w' l idx fs :
  mirror_at dir b w l idx fs →
  Storer_IterReferences dir w = (Ret it, w') → it = l.
Proof.
  intros (r & Hd & <- & <- & Hrem) H. on_mirror H r Hd. by injection H.
Qed.

Lemma Next_Ret dir it w x w' :
  ReferenceIter_Next dir it w = (Ret x, w') → head it = Some x.
Proof.
  intros H. apply lib_Ret in H. destruct it; [done|].
  unfold mret, M_ret in H. by simplify_eq.
Qed.

Lemma Reset_Ret dir b h w w' lb rt idx fs :
  mirror_at dir b w (shape b lb rt (SymbolicTarget (heads b))) idx fs →
  Worktree_Reset_Hard dir h w = (Ret tt, w') →
  ∃ c, commit_at (objects w) h = Some c
       ∧ mirror_at dir b w' (shape b (Some h) rt (SymbolicTarget (heads b)))
           (c_tree c) (c_tree c ∪ filter (λ kv, idx !! kv.1 = None) fs)
       ∧ store_same w w'.
Proof.
  intros (r & Hd & Hl & <- & Hrem) H. on_mirror H r Hd.
  change (objects (log _ w)) with (objects w) in H.
  rewrite Hl, head_target_shape in H.
  destruct (commit_at (objects w) h) as [c|]; [|done].
  simplify_eq. exists c. split; [done|]. split; [|done].
  eexists. rewrite the_dir_put_files, the_dir_put_repo.
  change (the_dir (log _ w) dir) with (the_dir w dir). rewrite Hd.
  split; [reflexivity|]. split; [|done]. simpl. apply set_ref_heads.
Qed.

Lemma OpenFile_Ret dir b name w w' l idx fs :
  mirror_at dir b w l idx fs →
  os_OpenFile dir name w = (Ret tt, w') →
  mirror_at dir b w' l idx (<[name := EmptyString]> fs) ∧ store_same w w'.
Proof.
  intros (r & Hd & <- & <- & Hrem) H. apply lib_Ret in H.
  simplify_eq. split; [|done].
  exists r. rewrite the_dir_put_files.
  change (the_dir (log _ w) dir) with (the_dir w dir). by rewrite Hd.
Qed.

Lemma Copy_Ret dir b name data w w' l idx fs :
  mirror_at dir b w l idx fs →
  io_Copy dir name data w = (Ret tt, w') →
  mirror_at dir b w' l idx (<[name := data]> fs) ∧ store_same w w'.
Proof.
  intros (r & Hd & <- & <- & Hrem) H. apply lib_Ret in H.
  simplify_eq. split; [|done].
  exists r. rewrite the_dir_put_files.
  change (the_dir (log _ w) dir) with (the_dir w dir). by rewrite Hd.
Qed.

Lemma Add_Ret dir b name w w' l idx fs :
  mirror_at dir b w l idx fs →
  Worktree_Add dir name w = (Ret tt, w') →
  ∃ c, fs !! name = Some c
       ∧ mirror_at dir b w' l (<[name := c]> idx) fs ∧ store_same w w'.
Proof.
  intros (r & Hd & <- & <- & Hrem) H. on_mirror H r Hd.
  destruct (fs !! name) as [c|]; [|done].
  simplify_eq. exists c. split; [done|]. split; [|done].
  eexists. rewrite the_dir_put_repo.
  change (the_dir (log _ w) dir) with (the_dir w dir). rewrite Hd.
  split; [reflexivity|]. done.
Qed.

Lemma Status_Ret dir b w st w' l idx fs :
  mirror_at dir b w l idx fs →
  Worktree_Status dir w = (Ret st, w') →
  st = status_of (tree_at (objects w) (resolve_head l)) idx fs.
Proof.
  intros (r & Hd & <- & <- & Hrem) H. on_mirror H r Hd. by simplify_eq.
Qed.

(** *** The phases of [fetchGit] *)

Ltac bind_inv H a w1 H1 := apply bind_Ret_inv in H as (a & w1 & H1 & H).

Section Phases.
Variable s : PutInGH.
Variables owner repo b : string.

Abbreviation dir := (mirrorDir s owner repo b).
Abbreviation owned_mirror := (GitSpec.owned_mirror s owner repo b).

(** Opening leaves an existing mirror as it is and makes a missing one
    an empty repository. *)
Lemma fetchGit_open_existing w repository w' l idx fs :
  mirror_at dir b w l idx fs →
  fetchGit_open dir w = (Ret repository, w') →
  repository = dir ∧ mirror_at dir b w' l idx fs ∧ store_same w w'.
Proof.
  intros Hm H. unfold fetchGit_open in H.
  bind_inv H st w1 H1. bind_inv H opened w2 H2.
  pose proof (observes_try _ _ _ _ (observes_Stat dir) H1) as U1.
  destruct opened as [err|d]; [done|]. unfold mret, M_ret in H. simplify_eq.
  apply try_inv in H2 as [(a & [= <-] & H2)|(e & ? & _)]; [|done].
  destruct st as [e|[]].
  - apply (PlainInit_Ret _ b) in H2 as (_ & Hnone & _).
    rewrite (unchanged_the_dir _ _ _ U1) in Hnone.
    destruct Hm as (r & Hd & _). by rewrite Hd in Hnone.
  - pose proof (observes_run _ _ _ _ (observes_PlainOpen dir) H2) as U2.
    apply PlainOpen_Ret in H2 as ->. split; [done|].
    pose proof (unchanged_trans _ _ _ U1 U2) as U.
    split; [by apply (mirror_at_unchanged _ _ _ _ _ _ _ U)|].
    by apply unchanged_store_same.
Qed.

Lemma fetchGit_open_fresh w repository w' :
  dotgit (the_dir w dir) = None →
  fetchGit_open dir w = (Ret repository, w') →
  repository = dir
  ∧ mirror_at dir b w'
      (shape b None None (SymbolicTarget "refs/heads/master")) ∅
      (files (the_dir w dir))
  ∧ store_same w w'.
Proof.
  intros Hnone H. unfold fetchGit_open in H.
  bind_inv H st w1 H1. bind_inv H opened w2 H2.
  pose proof (observes_try _ _ _ _ (observes_Stat dir) H1) as U1.
  destruct opened as [err|d]; [done|]. unfold mret, M_ret in H. simplify_eq.
  apply try_inv in H2 as [(a & [= <-] & H2)|(e & ? & _)]; [|done].
  destruct st as [e|[]].
  - apply (PlainInit_Ret _ b) in H2 as (-> & _ & Hm & Hs).
    rewrite (unchanged_the_dir _ _ _ U1) in Hm. split; [done|].
    split; [exact Hm|].
    exact (store_same_trans _ _ _ (unchanged_store_same _ _ U1) Hs).
  - apply try_inv in H1 as [(a & _ & H1)|(e & ? & _)]; [|done].
    destruct a. apply Stat_Ret in H1 as [r Hr]. by rewrite Hnone in Hr.
Qed.

(** Configuring points [HEAD] at the branch and touches no other
    reference, nor the index, nor the files. *)
Lemma fetchGit_configure_spec w remote w' lb rt ht idx fs :
  mirror_at dir b w (shape b lb rt ht) idx fs →
  fetchGit_configure s owner repo b dir w = (Ret remote, w') →
  mirror_at dir b w' (shape b lb rt (SymbolicTarget (heads b))) idx fs
  ∧ store_same w w'.
Proof.
  intros Hm H. unfold fetchGit_configure in H. cbv zeta in H.
  bind_inv H u1 w1 H1. destruct u1.
  apply (SetReference_Ret _ _ _ _ _ _ _ _ Hm) in H1 as [Hm1 S1].
  unfold NewSymbolicReference in Hm1. rewrite set_ref_HEAD in Hm1.
  bind_inv H found w2 H2.
  pose proof (observes_try _ _ _ _ (observes_Remote _ _) H2) as U2.
  apply (mirror_at_unchanged _ _ _ _ _ _ _ U2) in Hm1.
  bind_inv H rem w3 H3.
  assert (mirror_at dir b w3 (shape b lb rt (SymbolicTarget (heads b))) idx fs
          ∧ store_same w2 w3) as [Hm3 S3].
  { destruct found as [err|c].
    - destruct (negb (errors_Is err ErrRemoteNotFound)); [done|].
      by apply (CreateRemote_Ret _ _ _ _ _ _ _ _ _ _ _ Hm1) in H3.
    - unfold mret, M_ret in H3. by simplify_eq. }
  bind_inv H br w4 H4.
  pose proof (observes_try _ _ _ _ (observes_Branch _ _) H4) as U4.
  apply (mirror_at_unchanged _ _ _ _ _ _ _ U4) in Hm3.
  bind_inv H u5 w5 H5.
  assert (mirror_at dir b w5 (shape b lb rt (SymbolicTarget (heads b))) idx fs
          ∧ store_same w4 w5) as [Hm5 S5].
  { destruct br as [err|c].
    - destruct (negb (errors_Is err ErrBranchNotFound)); [done|].
      bind_inv H5 u6 w6 H6. destruct u6.
      apply (CreateBranch_Ret _ _ _ _ _ _ _ _ Hm3) in H6 as [Hm6 S6].
      bind_inv H5 c7 w7 H7.
      pose proof (observes_run _ _ _ _ (observes_Branch _ _) H7) as U7.
      unfold mret, M_ret in H5. simplify_eq.
      split; [by apply (mirror_at_unchanged _ _ _ _ _ _ _ U7)|].
      exact (store_same_trans _ _ _ S6 (unchanged_store_same _ _ U7)).
    - unfold mret, M_ret in H5. by simplify_eq. }
  unfold mret, M_ret in H. simplify_eq. split; [done|].
  eapply store_same_trans; [exact S1|].
  eapply store_same_trans; [exact (unchanged_store_same _ _ U2)|].
  eapply store_same_trans; [exact S3|].
  eapply store_same_trans; [exact (unchanged_store_same _ _ U4)|]. exact S5.
Qed.

Lemma fetchGit_bind_spec w remote w' lb rt idx fs :
  owned_mirror w lb rt idx fs →
  fetchGit_bind s owner repo b w = (Ret remote, w') →
  mirror_at dir b w' (shape b lb rt (SymbolicTarget (heads b))) idx fs
  ∧ store_same w w'.
Proof.
  intros Ho H. unfold fetchGit_bind in H. cbv zeta in H.
  bind_inv H u0 w0 H0.
  pose proof (observes_try _ _ _ _ (observes_MkdirAll _) H0) as U0.
  bind_inv H repository w1 H1.
  destruct Ho as [[ht Hm]|(Hnone & -> & -> & -> & ->)].
  - apply (mirror_at_unchanged _ _ _ _ _ _ _ U0) in Hm.
    apply (fetchGit_open_existing _ _ _ _ _ _ Hm) in H1 as (-> & Hm1 & S1).
    apply (fetchGit_configure_spec _ _ _ _ _ _ _ _ Hm1) in H as [Hm2 S2].
    split; [done|].
    eapply store_same_trans; [exact (unchanged_store_same _ _ U0)|].
    eapply store_same_trans; [exact S1|exact S2].
  - rewrite <- (unchanged_the_dir _ _ dir U0) in Hnone.
    apply (fetchGit_open_fresh _ _ _ Hnone) in H1 as (-> & Hm1 & S1).
    rewrite (unchanged_the_dir _ _ dir U0) in Hm1.
    apply (fetchGit_configure_spec _ _ _ _ _ _ _ _ Hm1) in H as [Hm2 S2].
    split; [done|].
    eapply store_same_trans; [exact (unchanged_store_same _ _ U0)|].
    eapply store_same_trans; [exact S1|exact S2].
Qed.

(** The fetch moves the remote-tracking reference, or nothing. *)
Lemma fetchGit_fetch_spec w remote x w' lb rt idx fs :
  mirror_at dir b w (shape b lb rt (SymbolicTarget (heads b))) idx fs →
  fetchGit_fetch s owner repo b remote w = (Ret x, w') →
  ∃ rt', mirror_at dir b w' (shape b lb rt' (SymbolicTarget (heads b))) idx fs
         ∧ store_same w w'.
Proof.
  intros Hm H. unfold fetchGit_fetch in H. cbv zeta in H.
  apply try_inv in H as [([] & _ & H)|(e & _ & H)].
  - apply (FetchContext_Ret _ _ _ _ _ _ _ _ _ _ _ Hm) in H as (tip & Hm' & S').
    by exists (Some tip).
  - apply FetchContext_fails_clean in H. exists rt.
    split; [by apply (mirror_at_unchanged _ _ _ _ _ _ _ H)|].
    by apply unchanged_store_same.
Qed.

(** The sync looks at the first reference the iterator yields: with a
    zero hash nothing is touched; otherwise the local branch is set to
    that hash and index and tracked files are reset to its commit. *)
Lemma fetchGit_sync_spec w d1 d2 w' lb rt idx fs :
  mirror_at dir b w (shape b lb rt (SymbolicTarget (heads b))) idx fs →
  fetchGit_sync s owner repo b w = (Ret (d1, d2), w') →
  d1 = dir ∧ d2 = dir ∧ store_same w w'
  ∧ if IsZero (first_hash lb rt)
    then mirror_at dir b w' (shape b lb rt (SymbolicTarget (heads b))) idx fs
    else ∃ c, commit_at (objects w) (first_hash lb rt) = Some c
              ∧ mirror_at dir b w'
                  (shape b (Some (first_hash lb rt)) rt
                     (SymbolicTarget (heads b)))
                  (c_tree c)
                  (c_tree c ∪ filter (λ kv, idx !! kv.1 = None) fs).
Proof.
  intros Hm H. unfold fetchGit_sync in H. cbv zeta in H.
  bind_inv H it w1 H1. apply wrapping_Ret_inv in H1.
  pose proof (observes_run _ _ _ _ (observes_IterReferences _) H1) as U1.
  apply (IterReferences_Ret _ _ _ _ _ _ _ _ Hm) in H1 as ->.
  bind_inv H ref w2 H2. apply wrapping_Ret_inv in H2.
  pose proof (observes_run _ _ _ _ (observes_Next _ _) H2) as U2.
  apply Next_Ret in H2.
  destruct (head_shape b lb rt (heads b)) as (x & rest & Hx & Hhash).
  rewrite Hx in H2. simpl in H2. simplify_eq. rewrite Hhash in H.
  pose proof (unchanged_trans _ _ _ U1 U2) as U12.
  apply (mirror_at_unchanged _ _ _ _ _ _ _ U12) in Hm.
  bind_inv H u3 w3 H3. unfold mret, M_ret in H. simplify_eq.
  split; [done|]. split; [done|].
  destruct (IsZero (first_hash lb rt)) eqn:Ez; simpl in H3.
  - unfold mret, M_ret in H3. simplify_eq.
    split; [by apply unchanged_store_same|done].
  - bind_inv H3 u4 w4 H4. apply wrapping_Ret_inv in H4. destruct u4.
    apply (SetReference_Ret _ _ _ _ _ _ _ _ Hm) in H4 as [Hm4 S4].
    fold (heads b) in Hm4. rewrite set_ref_heads in Hm4.
    bind_inv H3 work w5 H5.
    pose proof (observes_run _ _ _ _ (observes_Worktree _) H5) as U5.
    apply Worktree_Ret in H5 as ->.
    apply (mirror_at_unchanged _ _ _ _ _ _ _ U5) in Hm4.
    apply wrapping_Ret_inv in H3. destruct u3.
    apply (Reset_Ret _ _ _ _ _ _ _ _ _ Hm4) in H3 as (c & Hc & Hm6 & S6).
    assert (S05 : store_same w w5).
    { eapply store_same_trans; [exact (unchanged_store_same _ _ U12)|].
      eapply store_same_trans; [exact S4|].
      exact (unchanged_store_same _ _ U5). }
    split; [exact (store_same_trans _ _ _ S05 S6)|].
    exists c. destruct S05 as [Ho _]. rewrite Ho in Hc. done.
Qed.

End Phases.

(** *** Sync, write and status *)

Section Put.
Variable s : PutInGH.
Variables owner repo b name data : string.

Abbreviation mdir := (mirrorDir s owner repo b).
Abbreviation synced := (GitSpec.synced s owner repo b).

Lemma fetchGit_spec w d1 d2 w' lb rt idx fs :
  owned_mirror s owner repo b w lb rt idx fs →
  fetchGit s owner repo b w = (Ret (d1, d2), w') →
  d1 = mdir ∧ d2 = mdir ∧ store_same w w'
  ∧ ∃ rt', synced w w' lb rt' idx fs.
Proof.
  intros Ho H. unfold fetchGit in H.
  bind_inv H remote w1 H1.
  apply (fetchGit_bind_spec _ _ _ _ _ _ _ _ _ _ _ Ho) in H1 as [Hm1 S1].
  bind_inv H fetched w2 H2.
  apply (fetchGit_fetch_spec _ _ _ _ _ _ _ _ _ _ _ _ Hm1) in H2
    as (rt' & Hm2 & S2).
  assert (Hs : fetchGit_sync s owner repo b w2 = (Ret (d1, d2), w')).
  { destruct fetched as [err|?]; [|done].
    destruct (negb (errors_Is err NoErrAlreadyUpToDate)
              && negb (errors_Is err ErrEmptyRemoteRepository)); [|done].
    by destruct (negb (errors_As_NoMatchingRefSpecError err)). }
  apply (fetchGit_sync_spec _ _ _ _ _ _ _ _ _ _ _ _ Hm2) in Hs
    as (-> & -> & S3 & Hsync).
  pose proof (store_same_trans _ _ _ S1 S2) as S12.
  split; [done|]. split; [done|].
  split; [exact (store_same_trans _ _ _ S12 S3)|].
  exists rt'. unfold GitSpec.synced.
  destruct (IsZero (first_hash lb rt')); [done|].
  destruct Hsync as (c & Hc & Hm). exists c.
  destruct S12 as [Ho12 _]. by rewrite <- Ho12.
Qed.

(** Writing and adding put the content in working tree and index; the
    status compares them with the commit of [HEAD]. *)
Lemma putInGit_write_spec w d st w' l idx fs :
  mirror_at mdir b w l idx fs →
  putInGit_write mdir mdir name data w = (Ret (d, st), w') →
  d = mdir ∧ store_same w w'
  ∧ mirror_at mdir b w' l (<[name := data]> idx)
      (<[name := data]> (<[name := EmptyString]> fs))
  ∧ st = status_of (tree_at (objects w) (resolve_head l))
           (<[name := data]> idx)
           (<[name := data]> (<[name := EmptyString]> fs)).
Proof.
  intros Hm H. unfold putInGit_write in H.
  bind_inv H u1 w1 H1.
  pose proof (observes_run _ _ _ _ (observes_MkdirAll _) H1) as U1.
  apply (mirror_at_unchanged _ _ _ _ _ _ _ U1) in Hm.
  bind_inv H u2 w2 H2. destruct u2.
  apply (OpenFile_Ret _ _ _ _ _ _ _ _ Hm) in H2 as [Hm2 S2].
  bind_inv H copied w3 H3.
  destruct copied as [err|[]].
  { bind_inv H u4 w4 H4. done. }
  apply try_inv in H3 as [(a & _ & H3)|(e & ? & _)]; [|done]. destruct a.
  apply (Copy_Ret _ _ _ _ _ _ _ _ _ Hm2) in H3 as [Hm3 S3].
  bind_inv H u4 w4 H4.
  pose proof (observes_try _ _ _ _ (observes_Close _ _) H4) as U4.
  apply (mirror_at_unchanged _ _ _ _ _ _ _ U4) in Hm3.
  bind_inv H work w5 H5.
  pose proof (observes_run _ _ _ _ (observes_Worktree _) H5) as U5.
  apply Worktree_Ret in H5 as ->.
  apply (mirror_at_unchanged _ _ _ _ _ _ _ U5) in Hm3.
  bind_inv H u6 w6 H6. apply wrapping_Ret_inv in H6. destruct u6.
  apply (Add_Ret _ _ _ _ _ _ _ _ Hm3) in H6 as (c & Hc & Hm6 & S6).
  rewrite lookup_insert_eq in Hc. simplify_eq.
  bind_inv H status w7 H7.
  pose proof (observes_run _ _ _ _ (observes_Status _) H7) as U7.
  apply (Status_Ret _ _ _ _ _ _ _ _ Hm6) in H7 as ->.
  unfold mret, M_ret in H. simplify_eq.
  assert (S06 : store_same w w6).
  { eapply store_same_trans; [exact (unchanged_store_same _ _ U1)|].
    eapply store_same_trans; [exact S2|].
    eapply store_same_trans; [exact S3|].
    eapply store_same_trans; [exact (unchanged_store_same _ _ U4)|].
    eapply store_same_trans; [exact (unchanged_store_same _ _ U5)|].
    exact S6. }
  split; [done|].
  split; [exact (store_same_trans _ _ _ S06 (unchanged_store_same _ _ U7))|].
  split; [by apply (mirror_at_unchanged _ _ _ _ _ _ _ U7)|].
  destruct S06 as [-> _]. done.
Qed.

Lemma status_of_lookup head idx fs p :
  status_of head idx fs !! p = file_status (head !! p) (idx !! p) (fs !! p).
Proof.
  unfold status_of. rewrite !lookup_merge.
  destruct (head !! p), (idx !! p), (fs !! p); reflexivity.
Qed.

(** The status of the path once written and added: no entry exactly
    when the commit of [HEAD] holds the same content at the path. *)
Lemma written_status head idx fs :
  let st := status_of head (<[name := data]> idx) (<[name := data]> fs) in
  (head !! name = Some data → st !! name = None ∧ changed st name = false)
  ∧ (head !! name ≠ Some data → changed st name = true).
Proof.
  cbv zeta. split.
  - intros Hh. unfold changed. rewrite status_of_lookup, Hh, !lookup_insert_eq.
    unfold file_status, change. rewrite decide_True by done. simpl.
    split; [done|]. by rewrite andb_false_r.
  - intros Hh. unfold changed.
    assert (Hst : ∃ x, status_of head (<[name:=data]> idx) (<[name:=data]> fs)
                       !! name = Some x ∧ Staging x ≠ Unmodified) .
    { rewrite status_of_lookup, !lookup_insert_eq. unfold file_status, change.
      rewrite (decide_True (P := data = data)) by done.
      destruct (head !! name) as [x|]; [|by eexists].
      rewrite decide_False by congruence. by eexists. }
    destruct Hst as (x & Hx & Hne). rewrite Hx.
    rewrite (bool_decide_eq_false_2 _ Hne). simpl. rewrite andb_true_r.
    apply negb_true_iff, Nat.eqb_neq. intros Hz.
    apply map_size_empty_iff in Hz. rewrite Hz in Hx.
    by rewrite lookup_empty in Hx.
Qed.

End Put.

(** *** Commit and push *)

Lemma Commit_Ret dir b msg opt w h w' lb rt idx fs :
  mirror_at dir b w (shape b lb rt (SymbolicTarget (heads b))) idx fs →
  Worktree_Commit dir msg opt w = (Ret h, w') →
  h = S (length (objects w))
  ∧ (∃ c, objects w' = objects w ++ [c] ∧ c_tree c = idx)
  ∧ upstream w' = upstream w
  ∧ mirror_at dir b w' (shape b (Some h) rt (SymbolicTarget (heads b))) idx fs.
Proof.
  intros (r & Hd & Hl & <- & Hrem) H. on_mirror H r Hd.
  rewrite Hl, head_target_shape in H. cbv zeta in H.
  change (objects (log _ w)) with (objects w) in H. simplify_eq.
  split; [done|]. split; [by eexists|]. split; [done|].
  eexists. rewrite the_dir_put_repo.
  change (the_dir (set_objects (log _ w) _) dir) with (the_dir w dir).
  rewrite Hd. split; [reflexivity|]. split; [|done]. simpl.
  rewrite ?Hl. apply set_ref_heads.
Qed.

Lemma prefix_empty s : String.prefix EmptyString s = true.
Proof. by destruct s. Qed.

Lemma to_push_shape up b h rt t :
  to_push up (shape b (Some h) rt (SymbolicTarget t))
  = if decide (up !! heads b ≠ Some h) then [NewHashReference (heads b) h]
    else [].
Proof.
  unfold to_push.
  assert (Hh : String.prefix "refs/heads/" (heads b) = true)
    by apply prefix_empty.
  assert (Ht : String.prefix "refs/heads/" (tracking b) ≠ true) by done.
  assert (HH : String.prefix "refs/heads/" HEAD ≠ true) by done.
  destruct rt as [t'|]; unfold shape, opt_ref; cbn [app];
    rewrite !filter_cons, filter_nil; cbn [ref_name NewHashReference];
    rewrite ?(decide_False (P := String.prefix _ (tracking b) = true ∧ _))
      by (intros [? _]; done);
    rewrite ?(decide_False (P := String.prefix _ HEAD = true ∧ _))
      by (intros [? _]; done);
    destruct (decide (up !! heads b ≠ Some h)) as [Hne|Heq].
  - by rewrite decide_True.
  - rewrite decide_False; [done|]. by intros [_ ?].
  - by rewrite decide_True.
  - rewrite decide_False; [done|]. by intros [_ ?].
Qed.

Lemma Push_Ret dir b auth w w' h rt idx fs :
  mirror_at dir b w (shape b (Some h) rt (SymbolicTarget (heads b))) idx fs →
  Repository_PushContext dir (gitRemoteName b) auth w = (Ret tt, w') →
  objects w' = objects w
  ∧ mirror_at dir b w' (shape b (Some h) (Some h) (SymbolicTarget (heads b)))
      idx fs.
Proof.
  intros (r & Hd & Hl & <- & Hrem) H. on_mirror H r Hd.
  destruct (find _ (remotes r)) as [remote|] eqn:Ef; [|done].
  apply Hrem in Ef.
  destruct (rc_URLs remote) as [|url ?]; [done|]. cbv zeta in H.
  rewrite Hl, to_push_shape in H.
  destruct (decide _) as [Hne|]; [|done].
  destruct (forallb _ _); [|done]. simplify_eq. split; [done|].
  eexists. rewrite the_dir_put_repo.
  change (the_dir (set_upstream (log _ w) _) dir) with (the_dir w dir).
  rewrite Hd. split; [reflexivity|]. split; [|done].
  cbn [refs with_refs foldr]. unfold track. rewrite Ef. cbn [find].
  rewrite bool_decide_eq_true_2 by done.
  change (rs_dst (fetchRefSpec b (gitRemoteName b))) with (tracking b).
  change (Reference_Hash (NewHashReference (heads b) h)) with h.
  rewrite ?Hl. apply set_ref_tracking.
Qed.

(** *** Calls that neither commit nor push *)

Lemma quiet_ret {A} (a : A) : quiet (mret a).
Proof. done. Qed.

Lemma quiet_fail {A} e : quiet (fail e : M world A).
Proof. done. Qed.

Lemma quiet_bind {A B} (m : M world A) (f : A → M world B) :
  quiet m → (∀ a, quiet (f a)) → quiet (m ≫= f).
Proof.
  intros Hm Hf w. rewrite bind_unfold. specialize (Hm w).
  destruct (m w) as [[a|e| |] w1]; simpl in *; try done.
  destruct Hm as [? ?]. destruct (Hf a w1) as [? ?]. split; congruence.
Qed.

Lemma quiet_try {A} (m : M world A) : quiet m → quiet (try m).
Proof.
  intros Hm w. unfold try. specialize (Hm w).
  by destruct (m w) as [[a|e| |] w1].
Qed.

Lemma quiet_wrapping {A} ctx (m : M world A) : quiet m → quiet (wrapping ctx m).
Proof.
  intros Hm w. unfold wrapping. specialize (Hm w).
  by destruct (m w) as [[a|e| |] w1].
Qed.

Lemma commits_log ev w :
  commits (log ev w) = commits w + (if is_commit ev then 1 else 0).
Proof.
  unfold commits, log. simpl. rewrite filter_app, length_app.
  rewrite filter_cons, filter_nil. by destruct (is_commit ev).
Qed.

Lemma pushes_log ev w :
  pushes (log ev w) = pushes w + (if is_push ev then 1 else 0).
Proof.
  unfold pushes, log. simpl. rewrite filter_app, length_app.
  rewrite filter_cons, filter_nil. by destruct (is_push ev).
Qed.

Lemma lib_counts {A} ev (work : M world A) w :
  silent work →
  commits (lib ev work w).2 = commits w + (if is_commit ev then 1 else 0)
  ∧ pushes (lib ev work w).2 = pushes w + (if is_push ev then 1 else 0).
Proof.
  intros Hs. unfold lib. destruct (faults w (length (trace w))); simpl.
  - by rewrite commits_log, pushes_log.
  - unfold commits, pushes. rewrite Hs.
    fold (commits (log ev w)) (pushes (log ev w)).
    by rewrite commits_log, pushes_log.
Qed.

Lemma quiet_lib {A} ev (work : M world A) :
  is_commit ev = false → is_push ev = false → silent work →
  quiet (lib ev work).
Proof.
  intros Hc Hp Hs w. destruct (lib_counts ev work w Hs) as [-> ->].
  rewrite Hc, Hp. lia.
Qed.

Lemma silent_on_repo {A} dir (k : Repository → M world A) :
  (∀ r, silent (k r)) → silent (on_repo dir k).
Proof.
  intros Hk w. unfold on_repo. destruct (dotgit (the_dir w dir)); [apply Hk|done].
Qed.

Ltac silence :=
  repeat first
    [ apply silent_on_repo; intros ?
    | intros ? ];
  unfold mret, M_ret, fail; cbv zeta;
  repeat match goal with
         | |- context [match ?x with _ => _ end] => destruct x
         | |- context [if ?x then _ else _] => destruct x
         end; reflexivity.

Lemma silent_Commit dir msg opt :
  silent (on_repo dir (λ r w,
    match head_target (refs r) with
    | None => (Fail (other "reference not found"), w)
    | Some t =>
        let parent := resolve_head (refs r) in
        let c := {| c_tree := index r;
                    c_parents := if IsZero parent then [] else [parent];
                    c_message := msg; c_author := Author opt |} in
        let h := S (length (objects w)) in
        (Ret h,
         put_repo dir (with_refs r (set_ref (NewHashReference t h) (refs r)))
           (set_objects w (objects w ++ [c])))
    end)).
Proof.
  apply silent_on_repo. intros r w. by destruct (head_target (refs r)).
Qed.

Lemma quiet_MkdirAll p : quiet (os_MkdirAll p).
Proof. apply quiet_lib; [done|done|]. silence. Qed.
Lemma quiet_Stat d : quiet (os_Stat_dotgit d).
Proof. apply quiet_lib; [done|done|]. silence. Qed.
Lemma quiet_PlainOpen d : quiet (PlainOpen d).
Proof. apply quiet_lib; [done|done|]. silence. Qed.
Lemma quiet_PlainInit d : quiet (PlainInit d).
Proof. apply quiet_lib; [done|done|]. silence. Qed.
Lemma quiet_SetReference d r : quiet (Storer_SetReference d r).
Proof. apply quiet_lib; [done|done|]. silence. Qed.
Lemma quiet_Remote d n : quiet (Repository_Remote d n).
Proof. apply quiet_lib; [done|done|]. silence. Qed.
Lemma quiet_CreateRemote d c : quiet (Repository_CreateRemote d c).
Proof. apply quiet_lib; [done|done|]. silence. Qed.
Lemma quiet_Branch d n : quiet (Repository_Branch d n).
Proof. apply quiet_lib; [done|done|]. silence. Qed.
Lemma quiet_CreateBranch d c : quiet (Repository_CreateBranch d c).
Proof. apply quiet_lib; [done|done|]. silence. Qed.
Lemma quiet_Fetch d rem n rs a : quiet (Remote_FetchContext d rem n rs a).
Proof. apply quiet_lib; [done|done|]. silence. Qed.
Lemma quiet_IterReferences d : quiet (Storer_IterReferences d).
Proof. apply quiet_lib; [done|done|]. silence. Qed.
Lemma quiet_Next d it : quiet (ReferenceIter_Next d it).
Proof. apply quiet_lib; [done|done|]. silence. Qed.
Lemma quiet_Worktree d : quiet (Repository_Worktree d).
Proof. apply quiet_lib; [done|done|]. silence. Qed.
Lemma quiet_Reset d h : quiet (Worktree_Reset_Hard d h).
Proof. apply quiet_lib; [done|done|]. silence. Qed.
Lemma quiet_OpenFile d n : quiet (os_OpenFile d n).
Proof. apply quiet_lib; [done|done|]. silence. Qed.
Lemma quiet_Copy d n x : quiet (io_Copy d n x).
Proof. apply quiet_lib; [done|done|]. silence. Qed.
Lemma quiet_Close d n : quiet (File_Close d n).
Proof. apply quiet_lib; [done|done|]. silence. Qed.
Lemma quiet_Open d n : quiet (os_Open d n).
Proof. apply quiet_lib; [done|done|]. silence. Qed.
Lemma quiet_Add d n : quiet (Worktree_Add d n).
Proof. apply quiet_lib; [done|done|]. silence. Qed.
Lemma quiet_Status d : quiet (Worktree_Status d).
Proof. apply quiet_lib; [done|done|]. silence. Qed.

Ltac quieten :=
  repeat first
    [ apply quiet_ret | apply quiet_fail
    | apply quiet_try | apply quiet_wrapping
    | apply quiet_MkdirAll | apply quiet_Stat | apply quiet_PlainOpen
    | apply quiet_PlainInit | apply quiet_SetReference | apply quiet_Remote
    | apply quiet_CreateRemote | apply quiet_Branch | apply quiet_CreateBranch
    | apply quiet_Fetch | apply quiet_IterReferences | apply quiet_Next
    | apply quiet_Worktree | apply quiet_Reset | apply quiet_OpenFile
    | apply quiet_Copy | apply quiet_Close | apply quiet_Open
    | apply quiet_Add | apply quiet_Status
    | apply quiet_bind; [|intros ?]
    | match goal with
      | |- quiet (match ?x with _ => _ end) => destruct x
      | |- quiet (if ?x then _ else _) => destruct x
      | |- quiet (let '(_, _) := ?x in _) => destruct x
      end ].

Lemma quiet_fetchGit_sync s owner repo b : quiet (fetchGit_sync s owner repo b).
Proof. unfold fetchGit_sync. cbv zeta. quieten. Qed.

Lemma quiet_fetchGit s owner repo b : quiet (fetchGit s owner repo b).
Proof.
  unfold fetchGit, fetchGit_bind, fetchGit_open, fetchGit_configure,
    fetchGit_fetch. cbv zeta. quieten; apply quiet_fetchGit_sync.
Qed.

Lemma quiet_putInGit_stage s owner repo b name data :
  quiet (putInGit_stage s owner repo b name data).
Proof.
  unfold putInGit_stage. apply quiet_bind; [apply quiet_fetchGit|].
  intros [d r]. unfold putInGit_write. quieten.
Qed.

Lemma quiet_GetFromGit s owner repo b name :
  quiet (GetFromGit s owner repo b name).
Proof.
  unfold GetFromGit. apply quiet_bind; [apply quiet_fetchGit|].
  intros [d r]. quieten.
Qed.

(** *** Put, once and twice *)

Section Idempotence.
Variable s : PutInGH.
Variables owner repo b name data : string.

Abbreviation pdir := (mirrorDir s owner repo b).
Abbreviation stage := (putInGit_stage s owner repo b name data).
Abbreviation put := (putInGit s owner repo b name data).
Abbreviation url :=
  (gitURL s owner repo +:+ "/raw/" +:+ b +:+ "/" +:+ name).
Abbreviation mirror_owned := (GitSpec.mirror_owned s owner repo b).

(** After a stage that succeeded. *)
Lemma stage_analysis w d st ws lb rt idx fs :
  owned_mirror s owner repo b w lb rt idx fs →
  stage w = (Ret (d, st), ws) →
  d = pdir ∧ store_same w ws
  ∧ ∃ lb' rt' idx' fs',
      mirror_at pdir b ws (shape b lb' rt' (SymbolicTarget (heads b)))
        (<[name := data]> idx') (<[name := data]> fs')
      ∧ st = status_of (tree_at (objects ws) (default ZeroHash lb'))
               (<[name := data]> idx') (<[name := data]> fs')
      ∧ (lb' = lb ∨ (lb' = Some (first_hash lb rt') ∧ IsZero (first_hash lb rt') = false)).
Proof.
  intros Ho H. unfold putInGit_stage in H.
  bind_inv H dd w1 H1. destruct dd as [d1 d2].
  apply (fetchGit_spec s owner repo b _ _ _ _ _ _ _ _ Ho) in H1
    as (-> & -> & S1 & rt' & Hsync).
  unfold synced in Hsync.
  destruct (IsZero (first_hash lb rt')) eqn:Ez.
  - apply (putInGit_write_spec _ _ _ _ _ _ _ _ _ _ _ _ _ Hsync) in H
      as (-> & S2 & Hm & ->).
    split; [done|]. split; [exact (store_same_trans _ _ _ S1 S2)|].
    exists lb, rt', idx, (<[name := EmptyString]> fs).
    split; [done|]. rewrite resolve_head_shape.
    destruct S2 as [-> _]. split; [done|]. by left.
  - destruct Hsync as (c & Hc & Hm1).
    apply (putInGit_write_spec _ _ _ _ _ _ _ _ _ _ _ _ _ Hm1) in H
      as (-> & S2 & Hm & ->).
    split; [done|]. split; [exact (store_same_trans _ _ _ S1 S2)|].
    eexists (Some (first_hash lb rt')), rt', _, (<[name := EmptyString]> _).
    split; [exact Hm|]. rewrite resolve_head_shape.
    destruct S2 as [-> _]. split; [done|]. by right.
Qed.

Lemma committed_mirror_at w lb rt idx fs :
  mirror_at pdir b w (shape b lb rt (SymbolicTarget (heads b))) idx fs →
  committed w pdir name = tree_at (objects w) (default ZeroHash lb) !! name.
Proof.
  intros (r & Hd & Hl & _). unfold committed. rewrite Hd. simpl.
  by rewrite Hl, resolve_head_shape.
Qed.

(** The put after its stage. *)
Lemma put_unchanged w d st ws :
  stage w = (Ret (d, st), ws) → changed st name = false →
  put w = (Ret url, ws).
Proof.
  intros H Hc. unfold putInGit. rewrite (bind_Ret _ _ _ _ _ H).
  simpl. rewrite Hc. reflexivity.
Qed.

Lemma put_stage_failed w :
  (∀ x, (stage w).1 ≠ Ret x) → (put w).2 = (stage w).2.
Proof.
  intros H. unfold putInGit. rewrite bind_unfold.
  destruct (stage w) as [[x|e| |] ws]; simpl in *; try done.
  by destruct (H x).
Qed.

Lemma Commit_counts dir msg opt w :
  commits (Worktree_Commit dir msg opt w).2 = commits w + 1
  ∧ pushes (Worktree_Commit dir msg opt w).2 = pushes w.
Proof.
  destruct (lib_counts (EvCommit dir msg opt) _ w (silent_Commit dir msg opt))
    as [Hc Hp].
  change (Worktree_Commit dir msg opt w) with (lib (EvCommit dir msg opt)
    (on_repo dir (λ r w0,
       match head_target (refs r) with
       | Some t =>
           let parent := resolve_head (refs r) in
           let c := {| c_tree := index r;
                       c_parents := if IsZero parent then [] else [parent];
                       c_message := msg; c_author := Author opt |} in
           let h := S (length (objects w0)) in
           (Ret h, put_repo dir
                     (with_refs r (set_ref (NewHashReference t h) (refs r)))
                     (set_objects w0 (objects w0 ++ [c])))
       | None => (Fail (other "reference not found"), w0)
       end)) w).
  simpl in Hc, Hp. split; [etrans; [exact Hc|lia]|etrans; [exact Hp|lia]].
Qed.

Lemma Push_counts dir n auth w :
  commits (Repository_PushContext dir n auth w).2 = commits w
  ∧ pushes (Repository_PushContext dir n auth w).2 = pushes w + 1.
Proof.
  unfold Repository_PushContext.
  match goal with
  | |- context [lib ?ev ?work] =>
      assert (Hs : silent work);
      [|destruct (lib_counts ev work w Hs) as [Hc Hp]; rewrite Hc, Hp; simpl; lia]
  end.
  apply silent_on_repo. intros r w0.
  destruct (find _ (remotes r)) as [remote|]; [|done].
  destruct (rc_URLs remote) as [|u ?]; [done|]. cbv zeta.
  destruct (to_push _ _); [done|]. by destruct (forallb _ _).
Qed.

(** A put whose stage found a change and which succeeded: the commit
    and the push were made, once each, and the branch stands at the new
    commit, which holds the content. *)
Lemma put_changed w d st ws u w1 lb rt idx fs :
  stage w = (Ret (d, st), ws) → changed st name = true →
  d = pdir →
  mirror_at pdir b ws (shape b lb rt (SymbolicTarget (heads b)))
    (<[name := data]> idx) fs →
  put w = (Ret u, w1) →
  commits w1 = commits ws + 1 ∧ pushes w1 = pushes ws + 1
  ∧ ∃ h, IsZero h = false
         ∧ mirror_at pdir b w1
             (shape b (Some h) (Some h) (SymbolicTarget (heads b)))
             (<[name := data]> idx) fs
         ∧ tree_at (objects w1) h !! name = Some data.
Proof.
  intros H Hc -> Hm Hput. unfold putInGit in Hput.
  rewrite (bind_Ret _ _ _ _ _ H) in Hput. simpl in Hput. rewrite Hc in Hput.
  bind_inv Hput u0 w3 H3. unfold mret, M_ret in Hput. simplify_eq.
  bind_inv H3 h w2 H2. apply wrapping_Ret_inv in H2.
  apply wrapping_Ret_inv in H3. destruct u0.
  pose proof (Commit_counts pdir
                (gitCommitMessage s owner repo b name (filepath_Join [pdir; name]))
                (gitCommitOption s owner repo b name (filepath_Join [pdir; name]))
                ws) as [Cc Cp].
  rewrite H2 in Cc, Cp. simpl in Cc, Cp.
  pose proof (Push_counts pdir (gitRemoteName b) (gitBasicAuth s owner) w2)
    as [Pc Pp].
  rewrite H3 in Pc, Pp. simpl in Pc, Pp.
  apply (Commit_Ret _ _ _ _ _ _ _ _ _ _ _ Hm) in H2
    as (-> & (c & Hobj & Hc') & _ & Hm2).
  apply (Push_Ret _ _ _ _ _ _ _ _ _ Hm2) in H3 as (Hobj1 & Hm1).
  split; [lia|]. split; [lia|].
  exists (S (length (objects ws))). split; [done|]. split; [exact Hm1|].
  unfold tree_at, commit_at. rewrite Hobj1, Hobj.
  rewrite lookup_app_r by lia. rewrite Nat.sub_diag. simpl.
  rewrite Hc'. apply lookup_insert_eq.
Qed.

(** C1: a put of content identical to what is committed at the path
    in the synced mirror makes no commit and no push, and a put of
    other content that succeeds makes one of each; after a put that
    succeeded, a second put of the same bytes under the same address
    makes no commit and no push, whatever its outcome, and the status
    it obtains after sync, write and add has no entry for the path. *)
Theorem put_twice_commits_once w :
  mirror_owned w →
  (∀ d st ws, stage w = (Ret (d, st), ws) →
     (committed ws pdir name = Some data →
        st !! name = None ∧ put w = (Ret url, ws)
        ∧ commits ws = commits w ∧ pushes ws = pushes w)
     ∧ (committed ws pdir name ≠ Some data → ∀ u w1, put w = (Ret u, w1) →
        commits w1 = commits w + 1 ∧ pushes w1 = pushes w + 1))
  ∧ (∀ u1 w1, put w = (Ret u1, w1) →
       commits (put w1).2 = commits w1 ∧ pushes (put w1).2 = pushes w1
       ∧ (∀ d st ws, stage w1 = (Ret (d, st), ws) →
            st !! name = None ∧ committed ws pdir name = Some data
            ∧ put w1 = (Ret url, ws))
       ∧ mirror_owned w1).
Proof.
  intros (lb & rt & idx & fs & Ho).
  assert (Hstage : ∀ w lb rt idx fs d st ws,
    owned_mirror s owner repo b w lb rt idx fs →
    stage w = (Ret (d, st), ws) →
    d = pdir ∧ commits ws = commits w ∧ pushes ws = pushes w
    ∧ ∃ lb' rt' idx' fs',
        mirror_at pdir b ws (shape b lb' rt' (SymbolicTarget (heads b)))
          (<[name := data]> idx') (<[name := data]> fs')
        ∧ committed ws pdir name
          = tree_at (objects ws) (default ZeroHash lb') !! name
        ∧ (committed ws pdir name = Some data →
             st !! name = None ∧ changed st name = false)
        ∧ (committed ws pdir name ≠ Some data → changed st name = true)
        ∧ (lb' = lb ∨ (lb' = Some (first_hash lb rt')
                       ∧ IsZero (first_hash lb rt') = false))).
  { clear. intros w lb rt idx fs d st ws Ho H.
    destruct (quiet_putInGit_stage s owner repo b name data w) as [Qc Qp].
    rewrite H in Qc, Qp. simpl in Qc, Qp.
    apply (stage_analysis _ _ _ _ _ _ _ _ Ho) in H
      as (-> & _ & lb' & rt' & idx' & fs' & Hm & -> & Hlb).
    split; [done|]. split; [done|]. split; [done|].
    exists lb', rt', idx', fs'. split; [done|].
    rewrite (committed_mirror_at _ _ _ _ _ Hm). split; [done|].
    destruct (written_status name data
                (tree_at (objects ws) (default ZeroHash lb')) idx' fs')
      as [Hsame Hdiff].
    split; [exact Hsame|]. split; [exact Hdiff|]. exact Hlb. }
  split.
  - intros d st ws H.
    destruct (Hstage _ _ _ _ _ _ _ _ Ho H)
      as (-> & Qc & Qp & lb' & rt' & idx' & fs' & Hm & _ & Hsame & Hdiff & _).
    split.
    + intros Hcm. destruct (Hsame Hcm) as [Hnone Hch].
      split; [done|]. split; [exact (put_unchanged _ _ _ _ H Hch)|]. done.
    + intros Hcm u w1 Hput.
      destruct (put_changed _ _ _ _ _ _ _ _ _ _ H (Hdiff Hcm) eq_refl Hm Hput)
        as (Hc & Hp & _).
      lia.
  - intros u1 w1 Hput.
    (* the state the first put leaves *)
    assert (Hpost : ∃ h rt1 idx1 fs1,
      mirror_at pdir b w1 (shape b (Some h) rt1 (SymbolicTarget (heads b)))
        idx1 fs1
      ∧ IsZero h = false
      ∧ tree_at (objects w1) h !! name = Some data).
    { pose proof Hput as Hput'. unfold putInGit in Hput'.
      bind_inv Hput' dst ws H. destruct dst as [d st]. clear Hput'.
      destruct (Hstage _ _ _ _ _ _ _ _ Ho H)
        as (-> & _ & _ & lb' & rt' & idx' & fs' & Hm & Hcm & Hsame & Hdiff & _).
      destruct (decide (committed ws pdir name = Some data)) as [Heq|Hne].
      - destruct (Hsame Heq) as [_ Hch].
        rewrite (put_unchanged _ _ _ _ H Hch) in Hput. simplify_eq.
        rewrite Hcm in Heq. destruct lb' as [h|]; [|done].
        exists h, rt', (<[name := data]> idx'), (<[name := data]> fs').
        split; [exact Hm|]. split; [|exact Heq].
        destruct h; [done|done].
      - destruct (put_changed _ _ _ _ _ _ _ _ _ _ H (Hdiff Hne) eq_refl Hm Hput)
          as (_ & _ & h & Hz & Hm1 & Ht).
        by exists h, (Some h), (<[name := data]> idx'), (<[name := data]> fs'). }
    destruct Hpost as (h & rt1 & idx1 & fs1 & Hm1 & Hz & Ht).
    assert (Ho1 : owned_mirror s owner repo b w1 (Some h) rt1 idx1 fs1)
      by (left; eauto).
    assert (Hsecond : ∀ d st ws, stage w1 = (Ret (d, st), ws) →
      st !! name = None ∧ committed ws pdir name = Some data
      ∧ put w1 = (Ret url, ws)).
    { intros d st ws H.
      destruct (Hstage _ _ _ _ _ _ _ _ Ho1 H)
        as (-> & _ & _ & lb' & rt' & idx' & fs' & Hm & Hcm & Hsame & _ & Hlb).
      assert (Hobj : objects ws = objects w1).
      { apply (stage_analysis _ _ _ _ _ _ _ _ Ho1) in H as (_ & [? _] & _).
        done. }
      assert (lb' = Some h) as ->.
      { destruct Hlb as [->|[-> _]]; done. }
      assert (Heq : committed ws pdir name = Some data).
      { rewrite Hcm, Hobj. exact Ht. }
      destruct (Hsame Heq) as [Hnone Hch].
      split; [done|]. split; [done|]. exact (put_unchanged _ _ _ _ H Hch). }
    split; [|split; [|split]]; [| |exact Hsecond|by exists (Some h), rt1, idx1, fs1].
    + destruct (quiet_putInGit_stage s owner repo b name data w1) as [Qc _].
      destruct (stage w1) as [[[d st]|e| |] ws] eqn:E.
      * destruct (Hsecond d st ws eq_refl) as (_ & _ & ->). exact Qc.
      * rewrite (put_stage_failed w1) by (rewrite E; done). by rewrite E.
      * rewrite (put_stage_failed w1) by (rewrite E; done). by rewrite E.
      * rewrite (put_stage_failed w1) by (rewrite E; done). by rewrite E.
    + destruct (quiet_putInGit_stage s owner repo b name data w1) as [_ Qp].
      destruct (stage w1) as [[[d st]|e| |] ws] eqn:E.
      * destruct (Hsecond d st ws eq_refl) as (_ & _ & ->). exact Qp.
      * rewrite (put_stage_failed w1) by (rewrite E; done). by rewrite E.
      * rewrite (put_stage_failed w1) by (rewrite E; done). by rewrite E.
      * rewrite (put_stage_failed w1) by (rewrite E; done). by rewrite E.
Qed.

End Idempotence.

(** *** The fetch step *)

Section FetchErrors.
Variable s : PutInGH.
Variables owner repo b : string.

Lemma fetch_tolerated_iff err :
  fetch_tolerated err = true
  ↔ errors_Is err NoErrAlreadyUpToDate = true
    ∨ errors_Is err ErrEmptyRemoteRepository = true
    ∨ errors_As_NoMatchingRefSpecError err = true.
Proof.
  unfold fetch_tolerated.
  destruct (errors_Is err NoErrAlreadyUpToDate),
    (errors_Is err ErrEmptyRemoteRepository),
    (errors_As_NoMatchingRefSpecError err); simpl; intuition congruence.
Qed.

(** C7: when the fetch returns an error, the operation goes on to the
    sync exactly when the error is one of three (already up to date,
    empty remote repository, no matching refspec, looked for along the
    chain of wrapped errors); with any other error [fetchGit], and with
    it the get and the put, return that error wrapped as
    [git fetch: ...] and do nothing more. *)
Theorem fetch_error_classes w remote w1 err w2 :
  fetchGit_bind s owner repo b w = (Ret remote, w1) →
  fetchGit_fetch s owner repo b remote w1 = (Ret (inl err), w2) →
  (errors_Is err NoErrAlreadyUpToDate = true
   ∨ errors_Is err ErrEmptyRemoteRepository = true
   ∨ errors_As_NoMatchingRefSpecError err = true →
   fetchGit s owner repo b w = fetchGit_sync s owner repo b w2)
  ∧ (¬ (errors_Is err NoErrAlreadyUpToDate = true
        ∨ errors_Is err ErrEmptyRemoteRepository = true
        ∨ errors_As_NoMatchingRefSpecError err = true) →
     fetchGit s owner repo b w = (Fail (wrap "git fetch" err), w2)
     ∧ (∀ name, GetFromGit s owner repo b name w
                = (Fail (wrap "git fetch" err), w2))
     ∧ (∀ name data, putInGit s owner repo b name data w
                     = (Fail (wrap "git fetch" err), w2)))
  ∧ (∀ c, fetch_tolerated (wrap c NoErrAlreadyUpToDate) = true
          ∧ fetch_tolerated (wrap c ErrEmptyRemoteRepository) = true
          ∧ (∀ r, fetch_tolerated (wrap c (NoMatchingRefSpecError r)) = true)
          ∧ fetch_tolerated (other c) = false
          ∧ fetch_tolerated ErrRepositoryNotExists = false
          ∧ fetch_tolerated EOF = false).
Proof.
  intros Hb Hf.
  assert (Hgo : fetchGit s owner repo b w
                = if fetch_tolerated err then fetchGit_sync s owner repo b w2
                  else (Fail (wrap "git fetch" err), w2)).
  { unfold fetchGit. rewrite (bind_Ret _ _ _ _ _ Hb), (bind_Ret _ _ _ _ _ Hf).
    unfold fetch_tolerated.
    destruct (errors_Is err NoErrAlreadyUpToDate),
      (errors_Is err ErrEmptyRemoteRepository),
      (errors_As_NoMatchingRefSpecError err); reflexivity. }
  split; [|split].
  - intros Ht. apply fetch_tolerated_iff in Ht. by rewrite Hgo, Ht.
  - intros Hn.
    assert (Ht : fetch_tolerated err = false).
    { destruct (fetch_tolerated err) eqn:E; [|done].
      by apply fetch_tolerated_iff in E. }
    rewrite Ht in Hgo. split; [exact Hgo|]. split.
    + intros name. unfold GetFromGit. by rewrite (bind_Fail _ _ _ _ _ Hgo).
    + intros name data. unfold putInGit, putInGit_stage.
      by rewrite (bind_Fail _ _ _ _ _ (bind_Fail _ _ _ _ _ Hgo)).
  - intros c. repeat split; reflexivity.
Qed.

End FetchErrors.

Lemma fetch_error_classes_witness :
  (fetchGit cfg "o" "r" "main" fresh_unreachable).1
  = Fail (wrap "git fetch" (other "connection reset"))
  ∧ (putInGit cfg "o" "r" "main" "f" "v1" fresh_unreachable).1
    = Fail (wrap "git fetch" (other "connection reset"))
  ∧ commits (putInGit cfg "o" "r" "main" "f" "v1" fresh_unreachable).2 = 0.
Proof.
  edestruct (fetch_error_classes cfg "o" "r" "main" fresh_unreachable)
    as (_ & Hfail & _);
    [vm_compute; reflexivity | vm_compute; reflexivity |].
  destruct Hfail as (H1 & _ & H3).
  { intros [H|[H|H]]; vm_compute in H; discriminate H. }
  rewrite H1, (H3 "f" "v1"). repeat split.
Defined.

(** *** The sync against a mirror that is reused *)

(** C2: on a mirror left by an earlier call, after another writer has
    advanced the branch on the forge, the fetch moves the
    remote-tracking reference to the new commit, and the sync leaves the
    local branch and the working tree at the old one: the reference it
    looks at is the first of the store, the local branch.  When the
    branch has been deleted on the forge the same reference is still
    not zero, and the reset is done. *)
Theorem sync_resets_to_first_reference :
  let w' := (fetchGit cfg "o" "r" "main" advanced).2 in
  (fetchGit cfg "o" "r" "main" advanced).1
  = Ret (mirrorDir cfg "o" "r" "main", mirrorDir cfg "o" "r" "main")
  ∧ (refs <$> dotgit (mirror w'))
    = Some (shape "main" (Some 1) (Some 2) (SymbolicTarget (heads "main")))
  ∧ files (mirror w') !! "f" = Some "v0"
  ∧ tree_at (objects w') 2 !! "f" = Some "theirs"
  ∧ (GetFromGit cfg "o" "r" "main" "f" advanced).1
    = Ret (ReaderWithAutoCloser "v0")
  ∧ existsb (λ e, match e with EvReset _ _ => true | _ => false end)
      (trace (fetchGit cfg "o" "r" "main" deleted).2) = true.
Proof. vm_compute. repeat split. Qed.

(** What the sync does in general is [fetchGit_sync_spec]: the hash it
    takes is [first_hash lb rt], the local branch when there is one. *)
Lemma first_hash_local h rt : first_hash (Some h) rt = h.
Proof. reflexivity. Qed.

(** On a mirror without a local branch, the first reference is the
    remote-tracking one, when the fetch has made it. *)
Lemma first_hash_fresh rt : first_hash None rt = default ZeroHash rt.
Proof. by destruct rt. Qed.

Lemma pair_from_fst {A B} (p : A * B) (a : A) : p.1 = a → p = (a, p.2).
Proof. destruct p. simpl. by intros ->. Qed.

Lemma put_twice_commits_once_witness :
  mirror_owned cfg "o" "r" "main" fresh
  ∧ commits (putInGit cfg "o" "r" "main" "f" "v1" fresh).2 = 1
  ∧ pushes (putInGit cfg "o" "r" "main" "f" "v1" fresh).2 = 1
  ∧ commits (putInGit cfg "o" "r" "main" "f" "v1"
               (putInGit cfg "o" "r" "main" "f" "v1" fresh).2).2 = 1
  ∧ pushes (putInGit cfg "o" "r" "main" "f" "v1"
              (putInGit cfg "o" "r" "main" "f" "v1" fresh).2).2 = 1.
Proof.
  assert (Ho : mirror_owned cfg "o" "r" "main" fresh).
  { exists None, None, ∅, ∅. right. repeat split. }
  split; [exact Ho|].
  destruct (put_twice_commits_once cfg "o" "r" "main" "f" "v1" fresh Ho)
    as [Hfirst Hsecond].
  assert (Hput : putInGit cfg "o" "r" "main" "f" "v1" fresh
                 = (Ret "https://github.com/o/r/raw/main/f",
                    (putInGit cfg "o" "r" "main" "f" "v1" fresh).2)).
  { apply pair_from_fst. vm_compute. reflexivity. }
  edestruct Hfirst as [_ Hnew]; [vm_compute; reflexivity|].
  destruct (Hnew ltac:(vm_compute; discriminate) _ _ Hput) as [Hc Hp].
  destruct (Hsecond _ _ Hput) as (Hc2 & Hp2 & _).
  rewrite Hc2, Hp2, Hc, Hp. repeat split.
Defined.

End GitFacts.

(** ** The router: rejected addresses, and the pieces handed over *)

Module RouterMore.
Import Router RouterSpec RouterFacts.

Lemma cut_join sep a b :
  count_byte sep a = 0 → cut sep (a +:+ String sep b) = Some (a, b).
Proof.
  induction a as [|c a IH]; simpl; intros H.
  - by rewrite decide_True.
  - destruct (decide (c = sep)); [lia|]. simpl in H. by rewrite IH.
Qed.

(** Splitting undoes joining: pieces free of the separator, followed
    by a last piece, come back as they were. *)
Lemma strings_SplitN_join3 x a c :
  count_byte "/"%char x = 0 → count_byte "/"%char a = 0 →
  strings_SplitN (x +:+ "/" +:+ a +:+ "/" +:+ c) slash 3 = [x; a; c].
Proof.
  intros Hx Ha.
  change (strings_SplitN (x +:+ "/" +:+ a +:+ "/" +:+ c) slash 3)
    with (match strings_cut slash (x +:+ "/" +:+ a +:+ "/" +:+ c) with
          | None => [x +:+ "/" +:+ a +:+ "/" +:+ c]
          | Some (p, rest) =>
              p :: match strings_cut slash rest with
                   | None => [rest]
                   | Some (q, rest') => [q; rest']
                   end
          end).
  unfold slash. rewrite !strings_cut_byte.
  change (x +:+ "/" +:+ a +:+ "/" +:+ c)
    with (x +:+ String "/" (a +:+ String "/" c)).
  rewrite (cut_join _ _ _ Hx), strings_cut_byte.
  by rewrite (cut_join _ _ _ Ha).
Qed.

Lemma strings_SplitN_join4 x a b c :
  count_byte "/"%char x = 0 → count_byte "/"%char a = 0 →
  count_byte "/"%char b = 0 →
  strings_SplitN (x +:+ "/" +:+ a +:+ "/" +:+ b +:+ "/" +:+ c) slash 4
  = [x; a; b; c].
Proof.
  intros Hx Ha Hb.
  change (strings_SplitN (x +:+ "/" +:+ a +:+ "/" +:+ b +:+ "/" +:+ c) slash 4)
    with (match strings_cut slash
                  (x +:+ "/" +:+ a +:+ "/" +:+ b +:+ "/" +:+ c) with
          | None => [x +:+ "/" +:+ a +:+ "/" +:+ b +:+ "/" +:+ c]
          | Some (p, rest) => p :: strings_SplitN rest slash 3
          end).
  unfold slash at 1. rewrite strings_cut_byte.
  change (x +:+ "/" +:+ a +:+ "/" +:+ b +:+ "/" +:+ c)
    with (x +:+ String "/" (a +:+ "/" +:+ b +:+ "/" +:+ c)).
  rewrite (cut_join _ _ _ Hx). by rewrite (strings_SplitN_join3 _ _ _ Ha Hb).
Qed.

Section Routes.
Context {G P Src : Type}.
Variable getErr : error → G.
Variable putErr : error → P.
Variable GetFromGit : string → string → string → string → G.
Variable GetFromReleasesAsset : string → string → string → string → G.
Variable GetFromGist : string → string → string → G.
Variable putInGit : string → string → string → string → Src → P.
Variable putInReleasesAsset : string → string → string → string → Src → P.
Variable putInGist : string → string → string → Src → P.
Variable putInGitWithFile : string → string → string → string → string → P.
Variable putInReleasesAssetWithFile : string → string → string → string → string → P.
Variable putInGistWithFile : string → string → string → string → P.

Abbreviation get parse :=
  (GetFrom getErr parse GetFromGit GetFromReleasesAsset GetFromGist).
Abbreviation put parse :=
  (PutIn putErr parse putInGit putInReleasesAsset putInGist).
Abbreviation putFile parse :=
  (PutInWithFile putErr parse putInGitWithFile putInReleasesAssetWithFile
     putInGistWithFile).

(** X1: an address that [url.Parse] rejects is answered with the
    parser's error, and an address whose scheme is none of [git],
    [asset], [gist] (compared as written, letter case included) with
    the error [not support] carrying the address; this holds for
    [GetFrom], [PutIn] and [PutInWithFile] alike, and no driver is
    entered. *)
Theorem router_rejects parse uri r f :
  let got := GetFrom getErr parse GetFromGit GetFromReleasesAsset GetFromGist uri in
  let sent := PutIn putErr parse putInGit putInReleasesAsset putInGist uri r in
  let sentFile :=
    PutInWithFile putErr parse putInGitWithFile putInReleasesAssetWithFile
      putInGistWithFile uri f in
  (∀ e, parse uri = inl e →
        got = getErr e ∧ sent = putErr e ∧ sentFile = putErr e)
  ∧ (∀ u, parse uri = inr u →
          Scheme u ≠ "git" → Scheme u ≠ "asset" → Scheme u ≠ "gist" →
          got = getErr (ErrNotSupport uri)
          ∧ sent = putErr (ErrNotSupport uri)
          ∧ sentFile = putErr (ErrNotSupport uri)).
Proof.
  cbv zeta. split.
  - intros e Hp. unfold GetFrom, PutIn, PutInWithFile. by rewrite Hp.
  - intros u Hp Hg Ha Hs. unfold GetFrom, PutIn, PutInWithFile. rewrite Hp.
    by rewrite !decide_False by done.
Qed.

(** X2: the pieces of an address reach the driver as they are written.
    When the path reads [x/a/b/c] with [x], [a] and [b] free of
    separators, the git and asset drivers receive the host as owner and
    [a], [b], [c] as repository, branch or release, and name; when it
    reads [x/a/c], the gist driver receives [a] and [c].  The pieces may
    be empty, the last one may hold further separators, and [x] (what
    precedes the first separator of the path) is dropped. *)
Theorem router_pieces parse uri sch owner path x a b c r f :
  parse uri = inr {| Scheme := sch; Host := owner; Path := path |} →
  count_byte "/"%char x = 0 → count_byte "/"%char a = 0 →
  (path = x +:+ "/" +:+ a +:+ "/" +:+ b +:+ "/" +:+ c →
   count_byte "/"%char b = 0 →
   (sch = "git" →
    get parse uri = GetFromGit owner a b c
    ∧ put parse uri r = putInGit owner a b c r
    ∧ putFile parse uri f = putInGitWithFile owner a b c f)
   ∧ (sch = "asset" →
      get parse uri = GetFromReleasesAsset owner a b c
      ∧ put parse uri r = putInReleasesAsset owner a b c r
      ∧ putFile parse uri f = putInReleasesAssetWithFile owner a b c f))
  ∧ (path = x +:+ "/" +:+ a +:+ "/" +:+ c →
     sch = "gist" →
     get parse uri = GetFromGist owner a c
     ∧ put parse uri r = putInGist owner a c r
     ∧ putFile parse uri f = putInGistWithFile owner a c f).
Proof.
  intros Hp Hx Ha. split.
  - intros -> Hb. split; intros ->;
      unfold GetFrom, PutIn, PutInWithFile; rewrite Hp;
      cbn [Scheme Host Path];
      rewrite (strings_SplitN_join4 x a b c Hx Ha Hb); done.
  - intros -> ->. unfold GetFrom, PutIn, PutInWithFile. rewrite Hp.
    cbn [Scheme Host Path]. by rewrite (strings_SplitN_join3 x a c Hx Ha).
Qed.

End Routes.

(** An address of a scheme the package does not know, and one the
    parser rejects. *)
Lemma router_rejects_witness :
  GetFrom (G:=error + list string) inl url_Parse_plain
    (λ o a b c, inr [o; a; b; c]) (λ o a b c, inr [o; a; b; c])
    (λ o a c, inr [o; a; c]) "ftp://o/r/main/f"
  = inl (ErrNotSupport "ftp://o/r/main/f").
Proof.
  destruct (router_rejects (G:=error + list string) (P:=error + list string)
              (Src:=string) inl inl
              (λ o a b c, inr [o; a; b; c]) (λ o a b c, inr [o; a; b; c])
              (λ o a c, inr [o; a; c])
              (λ o a b c _, inr [o; a; b; c]) (λ o a b c _, inr [o; a; b; c])
              (λ o a c _, inr [o; a; c])
              (λ o a b c _, inr [o; a; b; c]) (λ o a b c _, inr [o; a; b; c])
              (λ o a c _, inr [o; a; c])
              url_Parse_plain "ftp://o/r/main/f" "" "") as [_ Hu].
  destruct (Hu {| Scheme := "ftp"; Host := "o"; Path := "/r/main/f" |})
    as [Hget _]; [reflexivity|done|done|done|].
  exact Hget.
Defined.

(** A git address with an empty repository piece and a name holding a
    separator. *)
Lemma router_pieces_witness :
  GetFrom (G:=error + list string) inl url_Parse_plain
    (λ o a b c, inr [o; a; b; c]) (λ o a b c, inr [o; a; b; c])
    (λ o a c, inr [o; a; c]) "git://o//main/dir/f"
  = inr ["o"; ""; "main"; "dir/f"].
Proof.
  destruct (router_pieces (G:=error + list string) (P:=error + list string)
              (Src:=string) inl inl
              (λ o a b c, inr [o; a; b; c]) (λ o a b c, inr [o; a; b; c])
              (λ o a c, inr [o; a; c])
              (λ o a b c _, inr [o; a; b; c]) (λ o a b c _, inr [o; a; b; c])
              (λ o a c _, inr [o; a; c])
              (λ o a b c _, inr [o; a; b; c]) (λ o a b c _, inr [o; a; b; c])
              (λ o a c _, inr [o; a; c])
              url_Parse_plain "git://o//main/dir/f" "git" "o" "//main/dir/f"
              "" "" "main" "dir/f" "" "" eq_refl eq_refl eq_refl)
    as [Hfour _].
  destruct (Hfour eq_refl eq_refl) as [Hgit _].
  destruct (Hgit eq_refl) as [Hget _]. exact Hget.
Defined.

End RouterMore.

(** ** The scanners on a failed request *)

Module ScannerMore.
Import Forge ScannerSpec ScannerEnds ScannerFacts MemForge.

Section Law.
Context {St T A : Type}.
Variable list_page : Z → St → reply (list T) * St.
Variable ev : Z → Event.
Variable next : option (list T → A → outcome (bool * A)).
Variable scan : nat → Z → A → M (world (St:=St)) A.
Hypothesis scan_S : ∀ fuel page acc w,
  scan (S fuel) page acc w
  = scan_turn list_page ev next (scan fuel) page acc w.

Lemma scanner_ends_holds : scanner_ends list_page ev next scan.
Proof.
  intros k page0 acc0 w0 page acc w r s' Hsteps Hl fuel Hfuel w'.
  assert (Hrun : scan fuel page0 acc0 w0 = scan (S (fuel - S k)) page acc w).
  { replace fuel with (k + S (fuel - S k)) at 1 by lia.
    exact (nsteps_goes_on_scan list_page ev next scan scan_S _ _ _ _ Hsteps). }
  rewrite Hrun, scan_S. unfold scan_turn. rewrite Hl.
  split; [|split].
  - intros e He. rewrite He. destruct (resp r) as [rs|]; [|done].
    by destruct (StatusCode rs =? StatusNotFound)%Z.
  - intros He Hr acc' Hv. rewrite He. unfold verdict in Hv. rewrite Hv.
    simpl. by rewrite Hr.
  - intros He Hv. rewrite He. unfold verdict in Hv. by rewrite Hv.
Qed.

End Law.

(** X3: both scanners end a scan on a failed request in the same way:
    an error with a 404 response ends the scan without error and with
    what was collected so far, any other error (also one without a
    response) is returned, and in neither case is the predicate called
    or a further page requested. *)
Theorem scan_ends_on_error {St} (env : Env St) (perPage : Z) :
  (∀ A owner (next : option (list Gist → A → outcome (bool * A))),
     scanner_ends (λ p, Gists_List env owner p perPage)
       (λ p, EvGistsList owner p perPage) next
       (λ fuel page acc, eachGist_from env perPage fuel owner page next acc))
  ∧ (∀ A owner repo
       (next : option (list RepositoryRelease → A → outcome (bool * A))),
     scanner_ends (λ p, Repositories_ListReleases env owner repo p perPage)
       (λ p, EvListReleases owner repo p perPage) next
       (λ fuel page acc,
          eachReleases_from env perPage fuel owner repo page next acc)).
Proof.
  split.
  - intros A owner next. apply scanner_ends_holds.
    intros fuel page acc w. apply eachGist_from_S.
  - intros A owner repo next. apply scanner_ends_holds.
    intros fuel page acc w. apply eachReleases_from_S.
Qed.

(** On the forge in memory when it cannot be reached: the first
    request fails without a response and the scan returns its error. *)
Lemma scan_ends_on_error_witness :
  eachReleases (A:=unit) memEnv 100 5 "o" "r" None tt (start (offline sample))
  = (Fail (other "connection refused"),
     {| forge := offline sample; trace := [EvListReleases "o" "r" 0 100] |}).
Proof.
  destruct (scan_ends_on_error memEnv 100) as [_ Hrel].
  destruct (Hrel unit "o" "r" None 0 0%Z tt (start (offline sample))
              0%Z tt (start (offline sample))
              (mem_ListReleases "o" "r" 0 100 (offline sample)).1
              (offline sample)
              (nsteps_O _ _) eq_refl 5 ltac:(lia)) as (Herr & _).
  exact (Herr (other "connection refused") eq_refl).
Defined.

End ScannerMore.

(** ** The gist driver: creation, and failed listings *)

Module GistMore.
Import Forge ScannerSpec GistSpec ScannerFacts GistFacts AssetFacts MemForge.

Section Served.
Context {St : Type} (env : Env St) (perPage : Z) (owner : string).

Abbreviation serves := (GistSpec.serves env perPage owner).

Lemma rawURLOf_run name (r : reply (option Gist)) (w : world (St:=St)) :
  rawURLOf name r w
  = match err r with
    | Some e => (Fail e, w)
    | None =>
        match val r with
        | None => (Panic, w)
        | Some g =>
            match gf_RawURL (default zeroGistFile (g_Files g !! name)) with
            | Some u => (Ret u, w)
            | None => (Panic, w)
            end
        end
    end.
Proof.
  unfold rawURLOf. destruct (err r); [done|].
  destruct (val r) as [g|]; [|done]. mstep.
  by destruct (gf_RawURL (default zeroGistFile (g_Files g !! name))).
Qed.

(** The put once the scan has ended without a gist. *)
Lemma putInGist_create_run fuel gistId name data w w1 :
  eachGist env perPage fuel owner (Some (gistNext gistId name)) None w
  = (Ret None, w1) →
  let req := {| g_ID := None; g_Description := Some gistId;
                g_Public := Some true;
                g_Files := {[ name := {| gf_Filename := None;
                                         gf_Content := Some data;
                                         gf_RawURL := None |} ]} |} in
  let r := Gists_Create env req (forge w1) in
  let w2 := {| forge := r.2; trace := trace w1 ++ [EvGistsCreate req] |} in
  putInGist env perPage fuel owner gistId name (inr data) w
  = match err r.1 with
    | Some e => (Fail e, w2)
    | None =>
        match val r.1 with
        | None => (Panic, w2)
        | Some g =>
            match gf_RawURL (default zeroGistFile (g_Files g !! name)) with
            | Some u =>
                (Ret (default EmptyString (head (strings_SplitN u "/raw/" 2))
                      +:+ "/raw/" +:+ name), w2)
            | None => (Panic, w2)
            end
        end
    end.
Proof.
  intros Hrun req r w2. unfold putInGist.
  rewrite (bind_Ret _ _ _ _ _ Hrun). mstep. rewrite rawURLOf_run.
  fold req. fold r. fold w2.
  destruct (err r.1); [done|]. destruct (val r.1) as [g|]; [|done].
  by destruct (gf_RawURL (default zeroGistFile (g_Files g !! name))).
Qed.

(** X4: when the scan ends without a gist that the match rule selects,
    the put issues, after the scan, exactly one request: the creation
    of a public gist whose only file is the given name with the new
    content and whose description is the selector as given (an
    identifier that was not found, or the wildcard itself).  A refused
    creation is returned as the error; otherwise the URL returned is
    cut from the raw URL the forge answers for the file. *)
Theorem putInGist_creates_when_none gistId name data w pages fuel :
  serves 0 (forge w) pages →
  ids_ok gistId (concat pages) →
  length pages ≤ fuel →
  find (gist_matches gistId name) (concat pages) = None →
  ∃ w1 visited,
    trace w1 = trace w ++ map (λ p, EvGistsList owner p perPage) visited
    ∧ let req := {| g_ID := None; g_Description := Some gistId;
                    g_Public := Some true;
                    g_Files := {[ name := {| gf_Filename := None;
                                             gf_Content := Some data;
                                             gf_RawURL := None |} ]} |} in
      let r := Gists_Create env req (forge w1) in
      let w2 := {| forge := r.2; trace := trace w1 ++ [EvGistsCreate req] |} in
      let run := putInGist env perPage fuel owner gistId name (inr data) w in
      run.2 = w2
      ∧ (∀ e, err r.1 = Some e → run = (Fail e, w2))
      ∧ (∀ g f u, err r.1 = None → val r.1 = Some g →
           g_Files g !! name = Some f → gf_RawURL f = Some u →
           run = (Ret (default EmptyString (head (strings_SplitN u "/raw/" 2))
                       +:+ "/raw/" +:+ name), w2)).
Proof.
  intros Hs Hok Hfuel Hfind.
  destruct (eachGist_from_find env perPage owner gistId name 0 w pages fuel
              Hs Hok Hfuel) as (w1 & Hrun & visited & Htr).
  rewrite Hfind in Hrun. exists w1, visited. split; [exact Htr|].
  pose proof (putInGist_create_run fuel gistId name data w w1 Hrun) as Hput.
  cbv zeta in *. rewrite Hput. split; [|split].
  - destruct (err _); [done|]. destruct (val _) as [g|]; [|done].
    by destruct (gf_RawURL _).
  - intros e He. by rewrite He.
  - intros g f u He Hv Hf Hu. rewrite He, Hv, Hf. simpl. by rewrite Hu.
Qed.

(** X5: a put whose bytes cannot be read requests nothing.  When the
    first listing of the owner's gists fails, the get and the put both
    return the listing's error and nothing is created or edited, unless
    the response has status 404: then the owner counts as having no
    gist, the get answers [not found] and the put creates a new gist. *)
Theorem gist_listing_fails gistId name data w fuel e :
  let l := Gists_List env owner 0 perPage (forge w) in
  let w1 := {| forge := l.2;
               trace := trace w ++ [EvGistsList owner 0 perPage] |} in
  let req := {| g_ID := None; g_Description := Some gistId;
                g_Public := Some true;
                g_Files := {[ name := {| gf_Filename := None;
                                         gf_Content := Some data;
                                         gf_RawURL := None |} ]} |} in
  err l.1 = Some e → 0 < fuel →
  (∀ e', putInGist env perPage fuel owner gistId name (inl e') w = (Fail e', w))
  ∧ ((∀ rs, resp l.1 = Some rs → StatusCode rs ≠ StatusNotFound) →
     GetFromGist env perPage fuel owner gistId name w = (Fail e, w1)
     ∧ putInGist env perPage fuel owner gistId name (inr data) w = (Fail e, w1))
  ∧ (∀ rs, resp l.1 = Some rs → StatusCode rs = StatusNotFound →
     GetFromGist env perPage fuel owner gistId name w = (Fail ErrNotFound, w1)
     ∧ (putInGist env perPage fuel owner gistId name (inr data) w).2
       = {| forge := (Gists_Create env req (forge w1)).2;
            trace := trace w1 ++ [EvGistsCreate req] |}).
Proof.
  intros l w1 req He Hfuel.
  destruct fuel as [|fuel]; [lia|].
  assert (Hscan :
    eachGist env perPage (S fuel) owner (Some (gistNext gistId name)) None w
    = match resp l.1 with
      | Some rs =>
          if (StatusCode rs =? StatusNotFound)%Z then (Ret None, w1)
          else (Fail e, w1)
      | None => (Fail e, w1)
      end).
  { unfold eachGist. rewrite eachGist_from_S. unfold scan_turn.
    subst w1 l. destruct (Gists_List env owner 0 perPage (forge w)) as [r s'].
    simpl in *. by rewrite He. }
  split; [done|]. split.
  - intros Hne.
    assert (Hfail :
      eachGist env perPage (S fuel) owner (Some (gistNext gistId name)) None w
      = (Fail e, w1)).
    { rewrite Hscan. destruct (resp l.1) as [rs|]; [|done].
      destruct (StatusCode rs =? StatusNotFound)%Z eqn:E; [|done].
      apply Z.eqb_eq in E. by destruct (Hne rs eq_refl). }
    unfold GetFromGist, putInGist. by rewrite !(bind_Fail _ _ _ _ _ Hfail).
  - intros rs Hr Hst.
    assert (Hnone :
      eachGist env perPage (S fuel) owner (Some (gistNext gistId name)) None w
      = (Ret None, w1)).
    { rewrite Hscan, Hr. by rewrite (proj2 (Z.eqb_eq _ _) Hst). }
    split.
    + unfold GetFromGist. by rewrite (bind_Ret _ _ _ _ _ Hnone).
    + rewrite (putInGist_create_run (S fuel) gistId name data w w1 Hnone).
      fold req.
      destruct (err (Gists_Create env req (forge w1)).1); [done|].
      destruct (val (Gists_Create env req (forge w1)).1) as [g|]; [|done].
      by destruct (gf_RawURL (default zeroGistFile (g_Files g !! name))).
Qed.

End Served.

(** A put under a selector that no gist of the forge in memory
    carries: the gist created is described by the selector. *)
Lemma putInGist_creates_when_none_witness :
  let run := putInGist memEnv 2 5 "o" "zz" "x" (inr "new") (start sample) in
  run.1 = Ret "https://gist.example/g10/raw/x"
  ∧ g_Description <$> last (m_gists (forge run.2)) = Some (Some "zz")
  ∧ last (trace run.2)
    = Some (EvGistsCreate
              {| g_ID := None; g_Description := Some "zz";
                 g_Public := Some true;
                 g_Files := {[ "x" := {| gf_Filename := None;
                                         gf_Content := Some "new";
                                         gf_RawURL := None |} ]} |}).
Proof.
  destruct (putInGist_creates_when_none memEnv 2 "o" "zz" "x" "new"
              (start sample) [[gistA; gistB]; [gistC]] 5 sample_serves
              (or_intror sample_ids) ltac:(simpl; lia) eq_refl)
    as (w1 & visited & _ & Hw2 & _).
  cbv zeta in *. split; [vm_compute; reflexivity|].
  split; [vm_compute; reflexivity|].
  rewrite Hw2. simpl. by rewrite last_snoc.
Defined.

(** The forge in memory out of reach: the put returns the listing's
    error after the one request. *)
Lemma gist_listing_fails_witness :
  putInGist memEnv 2 5 "o" "b2" "x" (inr "new") (start (offline sample))
  = (Fail (other "connection refused"),
     {| forge := offline sample; trace := [EvGistsList "o" 0 2] |}).
Proof.
  destruct (gist_listing_fails memEnv 2 "o" "b2" "x" "new"
              (start (offline sample)) 5 (other "connection refused")
              eq_refl ltac:(lia)) as (_ & Hfail & _).
  destruct Hfail as [_ Hput]; [intros rs Hrs; discriminate Hrs|].
  exact Hput.
Defined.

End GistMore.

(** ** The release-asset driver: which asset is read, and what is missing *)

Module AssetMore.
Import Forge GistSpec AssetFacts MemForge MemSamples.

(** The loop of the get runs to the end of the list: of several assets
    of the name the last one decides. *)
Lemma findDownloadURL_last name pre a post url d :
  Forall (λ b, ∃ n, a_Name b = Some n
                    ∧ (n = name → is_Some (a_BrowserDownloadURL b))) pre →
  a_Name a = Some name → a_BrowserDownloadURL a = Some url →
  Forall (λ b, ∃ n, a_Name b = Some n ∧ n ≠ name) post →
  findDownloadURL name (pre ++ a :: post) d = Ret url.
Proof.
  intros Hpre Hn Hu Hpost. revert d.
  induction Hpre as [|b pre (n & Hb & Hurl) _ IH]; intros d; simpl.
  - rewrite Hn, Hu. rewrite decide_True by done.
    clear Hn Hu. induction Hpost as [|b post (n & Hb & Hne) _ IH]; [done|].
    simpl. rewrite Hb. by rewrite decide_False.
  - rewrite Hb. destruct (decide (n = name)) as [E|E]; [|apply IH].
    destruct (Hurl E) as [u ->]. apply IH.
Qed.

Lemma findDownloadURL_none name assets d :
  Forall (λ b, ∃ n, a_Name b = Some n ∧ n ≠ name) assets →
  findDownloadURL name assets d = Ret d.
Proof.
  induction 1 as [|b post (n & Hb & Hne) _ IH]; [done|].
  simpl. rewrite Hb. by rewrite decide_False.
Qed.

Section Assets.
Context {St : Type} (env : Env St).

(** The get up to the list of assets, when the release is there. *)
Lemma GetFromReleasesAsset_found owner repo release name w rel id rr :
  let lookup := Repositories_GetReleaseByTag env owner repo release (forge w) in
  let got := Repositories_GetRelease env owner repo id lookup.2 in
  let w2 := {| forge := got.2;
               trace := trace w ++ [EvGetReleaseByTag owner repo release;
                                    EvGetRelease owner repo id] |} in
  err lookup.1 = None → val lookup.1 = Some rel → r_ID rel = Some id →
  err got.1 = None → val got.1 = Some rr →
  GetFromReleasesAsset env owner repo release name w
  = match findDownloadURL name (r_Assets rr) EmptyString with
    | Ret u => if decide (u = EmptyString) then (Fail ErrNotFound, w2)
               else fetched env u w2
    | Fail e => (Fail e, w2)
    | Panic => (Panic, w2)
    | Diverge => (Diverge, w2)
    end.
Proof.
  intros lookup got w2 Hle Hlv Hid Hge Hgv. subst w2 got lookup.
  unfold GetFromReleasesAsset. mstep.
  destruct (Repositories_GetReleaseByTag env owner repo release (forge w))
    as [lookup s1]. simpl in *.
  unfold checkLookup, releaseIDOf. rewrite Hle, Hlv, Hid. mstep.
  destruct (Repositories_GetRelease env owner repo id s1) as [got s2].
  simpl in *. rewrite Hge, Hgv. mstep. rewrite <- !app_assoc. simpl.
  destruct (findDownloadURL name (r_Assets rr) EmptyString) as [u|e| |];
    try done.
  destruct (decide (u = EmptyString)); [done|].
  unfold fetched, httpGet. mstep.
  destruct (httpCli_Do env u s2) as [[body e] s3]. simpl.
  destruct e; [done|]. by destruct body.
Qed.

(** X6: when the release carries several assets of the given name, the
    get downloads the last of them (the put deletes the first one): the
    loop over the assets does not stop at a match.  The download is the
    one request made after the two lookups. *)
Theorem GetFromReleasesAsset_takes_last
    owner repo release name w rel id rr pre a post url :
  let lookup := Repositories_GetReleaseByTag env owner repo release (forge w) in
  let got := Repositories_GetRelease env owner repo id lookup.2 in
  let w2 := {| forge := got.2;
               trace := trace w ++ [EvGetReleaseByTag owner repo release;
                                    EvGetRelease owner repo id] |} in
  err lookup.1 = None → val lookup.1 = Some rel → r_ID rel = Some id →
  err got.1 = None → val got.1 = Some rr →
  r_Assets rr = pre ++ a :: post →
  Forall (λ b, ∃ n, a_Name b = Some n
                    ∧ (n = name → is_Some (a_BrowserDownloadURL b))) pre →
  a_Name a = Some name → a_BrowserDownloadURL a = Some url →
  url ≠ EmptyString →
  Forall (λ b, ∃ n, a_Name b = Some n ∧ n ≠ name) post →
  GetFromReleasesAsset env owner repo release name w = fetched env url w2.
Proof.
  intros lookup got w2 Hle Hlv Hid Hge Hgv Has Hpre Hn Hu Hne Hpost.
  subst w2 got lookup.
  rewrite (GetFromReleasesAsset_found owner repo release name w rel id rr
             Hle Hlv Hid Hge Hgv).
  rewrite Has, (findDownloadURL_last name pre a post url _ Hpre Hn Hu Hpost).
  by rewrite decide_False.
Qed.

(** X7: what an asset get answers when something is missing.  A lookup
    by tag that yields no release identifier (no error, or an error
    with a 404 response) gives [not found] after that one request; a
    lookup error with another status is returned as it is.  When the
    release is there and none of its assets has the name, the get
    gives [not found] after the two lookups, and nothing is downloaded;
    the same holds when the matching asset's download URL is the empty
    string. *)
Theorem GetFromReleasesAsset_not_found owner repo release name w :
  let lookup := Repositories_GetReleaseByTag env owner repo release (forge w) in
  let w1 := {| forge := lookup.2;
               trace := trace w ++ [EvGetReleaseByTag owner repo release] |} in
  let run := GetFromReleasesAsset env owner repo release name w in
  (releaseIDOf lookup.1 = None →
   (err lookup.1 = None
    ∨ ∃ rs, resp lookup.1 = Some rs ∧ StatusCode rs = StatusNotFound) →
   run = (Fail ErrNotFound, w1))
  ∧ (∀ e rs, err lookup.1 = Some e → resp lookup.1 = Some rs →
       StatusCode rs ≠ StatusNotFound → run = (Fail e, w1))
  ∧ (∀ rel id rr,
       err lookup.1 = None → val lookup.1 = Some rel → r_ID rel = Some id →
       let got := Repositories_GetRelease env owner repo id lookup.2 in
       let w2 := {| forge := got.2;
                    trace := trace w ++ [EvGetReleaseByTag owner repo release;
                                         EvGetRelease owner repo id] |} in
       (∀ e, err got.1 = Some e → run = (Fail e, w2))
       ∧ (err got.1 = None → val got.1 = Some rr →
          (Forall (λ b, ∃ n, a_Name b = Some n ∧ n ≠ name) (r_Assets rr)
           ∨ findDownloadURL name (r_Assets rr) EmptyString = Ret EmptyString) →
          run = (Fail ErrNotFound, w2))).
Proof.
  intros lookup w1 run. subst run w1 lookup. split; [|split].
  - intros Hid Hok. unfold GetFromReleasesAsset. mstep.
    destruct (Repositories_GetReleaseByTag env owner repo release (forge w))
      as [lookup s1]. simpl in *. rewrite Hid.
    destruct Hok as [He|(rs & Hr & Hs)].
    + unfold checkLookup. rewrite He. by mstep.
    + unfold checkLookup. destruct (err lookup) as [e|]; [|by mstep].
      rewrite Hr. mstep. by rewrite (proj2 (Z.eqb_eq _ _) Hs).
  - intros e rs He Hr Hs. unfold GetFromReleasesAsset. mstep.
    destruct (Repositories_GetReleaseByTag env owner repo release (forge w))
      as [lookup s1]. simpl in *.
    rewrite (checkLookup_with_response _ e rs _ He Hr).
    destruct (StatusCode rs =? 404)%Z eqn:E; [|done].
    apply Z.eqb_eq in E. done.
  - intros rel id rr Hle Hlv Hid got w2. split.
    + intros e He. subst w2 got. unfold GetFromReleasesAsset. mstep.
      destruct (Repositories_GetReleaseByTag env owner repo release (forge w))
        as [lookup s1]. simpl in *.
      unfold checkLookup, releaseIDOf. rewrite Hle, Hlv, Hid. mstep.
      destruct (Repositories_GetRelease env owner repo id s1) as [got s2].
      simpl in *. rewrite He. by rewrite <- !app_assoc.
    + intros Hge Hgv Hnone. subst w2 got.
      rewrite (GetFromReleasesAsset_found owner repo release name w rel id rr
                 Hle Hlv Hid Hge Hgv).
      destruct Hnone as [Hall|Hempty].
      * rewrite (findDownloadURL_none name _ _ Hall). by rewrite decide_True.
      * rewrite Hempty. by rewrite decide_True.
Qed.

(** X8: when the lookup by tag yields no release (no error, or a 404),
    the put creates one whose name and tag are both the given release
    and which is not a draft; nothing is read or deleted.  A refused
    creation is returned as the error, with no file opened; otherwise
    the file is opened and uploaded to the release just created, and
    closed after the upload. *)
Theorem putAsset_creates_release owner repo release name filename w :
  let lookup := Repositories_GetReleaseByTag env owner repo release (forge w) in
  let req := {| r_ID := None; r_Name := Some release;
                r_TagName := Some release; r_Draft := Some false;
                r_Assets := [] |} in
  let made := Repositories_CreateRelease env owner repo req lookup.2 in
  let t2 := trace w ++ [EvGetReleaseByTag owner repo release;
                        EvCreateRelease owner repo req] in
  let opened := os_Open env filename made.2 in
  let run := putInReleasesAssetWithFile env owner repo release name filename w in
  releaseIDOf lookup.1 = None →
  (err lookup.1 = None
   ∨ ∃ rs, resp lookup.1 = Some rs ∧ StatusCode rs = StatusNotFound) →
  (∀ e, err made.1 = Some e →
        run = (Fail e, {| forge := made.2; trace := t2 |}))
  ∧ (∀ rr id data, err made.1 = None → val made.1 = Some rr →
       r_ID rr = Some id → opened.1 = (Some data, None) →
       let up := Repositories_UploadReleaseAsset env owner repo id name data
                   opened.2 in
       let closed := os_Close env filename up.2 in
       let w5 := {| forge := closed.2;
                    trace := t2 ++ [EvOpen filename;
                                    EvUploadReleaseAsset owner repo id name data;
                                    EvClose filename] |} in
       (∀ e, err up.1 = Some e → run = (Fail e, w5))
       ∧ (∀ ra url, err up.1 = None → val up.1 = Some ra →
            a_BrowserDownloadURL ra = Some url → run = (Ret url, w5))).
Proof.
  intros lookup req made t2 opened run Hid Hok.
  assert (Hrun : run =
    match err made.1 with
    | Some e => (Fail e, {| forge := made.2; trace := t2 |})
    | None =>
        match val made.1 with
        | None => (Panic, {| forge := made.2; trace := t2 |})
        | Some rr =>
            match opened.1.2 with
            | Some e => (Fail e, {| forge := opened.2;
                                    trace := t2 ++ [EvOpen filename] |})
            | None =>
                with_defer
                  (_ ← call (EvClose filename) (os_Close env filename); mret tt)
                  (data ← deref opened.1.1;
                   id' ← deref (r_ID rr);
                   rep ← call (EvUploadReleaseAsset owner repo id' name data)
                           (Repositories_UploadReleaseAsset env owner repo id'
                              name data);
                   match err rep with
                   | Some e => fail e
                   | None => respAsset ← deref (val rep);
                             deref (a_BrowserDownloadURL respAsset)
                   end)
                  {| forge := opened.2; trace := t2 ++ [EvOpen filename] |}
            end
        end
    end).
  { subst run t2 opened made lookup. unfold putInReleasesAssetWithFile.
    rewrite bind_unfold, call_run.
    destruct (Repositories_GetReleaseByTag env owner repo release (forge w))
      as [lookup s1]. simpl in *. rewrite Hid.
    assert (Hck : ∀ w0 : world (St:=St), checkLookup lookup w0 = (Ret tt, w0)).
    { intros w0. unfold checkLookup. destruct Hok as [He|(rs & Hr & Hs)].
      - by rewrite He.
      - destruct (err lookup) as [e|]; [|done]. rewrite Hr. mstep.
        by rewrite (proj2 (Z.eqb_eq _ _) Hs). }
    rewrite bind_unfold, Hck. fold req. mstep.
    destruct (Repositories_CreateRelease env owner repo req s1) as [made s2].
    simpl. rewrite <- !app_assoc. simpl.
    destruct (err made) as [e|]; mstep; [done|].
    destruct (val made) as [rr|]; mstep; [|done].
    destruct (os_Open env filename s2) as [[f operr] s3]. simpl.
    rewrite <- !app_assoc. simpl. by destruct operr. }
  split.
  - intros e He. by rewrite Hrun, He.
  - intros rr id data He Hv Hrid Hop up closed w5.
    rewrite He, Hv, Hop in Hrun. simpl in Hrun. rewrite Hrid in Hrun.
    assert (Hbody : run =
      match err up.1 with
      | Some e => (Fail e, w5)
      | None =>
          match val up.1 with
          | None => (Panic, w5)
          | Some ra =>
              match a_BrowserDownloadURL ra with
              | Some url => (Ret url, w5)
              | None => (Panic, w5)
              end
          end
      end).
    { rewrite Hrun. subst w5 closed up. unfold with_defer. mstep.
      destruct (err (Repositories_UploadReleaseAsset env owner repo id name
                       data opened.2).1) as [e|]; mstep.
      { by rewrite <- !app_assoc. }
      destruct (val (Repositories_UploadReleaseAsset env owner repo id name
                       data opened.2).1) as [ra|]; mstep;
        [|by rewrite <- !app_assoc].
      destruct (a_BrowserDownloadURL ra); mstep; by rewrite <- !app_assoc. }
    split.
    + intros e Hue. by rewrite Hbody, Hue.
    + intros ra url Hue Hra Hurl. by rewrite Hbody, Hue, Hra, Hurl.
Qed.

End Assets.

(** Of the two assets named [tool.tgz] the second one is downloaded. *)
Lemma GetFromReleasesAsset_takes_last_witness :
  GetFromReleasesAsset memEnv "o" "r" "v1" "tool.tgz" (start twice)
  = (Ret (ReaderWithAutoCloser "second bytes"),
     {| forge := twice;
        trace := [EvGetReleaseByTag "o" "r" "v1"; EvGetRelease "o" "r" 5;
                  EvHttpGet "https://forge.example/o/r/releases/download/5/tool-2.tgz"] |}).
Proof.
  rewrite (GetFromReleasesAsset_takes_last memEnv "o" "r" "v1" "tool.tgz"
             (start twice) releaseTwice 5%Z releaseTwice [assetOld] assetNew []
             "https://forge.example/o/r/releases/download/5/tool-2.tgz"
             eq_refl eq_refl eq_refl eq_refl eq_refl eq_refl
             ltac:(apply Forall_cons; split;
                     [exists "tool.tgz"; split; [reflexivity|];
                      intros _; eexists; reflexivity
                     | apply Forall_nil_2])
             eq_refl eq_refl ltac:(done) ltac:(apply Forall_nil_2)).
  reflexivity.
Defined.

(** A name that no asset of the release carries, and a tag that no
    release carries. *)
Lemma GetFromReleasesAsset_not_found_witness :
  GetFromReleasesAsset memEnv "o" "r" "v1" "absent.bin" (start sample)
  = (Fail ErrNotFound,
     {| forge := sample;
        trace := [EvGetReleaseByTag "o" "r" "v1"; EvGetRelease "o" "r" 5] |})
  ∧ GetFromReleasesAsset memEnv "o" "r" "v9" "tool.tgz" (start sample)
    = (Fail ErrNotFound,
       {| forge := sample; trace := [EvGetReleaseByTag "o" "r" "v9"] |}).
Proof.
  split.
  - destruct (GetFromReleasesAsset_not_found memEnv "o" "r" "v1" "absent.bin"
                (start sample)) as (_ & _ & Hrel).
    destruct (Hrel releaseV1 5%Z releaseV1 eq_refl eq_refl eq_refl)
      as [_ Hnone].
    apply Hnone; [reflexivity|reflexivity|]. left.
    repeat (apply Forall_cons; split; [eexists; split; [reflexivity|done]|]).
    apply Forall_nil_2.
  - destruct (GetFromReleasesAsset_not_found memEnv "o" "r" "v9" "tool.tgz"
                (start sample)) as (Hmissing & _).
    apply Hmissing; [reflexivity|]. right.
    exists {| StatusCode := 404; NextPage := 0 |}. split; reflexivity.
Defined.

(** The put of [tool.tgz] under a tag that no release carries: the
    release is created with the next identifier and takes the upload. *)
Lemma putAsset_creates_release_witness :
  let run := putInReleasesAssetWithFile memEnv "o" "r" "v2" "tool.tgz"
               "/tmp/tool.tgz" (start sample) in
  run.1 = Ret "https://forge.example/o/r/releases/download/10/tool.tgz"
  ∧ trace run.2
    = [EvGetReleaseByTag "o" "r" "v2";
       EvCreateRelease "o" "r"
         {| r_ID := None; r_Name := Some "v2"; r_TagName := Some "v2";
            r_Draft := Some false; r_Assets := [] |};
       EvOpen "/tmp/tool.tgz";
       EvUploadReleaseAsset "o" "r" 10 "tool.tgz" "new bytes";
       EvClose "/tmp/tool.tgz"].
Proof.
  destruct (putAsset_creates_release memEnv "o" "r" "v2" "tool.tgz"
              "/tmp/tool.tgz" (start sample) eq_refl
              (or_intror (ex_intro _ {| StatusCode := 404; NextPage := 0 |}
                            (conj eq_refl eq_refl))))
    as [_ Hmade].
  edestruct (Hmade _ 10%Z "new bytes" eq_refl eq_refl eq_refl eq_refl)
    as [_ Hdone].
  cbv zeta. rewrite (Hdone _ _ eq_refl eq_refl eq_refl). split; reflexivity.
Defined.

End AssetMore.

(** ** The drivers that go through a local file *)

Module FilesMore.
Import Forge AssetFacts MemForge.

Section Files.
Context {St : Type} (env : Env St).
Variable perPage : Z.
Variable tmpDir : string.

(** X17: the gist put from a local file requests nothing when the file
    cannot be opened and returns the error of [os.Open]; otherwise it
    puts the content of the file, and when that put ends (with a URL,
    an error or a panic) the file is closed, as the last call, and the
    outcome is the one of the put. *)
Theorem putInGistWithFile_closes fuel owner gistId name filename w :
  let opened := os_Open env filename (forge w) in
  let w1 := {| forge := opened.2; trace := trace w ++ [EvOpen filename] |} in
  let run := putInGistWithFile env perPage fuel owner gistId name filename w in
  (∀ e, opened.1.2 = Some e → run = (Fail e, w1))
  ∧ (∀ data, opened.1 = (Some data, None) →
       let put := putInGist env perPage fuel owner gistId name (inr data) w1 in
       put.1 ≠ Diverge →
       run = (put.1, {| forge := (os_Close env filename (forge put.2)).2;
                        trace := trace put.2 ++ [EvClose filename] |})).
Proof.
  intros opened w1 run. subst run. unfold putInGistWithFile.
  rewrite bind_unfold, call_run. fold opened. cbn [fst snd]. fold w1.
  destruct (opened.1) as [f e] eqn:E. cbn [fst snd]. split.
  - by intros e' ->.
  - intros data [= -> ->] _. unfold with_defer. mstep.
    destruct (putInGist env perPage fuel owner gistId name (inr data) w1)
      as [o w2].
    cbn [fst snd]. by rewrite bind_unfold, call_run.
Qed.


End Files.

(** A file that is not there, and the file of the sample put into the
    gist [b2]. *)
Lemma putInGistWithFile_closes_witness :
  putInGistWithFile memEnv 2 5 "o" "b2" "x" "/nowhere" (start sample)
  = (Fail (other "no such file or directory"),
     {| forge := sample; trace := [EvOpen "/nowhere"] |})
  ∧ let run :=
      putInGistWithFile memEnv 2 5 "o" "b2" "x" "/tmp/tool.tgz" (start sample) in
    run.1 = Ret "https://gist.example/b2/raw/x"
    ∧ last (trace run.2) = Some (EvClose "/tmp/tool.tgz").
Proof.
  split.
  - exact (proj1 (putInGistWithFile_closes memEnv 2 5 "o" "b2" "x" "/nowhere"
                    (start sample)) _ eq_refl).
  - cbv zeta.
    rewrite (proj2 (putInGistWithFile_closes memEnv 2 5 "o" "b2" "x"
                      "/tmp/tool.tgz" (start sample)) "new bytes" eq_refl)
      by (vm_compute; discriminate).
    split; [vm_compute; reflexivity|]. cbn [snd trace]. by rewrite last_snoc.
Defined.


End FilesMore.

(** ** The constructor: precedence of the options, and what no option reaches *)

Module OptionsMore.
Import Options OptionsSpec.

Section Options.
Context {L : Libraries}.

Lemma run_options_app (o1 o2 : list (option (Option L))) p :
  run_options (o1 ++ o2) p = run_options o2 (run_options o1 p).
Proof. apply foldl_app. Qed.

Lemma run_options_leaves {A} (field : PutInGH L → A) opts p :
  Forall (leaves field) opts → field (run_options opts p) = field p.
Proof.
  intros H. revert p. induction H as [|o opts Ho _ IH]; intros p; [done|].
  change (run_options (o :: opts) p)
    with (run_options opts (run_options [o] p)).
  by rewrite IH, Ho.
Qed.

Lemma NewPutInGH_last {A} (field : PutInGH L → A) tok before o after v :
  (∀ p c, field (set_cliv3 p c) = field p) →
  (∀ p, field (o p) = v) → Forall (leaves field) after →
  field (NewPutInGH L tok (before ++ Some o :: after)) = v.
Proof.
  intros Hset Ho Hafter. unfold NewPutInGH. cbv zeta.
  rewrite Hset, run_options_app.
  change (run_options (Some o :: after) ?p) with (run_options after (o p)).
  by rewrite run_options_leaves.
Qed.

Lemma NewPutInGH_untouched {A} (field : PutInGH L → A) tok opts :
  (∀ p c, field (set_cliv3 p c) = field p) →
  Forall (leaves field) opts →
  field (NewPutInGH L tok opts) = field (NewPutInGH L tok []).
Proof.
  intros Hset Hopts. unfold NewPutInGH. cbv zeta.
  rewrite !Hset. by rewrite run_options_leaves.
Qed.

(** X19: the options are applied in the order given, after the
    defaults, and nil options are skipped: a field has the value that
    the last option setting it gives, and the value of the defaults when
    no option touches it.  This holds for every field but the client of
    the API, which is set after the options.  The defaults are the host
    [https://github.com], the directory [./tmp/], pages of 100, the
    author [bot] without an address and the message [Automatic update]
    followed by the name. *)
Theorem NewPutInGH_precedence tok :
  (∀ A (field : PutInGH L → A),
     (∀ p c, field (set_cliv3 p c) = field p) →
     (∀ before o after v,
        (∀ p, field (o p) = v) → Forall (leaves field) after →
        field (NewPutInGH L tok (before ++ Some o :: after)) = v)
     ∧ (∀ opts, Forall (leaves field) opts →
          field (NewPutInGH L tok opts) = field (NewPutInGH L tok [])))
  ∧ (∀ before after,
       NewPutInGH L tok (before ++ None :: after)
       = NewPutInGH L tok (before ++ after))
  ∧ perPage (NewPutInGH L tok []) = 100%Z
  ∧ git_config (NewPutInGH L tok [])
    = Some {| Git.tmpDir := "./tmp/"; Git.host := "https://github.com";
              Git.token := tok;
              Git.gitCommitMessage := λ _ _ _ name _,
                "Automatic update " +:+ name;
              Git.gitCommitOption := λ _ _ _ _ _,
                {| Git.Author := Some {| Git.sig_Name := "bot";
                                         Git.sig_Email := "" |} |} |}.
Proof.
  split; [|split; [|done]].
  - intros A field Hset. split.
    + intros before o after v. by apply NewPutInGH_last.
    + intros opts. by apply NewPutInGH_untouched.
  - intros before after. unfold NewPutInGH. cbv zeta.
    by rewrite !run_options_app.
Qed.

Lemma exported_leaves_token f : exported f → leaves (L:=L) token (Some f).
Proof. by intros []. Qed.

(** X20: what no option reaches.  The client of the API is built on
    the OAuth client of the token, made with a nil context before any
    option is applied: no option changes it, neither [WithHTTPClient]
    nor [WithContext].  The options the package exports leave the token
    alone, so the git driver authenticates with the token given to the
    constructor; without [WithHTTPClient] the client of the downloads
    is that OAuth client too. *)
Theorem NewPutInGH_token_and_clients tok opts :
  let p := NewPutInGH L tok opts in
  let oauth := oauth2_NewClient L None tok in
  cliv3 p = Some (ghv3_NewClient L oauth)
  ∧ (Forall (λ o, ∀ f, o = Some f → exported f) opts →
     token p = tok
     ∧ (∀ s owner, git_config p = Some s →
          Git.gitBasicAuth s owner
          = {| Git.Username := owner; Git.Password := tok |})
     ∧ (Forall (leaves (L:=L) httpCli) opts → httpCli p = Some oauth)).
Proof.
  intros p oauth. split; [done|]. intros Hex.
  assert (Htok : token p = tok).
  { subst p.
    rewrite NewPutInGH_untouched; [done|done|].
    eapply Forall_impl; [exact Hex|]. intros [f|] Hf; [|done].
    by apply exported_leaves_token, Hf. }
  split; [exact Htok|]. split.
  - intros s owner Hs. unfold git_config in Hs.
    destruct (gitCommitMessage p), (gitCommitOption p); simplify_eq/=.
    unfold Git.gitBasicAuth. simpl. by rewrite Htok.
  - intros Hcli. subst p. unfold NewPutInGH. cbv zeta.
    change (httpCli (set_cliv3 ?q ?c)) with (httpCli q).
    by rewrite run_options_leaves.
Qed.

End Options.

(** Two hosts, a nil option and a directory: the later host is kept,
    and the page size is the one of the defaults. *)
Lemma NewPutInGH_precedence_witness :
  host (NewPutInGH plain "t"
          [Some (WithHost plain "a"); None; Some (WithHost plain "b");
           Some (WithTmpDir plain "d")]) = "b"
  ∧ perPage (NewPutInGH plain "t" [Some (WithHost plain "a")]) = 100%Z.
Proof.
  split.
  - destruct (NewPutInGH_precedence (L:=plain) "t") as [Hfield _].
    destruct (Hfield _ host (λ _ _, eq_refl)) as [Hlast _].
    apply (Hlast [Some (WithHost plain "a"); None] (WithHost plain "b")
             [Some (WithTmpDir plain "d")] "b"); [done|].
    apply Forall_cons; split; [done|apply Forall_nil_2].
  - destruct (NewPutInGH_precedence (L:=plain) "t") as [Hfield _].
    destruct (Hfield _ perPage (λ _ _, eq_refl)) as [_ Hdefault].
    rewrite Hdefault; [reflexivity|].
    apply Forall_cons; split; [done|apply Forall_nil_2].
Defined.

(** A wrapper around the HTTP client and a nil context: the client of
    the API is the bare OAuth client all the same. *)
Lemma NewPutInGH_token_and_clients_witness :
  let p := NewPutInGH plain "t"
             [Some (WithHTTPClient plain (fmap Logging));
              Some (WithContext plain None)] in
  cliv3 p = Some (OAuth None "t") ∧ token p = "t"
  ∧ httpCli p = Some (Logging (OAuth None "t")).
Proof.
  cbv zeta.
  destruct (NewPutInGH_token_and_clients (L:=plain) "t"
              [Some (WithHTTPClient plain (fmap Logging));
               Some (WithContext plain None)]) as [Hapi Hrest].
  split; [exact Hapi|]. split; [|reflexivity].
  apply Hrest.
  apply Forall_cons; split; [intros f [= <-]; constructor|].
  apply Forall_cons; split; [intros f [= <-]; constructor|apply Forall_nil_2].
Defined.

End OptionsMore.

(** ** The git driver: what reaches the forge, and when *)

Module GitMore.
Import Git GitSample GitSpec GitSpecMore GitFacts.

(** *** Calls that leave the store alone *)

Lemma keeps_ret {A} (a : A) : keeps (mret a).
Proof. done. Qed.

Lemma keeps_fail {A} e : keeps (fail e : M world A).
Proof. done. Qed.

Lemma keeps_bind {A B} (m : M world A) (f : A → M world B) :
  keeps m → (∀ a, keeps (f a)) → keeps (m ≫= f).
Proof.
  intros Hm Hf w. rewrite bind_unfold. specialize (Hm w).
  destruct (m w) as [[a|e| |] w1]; simpl in *; try done.
  destruct Hm as [Hs Hfa]. destruct (Hf a w1) as [Hs' Hfa'].
  split; [exact (store_same_trans _ _ _ Hs Hs')|congruence].
Qed.

Lemma keeps_run {A} (m : M world A) w o w' :
  keeps m → m w = (o, w') → store_same w w' ∧ faults w' = faults w.
Proof. intros Hm H. specialize (Hm w). by rewrite H in Hm. Qed.

Lemma keeps_try {A} (m : M world A) : keeps m → keeps (try m).
Proof.
  intros Hm w. unfold try. specialize (Hm w).
  by destruct (m w) as [[a|e| |] w1].
Qed.

Lemma keeps_wrapping {A} ctx (m : M world A) : keeps m → keeps (wrapping ctx m).
Proof.
  intros Hm w. unfold wrapping. specialize (Hm w).
  by destruct (m w) as [[a|e| |] w1].
Qed.

Ltac keep_call :=
  intros ?; unfold lib, on_repo, store_same, mret, M_ret, fail; cbv zeta;
  repeat match goal with
         | |- context [match ?x with _ => _ end] => destruct x
         | |- context [if ?x then _ else _] => destruct x
         end; simpl; done.

Lemma keeps_MkdirAll p : keeps (os_MkdirAll p).
Proof. unfold os_MkdirAll. keep_call. Qed.
Lemma keeps_Stat d : keeps (os_Stat_dotgit d).
Proof. unfold os_Stat_dotgit. keep_call. Qed.
Lemma keeps_PlainOpen d : keeps (PlainOpen d).
Proof. unfold PlainOpen. keep_call. Qed.
Lemma keeps_PlainInit d : keeps (PlainInit d).
Proof. unfold PlainInit. keep_call. Qed.
Lemma keeps_SetReference d r : keeps (Storer_SetReference d r).
Proof. unfold Storer_SetReference. keep_call. Qed.
Lemma keeps_Remote d n : keeps (Repository_Remote d n).
Proof. unfold Repository_Remote. keep_call. Qed.
Lemma keeps_CreateRemote d c : keeps (Repository_CreateRemote d c).
Proof. unfold Repository_CreateRemote. keep_call. Qed.
Lemma keeps_Branch d n : keeps (Repository_Branch d n).
Proof. unfold Repository_Branch. keep_call. Qed.
Lemma keeps_CreateBranch d c : keeps (Repository_CreateBranch d c).
Proof. unfold Repository_CreateBranch. keep_call. Qed.
Lemma keeps_Fetch d rem n rs a : keeps (Remote_FetchContext d rem n rs a).
Proof. unfold Remote_FetchContext. keep_call. Qed.
Lemma keeps_IterReferences d : keeps (Storer_IterReferences d).
Proof. unfold Storer_IterReferences. keep_call. Qed.
Lemma keeps_Next d it : keeps (ReferenceIter_Next d it).
Proof. unfold ReferenceIter_Next. keep_call. Qed.
Lemma keeps_Worktree d : keeps (Repository_Worktree d).
Proof. unfold Repository_Worktree. keep_call. Qed.
Lemma keeps_Reset d h : keeps (Worktree_Reset_Hard d h).
Proof. unfold Worktree_Reset_Hard. keep_call. Qed.
Lemma keeps_OpenFile d n : keeps (os_OpenFile d n).
Proof. unfold os_OpenFile. keep_call. Qed.
Lemma keeps_Copy d n x : keeps (io_Copy d n x).
Proof. unfold io_Copy. keep_call. Qed.
Lemma keeps_Close d n : keeps (File_Close d n).
Proof. unfold File_Close. keep_call. Qed.
Lemma keeps_Open d n : keeps (os_Open d n).
Proof. unfold os_Open. keep_call. Qed.
Lemma keeps_Add d n : keeps (Worktree_Add d n).
Proof. unfold Worktree_Add. keep_call. Qed.
Lemma keeps_Status d : keeps (Worktree_Status d).
Proof. unfold Worktree_Status. keep_call. Qed.

Ltac keeping :=
  repeat first
    [ apply keeps_ret | apply keeps_fail
    | apply keeps_try | apply keeps_wrapping
    | apply keeps_MkdirAll | apply keeps_Stat | apply keeps_PlainOpen
    | apply keeps_PlainInit | apply keeps_SetReference | apply keeps_Remote
    | apply keeps_CreateRemote | apply keeps_Branch | apply keeps_CreateBranch
    | apply keeps_Fetch | apply keeps_IterReferences | apply keeps_Next
    | apply keeps_Worktree | apply keeps_Reset | apply keeps_OpenFile
    | apply keeps_Copy | apply keeps_Close | apply keeps_Open
    | apply keeps_Add | apply keeps_Status
    | apply keeps_bind; [|intros ?]
    | match goal with
      | |- keeps (match ?x with _ => _ end) => destruct x
      | |- keeps (if ?x then _ else _) => destruct x
      | |- keeps (let '(_, _) := ?x in _) => destruct x
      end ].

Lemma keeps_fetchGit_sync s owner repo b : keeps (fetchGit_sync s owner repo b).
Proof. unfold fetchGit_sync. cbv zeta. keeping. Qed.

Lemma keeps_fetchGit s owner repo b : keeps (fetchGit s owner repo b).
Proof.
  unfold fetchGit, fetchGit_bind, fetchGit_open, fetchGit_configure,
    fetchGit_fetch. cbv zeta. keeping; apply keeps_fetchGit_sync.
Qed.

Lemma keeps_putInGit_stage s owner repo b name data :
  keeps (putInGit_stage s owner repo b name data).
Proof.
  unfold putInGit_stage. apply keeps_bind; [apply keeps_fetchGit|].
  intros [d r]. unfold putInGit_write. keeping.
Qed.

Lemma keeps_GetFromGit s owner repo b name :
  keeps (GetFromGit s owner repo b name).
Proof.
  unfold GetFromGit. apply keeps_bind; [apply keeps_fetchGit|].
  intros [d r]. keeping.
Qed.

(** X9: a get only reads the forge.  In every world and however it
    ends, [GetFromGit] makes no commit call and no push call, and the
    commits stored and the branches of the forge are afterwards what
    they were. *)
Theorem GetFromGit_only_reads s owner repo b name w :
  let w' := (GetFromGit s owner repo b name w).2 in
  commits w' = commits w ∧ pushes w' = pushes w
  ∧ objects w' = objects w ∧ upstream w' = upstream w.
Proof.
  cbv zeta. destruct (quiet_GetFromGit s owner repo b name w) as [Hc Hp].
  destruct (keeps_GetFromGit s owner repo b name w) as [[Ho Hu] _].
  done.
Qed.

(** *** How a put ends *)

Lemma lib_trace {A} ev (work : M world A) w :
  silent work → trace (lib ev work w).2 = trace w ++ [ev].
Proof.
  intros Hs. unfold lib. destruct (faults w (length (trace w))); [done|].
  by rewrite Hs.
Qed.

Lemma silent_Push dir n :
  silent (on_repo dir (λ r w,
    match find (λ c, bool_decide (rc_Name c = n)) (remotes r) with
    | None => (Fail ErrRemoteNotFound, w)
    | Some remote =>
        match rc_URLs remote with
        | [] => (Fail (other "malformed remote"), w)
        | url :: _ =>
            let up := default ∅ (upstream w !! url) in
            let news := to_push up (refs r) in
            match news with
            | [] => (Fail NoErrAlreadyUpToDate, w)
            | _ =>
                if forallb (fast_forward (objects w) up) news then
                  (Ret tt,
                   put_repo dir
                     (with_refs r (foldr (track remote) (refs r) news))
                     (set_upstream w
                        (<[url := foldr (λ x m, <[ref_name x := Reference_Hash x]> m)
                                    up news]> (upstream w))))
                else (Fail (other "non-fast-forward update"), w)
            end
        end
    end)).
Proof.
  apply silent_on_repo. intros r w.
  destruct (find _ (remotes r)) as [remote|]; [|done].
  destruct (rc_URLs remote) as [|u ?]; [done|]. cbv zeta.
  destruct (to_push _ _); [done|]. by destruct (forallb _ _).
Qed.

Lemma Commit_trace dir msg opt w :
  trace (Worktree_Commit dir msg opt w).2 = trace w ++ [EvCommit dir msg opt].
Proof. apply lib_trace, silent_Commit. Qed.

Lemma Push_trace dir n auth w :
  trace (Repository_PushContext dir n auth w).2 = trace w ++ [EvPush dir n auth].
Proof. apply lib_trace, silent_Push. Qed.

(** A commit adds to the object store and leaves the forge alone. *)
Lemma Commit_upstream dir msg opt w :
  upstream (Worktree_Commit dir msg opt w).2 = upstream w.
Proof.
  unfold Worktree_Commit, lib, on_repo.
  destruct (faults w (length (trace w))); [done|].
  destruct (dotgit (the_dir (log _ w) dir)) as [r|]; [|done].
  by destruct (head_target (refs r)).
Qed.

(** Only a push that succeeds changes the forge. *)
Lemma Push_upstream dir n auth w :
  (Repository_PushContext dir n auth w).1 ≠ Ret tt →
  upstream (Repository_PushContext dir n auth w).2 = upstream w.
Proof.
  unfold Repository_PushContext, lib, on_repo.
  destruct (faults w (length (trace w))); [done|].
  destruct (dotgit (the_dir (log _ w) dir)) as [r|]; [|done].
  destruct (find _ (remotes r)) as [remote|]; [|done].
  destruct (rc_URLs remote) as [|u ?]; [done|]. cbv zeta.
  destruct (to_push _ _); [done|]. by destruct (forallb _ _).
Qed.

Lemma Push_fails_clean dir n auth w e w' :
  Repository_PushContext dir n auth w = (Fail e, w') → unchanged w w'.
Proof.
  apply lib_fails_clean. apply on_repo_fail_same. intros r w0 e0 w0'.
  destruct (find _ (remotes r)) as [remote|]; [|by intros [= _ <-]].
  destruct (rc_URLs remote) as [|u ?]; [by intros [= _ <-]|]. cbv zeta.
  destruct (to_push _ _); [by intros [= _ <-]|].
  destruct (forallb _ _); [done|by intros [= _ <-]].
Qed.

Section Ends.
Variable s : PutInGH.
Variables owner repo b name data : string.

Abbreviation pdir := (mirrorDir s owner repo b).
Abbreviation stage := (putInGit_stage s owner repo b name data).
Abbreviation put := (putInGit s owner repo b name data).
Abbreviation url :=
  (gitURL s owner repo +:+ "/raw/" +:+ b +:+ "/" +:+ name).
Abbreviation mirror_owned := (GitSpec.mirror_owned s owner repo b).
Abbreviation held := (holds_at s owner repo b name data).

Lemma fetchGit_sync_dirs w d1 d2 w' :
  fetchGit_sync s owner repo b w = (Ret (d1, d2), w') → d1 = pdir ∧ d2 = pdir.
Proof.
  intros H. unfold fetchGit_sync in H. cbv zeta in H.
  bind_inv H it w1 H1. bind_inv H ref w2 H2. bind_inv H u w3 H3.
  unfold mret, M_ret in H. by simplify_eq.
Qed.

Lemma fetchGit_dirs w d1 d2 w' :
  fetchGit s owner repo b w = (Ret (d1, d2), w') → d1 = pdir ∧ d2 = pdir.
Proof.
  intros H. unfold fetchGit in H.
  bind_inv H remote w1 H1. bind_inv H fetched w2 H2.
  destruct fetched as [err|[]]; [|by apply fetchGit_sync_dirs in H].
  destruct (negb (errors_Is err NoErrAlreadyUpToDate)
            && negb (errors_Is err ErrEmptyRemoteRepository));
    [|by apply fetchGit_sync_dirs in H].
  destruct (negb (errors_As_NoMatchingRefSpecError err)); [done|].
  by apply fetchGit_sync_dirs in H.
Qed.

Lemma stage_dir w d st ws : stage w = (Ret (d, st), ws) → d = pdir.
Proof.
  intros H. unfold putInGit_stage in H. bind_inv H dd w1 H1.
  destruct dd as [d1 d2]. apply fetchGit_dirs in H1 as [-> ->].
  unfold putInGit_write in H.
  bind_inv H u1 w2 H2. bind_inv H u2 w3 H3. bind_inv H copied w4 H4.
  destruct copied as [err|[]].
  - bind_inv H u5 w5 H5. done.
  - bind_inv H u5 w5 H5. bind_inv H work w6 H6. bind_inv H u7 w7 H7.
    bind_inv H status w8 H8. unfold mret, M_ret in H. by simplify_eq.
Qed.

(** The put after its stage, call by call. *)
Lemma put_after_stage w d st ws :
  stage w = (Ret (d, st), ws) →
  d = pdir
  ∧ (changed st name = false → put w = (Ret url, ws))
  ∧ (changed st name = true →
     let msg := gitCommitMessage s owner repo b name (filepath_Join [pdir; name]) in
     let opt := gitCommitOption s owner repo b name (filepath_Join [pdir; name]) in
     let auth := {| Username := owner; Password := token s |} in
     let c := Worktree_Commit pdir msg opt ws in
     let p := Repository_PushContext pdir ("origin-" +:+ b) auth c.2 in
     trace c.2 = trace ws ++ [EvCommit pdir msg opt]
     ∧ trace p.2 = trace ws ++ [EvCommit pdir msg opt;
                                EvPush pdir ("origin-" +:+ b) auth]
     ∧ put w
       = match c.1 with
         | Ret _ =>
             match p.1 with
             | Ret _ => (Ret url, p.2)
             | Fail e => (Fail (wrap "git push" e), p.2)
             | Panic => (Panic, p.2)
             | Diverge => (Diverge, p.2)
             end
         | Fail e => (Fail (wrap "git commit" e), c.2)
         | Panic => (Panic, c.2)
         | Diverge => (Diverge, c.2)
         end).
Proof.
  intros H. pose proof (stage_dir _ _ _ _ H) as ->. split; [done|]. split.
  - intros Hc. exact (put_unchanged s owner repo b name data _ _ _ _ H Hc).
  - intros Hc msg opt auth c p. split; [apply Commit_trace|]. split.
    + subst p. rewrite Push_trace. subst c. rewrite Commit_trace.
      by rewrite <- app_assoc.
    + unfold putInGit. rewrite (bind_Ret _ _ _ _ _ H). simpl. rewrite Hc.
      rewrite !bind_unfold. unfold wrapping at 1. fold msg opt. fold c.
      destruct c as [[h|e| |] w2] eqn:Ec; simpl; try done.
      unfold wrapping. unfold gitRemoteName, gitBasicAuth. fold auth.
      subst p. simpl.
      by destruct (Repository_PushContext pdir ("origin-" +:+ b) auth w2)
        as [[[]|e| |] w3].
Qed.

(** X10: how a put ends once the file is written and staged.  With a
    clean status nothing more is called and the URL is returned.
    Otherwise the commit is called, with the message and options of the
    configuration; if it fails the put returns its error as
    [git commit: ...] and no push is called; if it succeeds the push is
    called next, on the remote of the branch and with the owner as user
    name and the token as password, and the put returns the push's
    error as [git push: ...] or the URL.  The URL is put together from
    host, owner, repository, branch and name, whatever the forge holds. *)
Theorem put_ends w d st ws :
  stage w = (Ret (d, st), ws) →
  d = pdir
  ∧ (changed st name = false → put w = (Ret url, ws))
  ∧ (changed st name = true →
     let msg := gitCommitMessage s owner repo b name (filepath_Join [pdir; name]) in
     let opt := gitCommitOption s owner repo b name (filepath_Join [pdir; name]) in
     let auth := {| Username := owner; Password := token s |} in
     let c := Worktree_Commit pdir msg opt ws in
     let p := Repository_PushContext pdir ("origin-" +:+ b) auth c.2 in
     trace c.2 = trace ws ++ [EvCommit pdir msg opt]
     ∧ trace p.2 = trace ws ++ [EvCommit pdir msg opt;
                                EvPush pdir ("origin-" +:+ b) auth]
     ∧ put w
       = match c.1 with
         | Ret _ =>
             match p.1 with
             | Ret _ => (Ret url, p.2)
             | Fail e => (Fail (wrap "git push" e), p.2)
             | Panic => (Panic, p.2)
             | Diverge => (Diverge, p.2)
             end
         | Fail e => (Fail (wrap "git commit" e), c.2)
         | Panic => (Panic, c.2)
         | Diverge => (Diverge, c.2)
         end).
Proof. apply put_after_stage. Qed.

(** X11: the branches of the forge change only through a push that
    succeeded: after a put that did not return a URL they are what they
    were before it. *)
Theorem failed_put_leaves_forge w :
  (∀ u, (putInGit s owner repo b name data w).1 ≠ Ret u) →
  upstream (putInGit s owner repo b name data w).2 = upstream w.
Proof.
  intros Hfail.
  destruct (keeps_putInGit_stage s owner repo b name data w) as [[_ Hst] _].
  destruct (stage w) as [[[d st]|e| |] ws] eqn:E.
  - destruct (put_after_stage _ _ _ _ E) as (-> & Hsame & Hdiff). simpl in Hst.
    destruct (changed st name) eqn:Hc.
    + destruct (Hdiff eq_refl) as (_ & _ & Hput). cbv zeta in Hput.
      rewrite Hput in Hfail |- *.
      pose proof (Commit_upstream pdir
        (gitCommitMessage s owner repo b name (filepath_Join [pdir; name]))
        (gitCommitOption s owner repo b name (filepath_Join [pdir; name])) ws)
        as Hcu.
      destruct (Worktree_Commit pdir _ _ ws) as [[h|e| |] w2]; simpl in *;
        try congruence.
      pose proof (Push_upstream pdir ("origin-" +:+ b)
                    {| Username := owner; Password := token s |} w2) as Hpu.
      destruct (Repository_PushContext pdir _ _ w2) as [[[]|e| |] w3];
        simpl in *.
      * by destruct (Hfail url).
      * rewrite Hpu by done. congruence.
      * rewrite Hpu by done. congruence.
      * rewrite Hpu by done. congruence.
    + rewrite (Hsame eq_refl) in Hfail. by destruct (Hfail url).
  - rewrite (put_stage_failed s owner repo b name data w); rewrite E; done.
  - rewrite (put_stage_failed s owner repo b name data w); rewrite E; done.
  - rewrite (put_stage_failed s owner repo b name data w); rewrite E; done.
Qed.

(** *** After a put: what the mirror holds *)

Lemma held_owned w :
  held w → mirror_owned w.
Proof.
  intros (h & rt & idx & fs & Hm & _). exists (Some h), rt, idx, fs.
  left. eauto.
Qed.

(** A put that returned leaves the branch of the mirror at a commit
    holding the content. *)
Lemma put_leaves_held w u w1 :
  mirror_owned w → put w = (Ret u, w1) → held w1.
Proof.
  intros (lb & rt & idx & fs & Ho) Hput.
  pose proof Hput as Hput'. unfold putInGit in Hput'.
  bind_inv Hput' dst ws H. destruct dst as [d st]. clear Hput'.
  destruct (stage_analysis s owner repo b name data _ _ _ _ _ _ _ _ Ho H)
    as (-> & _ & lb' & rt' & idx' & fs' & Hm & Hst & _).
  pose proof (committed_mirror_at s owner repo b name _ _ _ _ _ Hm) as Hcm.
  destruct (written_status name data
              (tree_at (objects ws) (default ZeroHash lb')) idx' fs')
    as [Hsame Hdiff]. cbv zeta in Hsame, Hdiff. rewrite <- Hst in Hsame, Hdiff.
  destruct (decide (tree_at (objects ws) (default ZeroHash lb') !! name
                    = Some data)) as [Heq|Hne].
  - destruct (Hsame Heq) as [_ Hch].
    rewrite (put_unchanged s owner repo b name data _ _ _ _ H Hch) in Hput.
    simplify_eq. destruct lb' as [h|]; [|done].
    exists h, rt', (<[name := data]> idx'), (<[name := data]> fs').
    split; [exact Hm|]. split; [|exact Heq]. by destruct h.
  - destruct (put_changed s owner repo b name data _ _ _ _ _ _ _ _ _ _
                H (Hdiff Hne) eq_refl Hm Hput) as (_ & _ & h & Hz & Hm1 & Ht).
    by exists h, (Some h), (<[name := data]> idx'), (<[name := data]> fs').
Qed.

(** On such a mirror the sync comes back to that commit, whatever the
    fetch brought. *)
Lemma fetch_of_held w d1 d2 w' :
  held w → fetchGit s owner repo b w = (Ret (d1, d2), w') →
  d1 = pdir ∧ store_same w w'
  ∧ ∃ h rt c (idx fs : gmap string string),
      IsZero h = false ∧ commit_at (objects w) h = Some c
      ∧ c_tree c !! name = Some data
      ∧ mirror_at pdir b w' (shape b (Some h) rt (SymbolicTarget (heads b)))
          (c_tree c) (c_tree c ∪ filter (λ kv, idx !! kv.1 = None) fs).
Proof.
  intros (h & rt & idx & fs & Hm & Hz & Ht) H.
  assert (Ho : owned_mirror s owner repo b w (Some h) rt idx fs)
    by (left; eauto).
  apply (fetchGit_spec s owner repo b _ _ _ _ _ _ _ _ Ho) in H
    as (-> & -> & S1 & rt' & Hsync).
  split; [done|]. split; [done|].
  unfold synced in Hsync. change (first_hash (Some h) rt') with h in Hsync.
  rewrite Hz in Hsync. destruct Hsync as (c & Hc & Hm').
  exists h, rt', c, idx, fs. split; [done|]. split; [done|].
  split; [|exact Hm']. unfold tree_at in Ht. by rewrite Hc in Ht.
Qed.

(** X12: a get that follows a put returns what was put.  On a mirror
    that this driver owns (or that does not exist yet), after a put of
    some bytes under a name has returned, every get of that name from
    the same address that returns a reader returns those bytes,
    whatever the fetch in between brought. *)
Theorem put_then_get w u w1 r w2 :
  mirror_owned w →
  put w = (Ret u, w1) →
  GetFromGit s owner repo b name w1 = (Ret r, w2) →
  r = ReaderWithAutoCloser data.
Proof.
  intros Ho Hput Hget. pose proof (put_leaves_held _ _ _ Ho Hput) as Hheld.
  unfold GetFromGit in Hget. bind_inv Hget dd w' H1. destruct dd as [d1 d2].
  destruct (fetch_of_held _ _ _ _ Hheld H1)
    as (-> & _ & h & rt & c & idx & fs & _ & _ & Hdata & Hm).
  bind_inv Hget f w3 H3. unfold mret, M_ret in Hget. simplify_eq.
  apply lib_Ret in H3.
  change (the_dir (log _ w') pdir) with (the_dir w' pdir) in H3.
  destruct Hm as (rp & Hd & _). rewrite Hd in H3. simpl in H3.
  rewrite (lookup_union_Some_l _ _ _ _ Hdata) in H3. by simplify_eq.
Qed.

(** A put on a mirror that holds the content already: the status is
    clean and nothing is committed or pushed. *)
Lemma put_on_held w :
  held w →
  commits (put w).2 = commits w ∧ pushes (put w).2 = pushes w
  ∧ upstream (put w).2 = upstream w
  ∧ ∀ d st ws, stage w = (Ret (d, st), ws) →
      st !! name = None ∧ put w = (Ret url, ws).
Proof.
  intros Hheld.
  assert (Hclean : ∀ d st ws, stage w = (Ret (d, st), ws) →
            st !! name = None ∧ put w = (Ret url, ws)).
  { intros d st ws H. pose proof H as H'. unfold putInGit_stage in H'.
    bind_inv H' dd w' H1. destruct dd as [d1 d2].
    destruct (fetch_of_held _ _ _ _ Hheld H1)
      as (-> & [So _] & h & rt & c & idx & fs & Hz & Hc & Hdata & Hm).
    pose proof (fetchGit_dirs _ _ _ _ H1) as [_ ->].
    apply (putInGit_write_spec s owner repo b name data _ _ _ _ _ _ _ Hm) in H'
      as (-> & _ & _ & ->).
    rewrite resolve_head_shape in H |- *.
    change (default ZeroHash (Some h)) with h in H |- *.
    destruct (written_status name data (tree_at (objects w') h) (c_tree c)
                (<[name := EmptyString]>
                   (c_tree c ∪ filter (λ kv, idx !! kv.1 = None) fs)))
      as [Hsame _]. cbv zeta in Hsame.
    destruct Hsame as [Hnone Hch].
    { unfold tree_at. by rewrite So, Hc. }
    split; [exact Hnone|].
    exact (put_unchanged s owner repo b name data _ _ _ _ H Hch). }
  destruct (quiet_putInGit_stage s owner repo b name data w) as [Qc Qp].
  destruct (keeps_putInGit_stage s owner repo b name data w) as [[_ Ku] _].
  assert (Hw : (put w).2 = (stage w).2).
  { destruct (stage w) as [[[d st]|e| |] ws] eqn:E.
    - by destruct (Hclean d st ws eq_refl) as [_ ->].
    - rewrite (put_stage_failed s owner repo b name data w); rewrite E; done.
    - rewrite (put_stage_failed s owner repo b name data w); rewrite E; done.
    - rewrite (put_stage_failed s owner repo b name data w); rewrite E; done. }
  rewrite Hw. split; [exact Qc|]. split; [exact Qp|]. split; [exact Ku|].
  exact Hclean.
Qed.

(** X13: a push that failed is not made up for by putting again.  When
    a put has committed and its push has failed, the commit stays in
    the mirror; a second put of the same bytes then finds a clean
    status, makes no commit and no push, returns the URL if its steps
    succeed, and leaves the branches of the forge as they were before
    the first put. *)
Theorem failed_push_not_retried w d st ws h w2 e w1 :
  mirror_owned w →
  stage w = (Ret (d, st), ws) →
  changed st name = true →
  Worktree_Commit pdir
    (gitCommitMessage s owner repo b name (filepath_Join [pdir; name]))
    (gitCommitOption s owner repo b name (filepath_Join [pdir; name])) ws
  = (Ret h, w2) →
  Repository_PushContext pdir ("origin-" +:+ b)
    {| Username := owner; Password := token s |} w2 = (Fail e, w1) →
  put w = (Fail (wrap "git push" e), w1)
  ∧ commits (put w1).2 = commits w1 ∧ pushes (put w1).2 = pushes w1
  ∧ upstream (put w1).2 = upstream w
  ∧ ∀ d' st' ws', stage w1 = (Ret (d', st'), ws') →
      st' !! name = None ∧ put w1 = (Ret url, ws').
Proof.
  intros (lb & rt & idx & fs & Ho) H Hch Hci Hpu.
  destruct (put_after_stage _ _ _ _ H) as (-> & _ & Hdiff).
  destruct (Hdiff Hch) as (_ & _ & Hput). cbv zeta in Hput.
  rewrite Hci in Hput. simpl in Hput. rewrite Hpu in Hput. simpl in Hput.
  split; [exact Hput|].
  destruct (stage_analysis s owner repo b name data _ _ _ _ _ _ _ _ Ho H)
    as (_ & [_ Su] & lb' & rt' & idx' & fs' & Hm & _ & _).
  destruct (Commit_Ret _ _ _ _ _ _ _ _ _ _ _ Hm Hci)
    as (-> & (c & Hobj & Hc') & Hup2 & Hm2).
  pose proof (Push_fails_clean _ _ _ _ _ _ Hpu) as U.
  assert (Hheld : held w1).
  { exists (S (length (objects ws))), rt', (<[name := data]> idx'),
      (<[name := data]> fs').
    split; [exact (mirror_at_unchanged _ _ _ _ _ _ _ U Hm2)|].
    split; [done|]. destruct U as (_ & -> & _). rewrite Hobj.
    unfold tree_at, commit_at. rewrite lookup_app_r by lia.
    rewrite Nat.sub_diag. simpl. rewrite Hc'. apply lookup_insert_eq. }
  destruct (put_on_held _ Hheld) as (Hc & Hp & Hu & Hclean).
  split; [exact Hc|]. split; [exact Hp|]. split; [|exact Hclean].
  rewrite Hu. destruct U as (_ & _ & -> & _). congruence.
Qed.

End Ends.

(** *** The remote of the mirror *)

Section Home.
Variable s : PutInGH.
Variables owner repo b : string.

Abbreviation hdir := (mirrorDir s owner repo b).
Abbreviation at_home := (home s owner repo b).
Abbreviation stays := (homes s owner repo b).

Lemma home_the_dir w w' :
  the_dir w' hdir = the_dir w hdir → at_home w → at_home w'.
Proof. intros E Hh r c. rewrite E. apply Hh. Qed.

Lemma home_unchanged w w' : unchanged w w' → at_home w → at_home w'.
Proof. intros U. apply home_the_dir. exact (unchanged_the_dir _ _ _ U). Qed.

Lemma home_put_files d fs w : at_home w → at_home (put_files d fs w).
Proof.
  intros Hh r c. unfold the_dir, put_files. simpl.
  destruct (decide (d = hdir)) as [->|Hne].
  - rewrite lookup_insert_eq. simpl. apply Hh.
  - rewrite lookup_insert_ne by done. apply Hh.
Qed.

Lemma home_put_repo d r' w :
  (d = hdir → ∀ c,
     find (λ c, bool_decide (rc_Name c = gitRemoteName b)) (remotes r') = Some c →
     rc_URLs c = [gitURL s owner repo]) →
  at_home w → at_home (put_repo d r' w).
Proof.
  intros Hr Hh r c. unfold the_dir, put_repo. simpl.
  destruct (decide (d = hdir)) as [->|Hne].
  - rewrite lookup_insert_eq. simpl. intros [= <-]. by apply Hr.
  - rewrite lookup_insert_ne by done. apply Hh.
Qed.

Lemma stays_ret {A} (a : A) : stays (mret a).
Proof. by intros w. Qed.

Lemma stays_fail {A} e : stays (fail e : M world A).
Proof. by intros w. Qed.

Lemma stays_bind {A B} (m : M world A) (f : A → M world B) :
  stays m → (∀ a, stays (f a)) → stays (m ≫= f).
Proof.
  intros Hm Hf w Hh. rewrite bind_unfold. specialize (Hm w Hh).
  destruct (m w) as [[a|e| |] w1]; simpl in *; try done. by apply Hf.
Qed.

Lemma stays_try {A} (m : M world A) : stays m → stays (try m).
Proof.
  intros Hm w Hh. unfold try. specialize (Hm w Hh).
  by destruct (m w) as [[a|e| |] w1].
Qed.

Lemma stays_wrapping {A} ctx (m : M world A) : stays m → stays (wrapping ctx m).
Proof.
  intros Hm w Hh. unfold wrapping. specialize (Hm w Hh).
  by destruct (m w) as [[a|e| |] w1].
Qed.

Lemma stays_run {A} (m : M world A) w o w' :
  stays m → m w = (o, w') → at_home w → at_home w'.
Proof. intros Hm H Hh. specialize (Hm w Hh). by rewrite H in Hm. Qed.

Lemma stays_observes {A} (m : M world A) : observes m → stays m.
Proof. intros Ho w. apply home_unchanged, Ho. Qed.

(** A call on the repository of a directory that keeps its remotes. *)
Lemma stays_on_repo {A} ev d (k : Repository → M world A) :
  (∀ r w, at_home w → dotgit (the_dir w d) = Some r →
          (d = hdir → ∀ c,
             find (λ c, bool_decide (rc_Name c = gitRemoteName b)) (remotes r)
             = Some c → rc_URLs c = [gitURL s owner repo]) →
          at_home (k r w).2) →
  stays (lib ev (on_repo d k)).
Proof.
  intros Hk w Hh. unfold lib.
  assert (Hl : at_home (log ev w)) by exact (home_unchanged _ _ (unchanged_log ev w) Hh).
  destruct (faults w (length (trace w))); [exact Hl|].
  unfold on_repo. destruct (dotgit (the_dir (log ev w) d)) as [r|] eqn:Ed;
    [|exact Hl].
  apply (Hk r _ Hl Ed). intros -> c. exact (Hl r c Ed).
Qed.

Lemma stays_PlainInit d : stays (PlainInit d).
Proof.
  intros w Hh. unfold PlainInit, lib.
  assert (Hl : at_home (log (EvPlainInit d) w))
    by exact (home_unchanged _ _ (unchanged_log _ w) Hh).
  destruct (faults w (length (trace w))); [exact Hl|].
  destruct (dotgit (the_dir (log (EvPlainInit d) w) d)); [exact Hl|].
  apply home_put_repo; [|exact Hl]. by intros _ c.
Qed.

Lemma stays_SetReference d r : stays (Storer_SetReference d r).
Proof.
  apply stays_on_repo. intros r0 w Hh _ Hr. by apply home_put_repo.
Qed.

Lemma stays_CreateRemote d :
  stays (Repository_CreateRemote d
           {| rc_Name := gitRemoteName b; rc_URLs := [gitURL s owner repo];
              rc_Fetch := [fetchRefSpec b (gitRemoteName b)] |}).
Proof.
  apply stays_on_repo. intros r w Hh _ Hr.
  destruct (existsb _ (remotes r)) eqn:E; [exact Hh|].
  apply home_put_repo; [|exact Hh]. intros Hd c. simpl.
  rewrite (find_app_none _ _ _ (existsb_false_find _ _ E)). simpl.
  rewrite bool_decide_eq_true_2 by done. by intros [= <-].
Qed.

Lemma stays_CreateBranch d c : stays (Repository_CreateBranch d c).
Proof.
  apply stays_on_repo. intros r w Hh _ Hr.
  destruct (existsb _ (branches r)); [exact Hh|]. by apply home_put_repo.
Qed.

Lemma stays_Fetch d rem n rs a : stays (Remote_FetchContext d rem n rs a).
Proof.
  apply stays_on_repo. intros r w Hh _ Hr.
  destruct (rc_URLs rem) as [|u ?]; [exact Hh|].
  destruct rs as [|x ?]; [exact Hh|]. cbv zeta.
  destruct (decide _); [exact Hh|].
  destruct (_ !! rs_src x); [|exact Hh].
  destruct (decide _); [exact Hh|]. by apply home_put_repo.
Qed.

Lemma stays_Reset d h : stays (Worktree_Reset_Hard d h).
Proof.
  apply stays_on_repo. intros r w Hh _ Hr.
  destruct (commit_at (objects w) h); [|exact Hh].
  destruct (head_target (refs r)); [|exact Hh].
  apply home_put_files. by apply home_put_repo.
Qed.

Lemma stays_OpenFile d n : stays (os_OpenFile d n).
Proof.
  intros w Hh. unfold os_OpenFile, lib.
  assert (Hl : at_home (log (EvOpenFile (filepath_Join [d; n])) w))
    by exact (home_unchanged _ _ (unchanged_log _ w) Hh).
  destruct (faults w (length (trace w))); [exact Hl|]. by apply home_put_files.
Qed.

Lemma stays_Copy d n x : stays (io_Copy d n x).
Proof.
  intros w Hh. unfold io_Copy, lib.
  assert (Hl : at_home (log (EvCopy (filepath_Join [d; n]) x) w))
    by exact (home_unchanged _ _ (unchanged_log _ w) Hh).
  destruct (faults w (length (trace w))); [exact Hl|]. by apply home_put_files.
Qed.

Lemma stays_Add d n : stays (Worktree_Add d n).
Proof.
  apply stays_on_repo. intros r w Hh _ Hr.
  destruct (files (the_dir w d) !! n); [|exact Hh]. by apply home_put_repo.
Qed.

Lemma stays_Commit d msg opt : stays (Worktree_Commit d msg opt).
Proof.
  apply stays_on_repo. intros r w Hh _ Hr.
  destruct (head_target (refs r)); [|exact Hh]. cbv zeta.
  apply home_put_repo; [exact Hr|].
  exact (home_the_dir w (set_objects w _) eq_refl Hh).
Qed.

Ltac staying :=
  repeat first
    [ apply stays_ret | apply stays_fail
    | apply stays_try | apply stays_wrapping
    | apply stays_PlainInit | apply stays_SetReference
    | apply stays_CreateRemote | apply stays_CreateBranch
    | apply stays_Fetch | apply stays_Reset | apply stays_OpenFile
    | apply stays_Copy | apply stays_Add
    | apply stays_observes;
      first [ apply observes_MkdirAll | apply observes_Stat
            | apply observes_PlainOpen | apply observes_Remote
            | apply observes_Branch | apply observes_IterReferences
            | apply observes_Next | apply observes_Worktree
            | apply observes_Close | apply observes_Status
            | apply observes_Open ]
    | apply stays_bind; [|intros ?]
    | match goal with
      | |- stays (match ?x with _ => _ end) => destruct x
      | |- stays (if ?x then _ else _) => destruct x
      | |- stays (let '(_, _) := ?x in _) => destruct x
      end ].

Lemma stays_fetchGit_open : stays (fetchGit_open hdir).
Proof. unfold fetchGit_open. staying. Qed.

Lemma stays_fetchGit_sync : stays (fetchGit_sync s owner repo b).
Proof. unfold fetchGit_sync. cbv zeta. staying. Qed.

Lemma stays_fetchGit : stays (fetchGit s owner repo b).
Proof.
  unfold fetchGit, fetchGit_bind, fetchGit_open, fetchGit_configure,
    fetchGit_fetch. cbv zeta. staying; apply stays_fetchGit_sync.
Qed.

Lemma stays_putInGit_stage name data :
  stays (putInGit_stage s owner repo b name data).
Proof.
  unfold putInGit_stage. apply stays_bind; [apply stays_fetchGit|].
  intros [d r]. unfold putInGit_write. staying.
Qed.

(** *** What a push publishes *)

Lemma Push_publishes auth w w' h rt idx fs :
  mirror_at hdir b w (shape b (Some h) rt (SymbolicTarget (heads b))) idx fs →
  at_home w →
  Repository_PushContext hdir (gitRemoteName b) auth w = (Ret tt, w') →
  forge_tip s owner repo b w' = Some h ∧ objects w' = objects w.
Proof.
  intros (r & Hd & Hl & <- & Hrem) Hh H.
  assert (Hr : dotgit (the_dir w hdir) = Some r) by (by rewrite Hd).
  on_mirror H r Hd.
  destruct (find _ (remotes r)) as [remote|] eqn:Ef; [|done].
  rewrite (Hh r remote Hr Ef) in H. cbv zeta in H.
  rewrite Hl, to_push_shape in H.
  destruct (decide _) as [Hne|]; [|done].
  destruct (forallb _ _); [|done]. simplify_eq. split; [|done].
  unfold forge_tip, put_repo, set_upstream. simpl.
  rewrite lookup_insert_eq. simpl. apply lookup_insert_eq.
Qed.

(** X14: a put that commits and returns has published.  On a mirror
    that this driver owns (or that does not exist yet) and whose remote
    points at the repository of the address, when the status after
    sync, write and add shows a change and the put returns, the branch
    of the forge stands at a new commit that holds the bytes put under
    the name. *)
Theorem put_publishes name data w d st ws u w1 :
  GitSpec.mirror_owned s owner repo b w →
  at_home w →
  putInGit_stage s owner repo b name data w = (Ret (d, st), ws) →
  changed st name = true →
  putInGit s owner repo b name data w = (Ret u, w1) →
  ∃ c, objects w1 = objects w ++ [c]
       ∧ c_tree c !! name = Some data
       ∧ forge_tip s owner repo b w1 = Some (S (length (objects w))).
Proof.
  intros (lb & rt & idx & fs & Ho) Hh H Hch Hput.
  destruct (stage_analysis s owner repo b name data _ _ _ _ _ _ _ _ Ho H)
    as (-> & [So _] & lb' & rt' & idx' & fs' & Hm & _ & _).
  pose proof (stays_run _ _ _ _ (stays_putInGit_stage name data) H Hh) as Hhs.
  unfold putInGit in Hput. rewrite (bind_Ret _ _ _ _ _ H) in Hput.
  simpl in Hput. rewrite Hch in Hput.
  bind_inv Hput u0 w3 H3. unfold mret, M_ret in Hput. simplify_eq.
  bind_inv H3 h w2 H2. apply wrapping_Ret_inv in H2.
  apply wrapping_Ret_inv in H3. destruct u0.
  pose proof (stays_run _ _ _ _ (stays_Commit _ _ _) H2 Hhs) as Hh2.
  apply (Commit_Ret _ _ _ _ _ _ _ _ _ _ _ Hm) in H2
    as (-> & (c & Hobj & Hc') & _ & Hm2).
  destruct (Push_publishes _ _ _ _ _ _ _ Hm2 Hh2 H3) as [Htip Hobj1].
  exists c. rewrite Hobj1, Hobj, <- So. split; [done|]. split; [|done].
  rewrite Hc'. apply lookup_insert_eq.
Qed.

(** *** The first sync of a mirror *)

Lemma keeps_fetchGit_bind : keeps (fetchGit_bind s owner repo b).
Proof.
  unfold fetchGit_bind, fetchGit_open, fetchGit_configure. cbv zeta. keeping.
Qed.

Lemma fetchGit_open_dir d w rep w' :
  fetchGit_open d w = (Ret rep, w') → rep = d.
Proof.
  intros H. unfold fetchGit_open in H.
  bind_inv H st w1 H1. bind_inv H opened w2 H2.
  destruct opened as [err|x]; [done|]. unfold mret, M_ret in H. simplify_eq.
  apply try_inv in H2 as [(a & [= <-] & H2)|(e & ? & _)]; [|done].
  destruct st as [e|[]].
  - by apply (PlainInit_Ret _ b) in H2 as (-> & _).
  - by apply PlainOpen_Ret in H2.
Qed.

(** The remote the fetch is made from points at the repository of the
    address: it is the one the mirror has, or the one just created. *)
Lemma fetchGit_bind_remote w remote w' :
  at_home w →
  fetchGit_bind s owner repo b w = (Ret remote, w') →
  rc_URLs remote = [gitURL s owner repo].
Proof.
  intros Hh H. unfold fetchGit_bind in H. cbv zeta in H.
  bind_inv H u0 w0 H0.
  pose proof (stays_run _ _ _ _
                (stays_try _ (stays_observes _ (observes_MkdirAll _))) H0 Hh)
    as Hh0.
  bind_inv H repository w1 H1.
  pose proof (stays_run _ _ _ _ stays_fetchGit_open H1 Hh0) as Hh1.
  apply fetchGit_open_dir in H1 as ->.
  unfold fetchGit_configure in H. cbv zeta in H.
  bind_inv H u1 w2 H2.
  pose proof (stays_run _ _ _ _ (stays_SetReference _ _) H2 Hh1) as Hh2.
  bind_inv H found w3 H3. bind_inv H remote' w4 H4.
  bind_inv H bres w5 H5. bind_inv H u6 w6 H6.
  unfold mret, M_ret in H. simplify_eq.
  destruct found as [err|r].
  - destruct (negb (errors_Is err ErrRemoteNotFound)); [done|].
    apply lib_Ret in H4. unfold on_repo in H4.
    destruct (dotgit (the_dir (log _ w3) hdir)) as [rr|]; [|done].
    destruct (existsb _ (remotes rr)); [done|]. by simplify_eq.
  - unfold mret, M_ret in H4. simplify_eq.
    apply try_inv in H3 as [(a & [= <-] & H3)|(e & ? & _)]; [|done].
    apply lib_Ret in H3. unfold on_repo in H3.
    change (the_dir (log _ w2) hdir) with (the_dir w2 hdir) in H3.
    destruct (dotgit (the_dir w2 hdir)) as [rr|] eqn:Ed; [|done].
    destruct (find _ (remotes rr)) as [c|] eqn:Ef; [|done].
    unfold mret, M_ret in H3. simplify_eq. exact (Hh2 rr remote Ed Ef).
Qed.

(** What the fetch does in a world that holds no failure for it: the
    remote-tracking reference takes the tip of the branch on the forge;
    without such a branch nothing changes and the error is one of the
    tolerated ones. *)
Lemma fetch_tip w remote x w' lb rt ht idx fs :
  mirror_at hdir b w (shape b lb rt ht) idx fs →
  rc_URLs remote = [gitURL s owner repo] →
  faults w (length (trace w)) = None →
  fetchGit_fetch s owner repo b remote w = (Ret x, w') →
  store_same w w'
  ∧ match forge_tip s owner repo b w with
    | Some tip => mirror_at hdir b w' (shape b lb (Some tip) ht) idx fs
    | None =>
        mirror_at hdir b w' (shape b lb rt ht) idx fs
        ∧ ∃ e, x = inl e ∧ fetch_tolerated e = true
    end.
Proof.
  intros Hm Hu Hf H. pose proof Hm as (r & Hd & Hl & Hi & Hrem).
  unfold fetchGit_fetch, try, Remote_FetchContext, lib in H. cbv zeta in H.
  rewrite Hf in H. unfold on_repo in H.
  match type of H with
  | context [the_dir (log ?ev w) hdir] =>
      change (the_dir (log ev w) hdir) with (the_dir w hdir) in H;
      change (upstream (log ev w)) with (upstream w) in H;
      assert (U : unchanged w (log ev w)) by apply unchanged_log
  end.
  rewrite Hd in H. cbn [dotgit] in H. rewrite Hu in H.
  unfold forge_tip.
  change (rs_src (fetchRefSpec b (gitRemoteName b))) with ("refs/heads/" +:+ b) in H.
  change (rs_dst (fetchRefSpec b (gitRemoteName b))) with (tracking b) in H.
  destruct (decide (default ∅ (upstream w !! gitURL s owner repo) = ∅))
    as [He|Hne].
  - rewrite He. rewrite lookup_empty. simplify_eq.
    split; [by apply unchanged_store_same|].
    split; [exact (mirror_at_unchanged _ _ _ _ _ _ _ U Hm)|]. by eexists.
  - destruct (default ∅ (upstream w !! gitURL s owner repo)
                !! ("refs/heads/" +:+ b)) as [tip|].
    + rewrite Hl, lookup_ref_tracking in H.
      destruct (decide (HashTarget <$> rt = Some (HashTarget tip))) as [E|E].
      * simplify_eq. split; [by apply unchanged_store_same|].
        destruct rt as [t|]; [|done]. simpl in E. simplify_eq.
        exact (mirror_at_unchanged _ _ _ _ _ _ _ U Hm).
      * simplify_eq. split; [done|].
        eexists. rewrite the_dir_put_repo.
        change (the_dir (log _ w) hdir) with (the_dir w hdir). rewrite Hd.
        split; [reflexivity|]. split; [|done]. simpl.
        apply set_ref_tracking.
    + simplify_eq. split; [by apply unchanged_store_same|].
      split; [exact (mirror_at_unchanged _ _ _ _ _ _ _ U Hm)|]. by eexists.
Qed.

Lemma filter_untracked (fs : gmap string string) :
  filter (λ kv : string * string, (∅ : gmap string string) !! kv.1 = None) fs
  = fs.
Proof. apply map_filter_id. intros i x _. apply lookup_empty. Qed.

(** The first sync, step by step. *)
Lemma first_sync_spec w d1 d2 w' :
  dotgit (the_dir w hdir) = None →
  (∀ n, faults w n = None) →
  fetchGit s owner repo b w = (Ret (d1, d2), w') →
  store_same w w'
  ∧ match forge_tip s owner repo b w with
    | Some tip =>
        if IsZero tip then
          mirror_at hdir b w' (shape b None (Some tip) (SymbolicTarget (heads b)))
            ∅ (files (the_dir w hdir))
        else
          ∃ c, commit_at (objects w) tip = Some c
               ∧ mirror_at hdir b w'
                   (shape b (Some tip) (Some tip) (SymbolicTarget (heads b)))
                   (c_tree c) (c_tree c ∪ files (the_dir w hdir))
    | None =>
        mirror_at hdir b w' (shape b None None (SymbolicTarget (heads b)))
          ∅ (files (the_dir w hdir))
    end.
Proof.
  intros Hnone Hf H.
  assert (Hh : at_home w) by (intros r c Hr; congruence).
  assert (Ho : owned_mirror s owner repo b w None None ∅ (files (the_dir w hdir)))
    by (right; done).
  unfold fetchGit in H. bind_inv H remote w1 H1.
  pose proof (fetchGit_bind_remote _ _ _ Hh H1) as Hu.
  destruct (keeps_run _ _ _ _ keeps_fetchGit_bind H1) as [_ Hf1].
  apply (fetchGit_bind_spec _ _ _ _ _ _ _ _ _ _ _ Ho) in H1 as [Hm1 S1].
  bind_inv H fetched w2 H2.
  assert (Hs : fetchGit_sync s owner repo b w2 = (Ret (d1, d2), w')).
  { destruct fetched as [err|?]; [|done].
    destruct (negb (errors_Is err NoErrAlreadyUpToDate)
              && negb (errors_Is err ErrEmptyRemoteRepository)); [|done].
    by destruct (negb (errors_As_NoMatchingRefSpecError err)). }
  clear H.
  destruct (fetch_tip _ _ _ _ _ _ _ _ _ Hm1 Hu
              ltac:(rewrite Hf1; apply Hf) H2) as [S2 Htip].
  assert (Et : forge_tip s owner repo b w1 = forge_tip s owner repo b w).
  { unfold forge_tip. destruct S1 as [_ ->]. done. }
  rewrite Et in Htip.
  pose proof (store_same_trans _ _ _ S1 S2) as S12.
  destruct (forge_tip s owner repo b w) as [tip|].
  - apply (fetchGit_sync_spec _ _ _ _ _ _ _ _ _ _ _ _ Htip) in Hs
      as (_ & _ & S3 & Hsync).
    split; [exact (store_same_trans _ _ _ S12 S3)|].
    change (first_hash None (Some tip)) with tip in Hsync.
    destruct (IsZero tip); [exact Hsync|].
    destruct Hsync as (c & Hc & Hm). exists c.
    destruct S12 as [So _]. rewrite <- So. split; [exact Hc|].
    by rewrite filter_untracked in Hm.
  - destruct Htip as [Hm2 _].
    apply (fetchGit_sync_spec _ _ _ _ _ _ _ _ _ _ _ _ Hm2) in Hs
      as (_ & _ & S3 & Hsync).
    split; [exact (store_same_trans _ _ _ S12 S3)|]. exact Hsync.
Qed.

(** X15: the first sync of a mirror follows the forge.  When the
    directory holds no repository yet and the world holds no failure
    for any call, a sync that returns has set the local branch and the
    remote-tracking reference to the tip of the branch on the forge,
    the index is the tree of that commit and every file of that tree is
    in the working tree with its content; when the forge has no such
    branch, no reference is created beside [HEAD] and index and files
    are not touched. *)
Theorem first_sync_follows_forge w d1 d2 w' :
  dotgit (the_dir w hdir) = None →
  (∀ n, faults w n = None) →
  fetchGit s owner repo b w = (Ret (d1, d2), w') →
  d1 = hdir ∧ store_same w w'
  ∧ match forge_tip s owner repo b w with
    | Some tip =>
        IsZero tip = false →
        ∃ c fs, commit_at (objects w) tip = Some c
                ∧ mirror_at hdir b w'
                    (shape b (Some tip) (Some tip) (SymbolicTarget (heads b)))
                    (c_tree c) fs
                ∧ c_tree c ⊆ fs
    | None =>
        mirror_at hdir b w' (shape b None None (SymbolicTarget (heads b)))
          ∅ (files (the_dir w hdir))
    end.
Proof.
  intros Hnone Hf H.
  pose proof (fetchGit_dirs _ _ _ _ _ _ _ _ H) as [-> _].
  destruct (first_sync_spec _ _ _ _ Hnone Hf H) as [S Hsync].
  split; [done|]. split; [exact S|].
  destruct (forge_tip s owner repo b w) as [tip|]; [|exact Hsync].
  intros Hz. rewrite Hz in Hsync. destruct Hsync as (c & Hc & Hm).
  exists c, (c_tree c ∪ files (the_dir w hdir)).
  split; [exact Hc|]. split; [exact Hm|]. apply map_union_subseteq_l.
Qed.

(** X16: the first get of a name returns what the branch of the forge
    holds under it.  When the directory holds no repository yet, the
    world holds no failure for any call and the forge has the branch, a
    get that returns a reader returns the content the name has in the
    commit at the tip of the branch. *)
Theorem first_get_reads_branch name w tip r w' :
  dotgit (the_dir w hdir) = None →
  (∀ n, faults w n = None) →
  forge_tip s owner repo b w = Some tip → IsZero tip = false →
  GetFromGit s owner repo b name w = (Ret r, w') →
  ∃ c, commit_at (objects w) tip = Some c
       ∧ ∀ x, c_tree c !! name = Some x → r = ReaderWithAutoCloser x.
Proof.
  intros Hnone Hf Ht Hz H. unfold GetFromGit in H.
  bind_inv H dd w1 H1. destruct dd as [d1 d2].
  pose proof (fetchGit_dirs _ _ _ _ _ _ _ _ H1) as [-> ->].
  destruct (first_sync_spec _ _ _ _ Hnone Hf H1) as [_ Hsync].
  rewrite Ht, Hz in Hsync. destruct Hsync as (c & Hc & Hm).
  exists c. split; [exact Hc|]. intros x Hx.
  bind_inv H f w2 H2. unfold mret, M_ret in H. simplify_eq.
  apply lib_Ret in H2.
  change (the_dir (log _ w1) hdir) with (the_dir w1 hdir) in H2.
  destruct Hm as (rp & Hd & _). rewrite Hd in H2. simpl in H2.
  rewrite (lookup_union_Some_l _ _ _ _ Hx) in H2. by simplify_eq.
Qed.

End Home.

(** *** The theorems at work on the sample forge *)

Lemma fresh_owned : GitSpec.mirror_owned cfg "o" "r" "main" fresh.
Proof. exists None, None, ∅, ∅. right. repeat split. Qed.

Lemma fresh_home : home cfg "o" "r" "main" fresh.
Proof. intros r c Hr. discriminate Hr. Qed.

Lemma advanced_owned : GitSpec.mirror_owned cfg "o" "r" "main" advanced.
Proof.
  exists (Some 1), (Some 1), {[ "f" := "v0" ]}, {[ "f" := "v0" ]}. left.
  exists (SymbolicTarget "refs/heads/main").
  exists {| refs := shape "main" (Some 1) (Some 1)
                      (SymbolicTarget "refs/heads/main");
            index := {[ "f" := "v0" ]};
            remotes := [{| rc_Name := "origin-main";
                           rc_URLs := ["https://github.com/o/r"];
                           rc_Fetch := [fetchRefSpec "main" "origin-main"] |}];
            branches := [{| bc_Name := "main"; bc_Merge := "refs/heads/main";
                            bc_Remote := "origin-main" |}] |}.
  split; [vm_compute; reflexivity|]. split; [reflexivity|].
  split; [reflexivity|]. intros c Hc. vm_compute in Hc. by simplify_eq.
Qed.

(** A first put of new content on the sample forge ends with the
    commit and the push. *)
Lemma put_ends_witness :
  (putInGit cfg "o" "r" "main" "f" "v1" fresh).1
  = Ret "https://github.com/o/r/raw/main/f"
  ∧ drop 22 (trace (putInGit cfg "o" "r" "main" "f" "v1" fresh).2)
    = [EvCommit (mirrorDir cfg "o" "r" "main") "Automatic update f"
         {| Author := Some {| sig_Name := "bot"; sig_Email := "" |} |};
       EvPush (mirrorDir cfg "o" "r" "main") "origin-main"
         {| Username := "o"; Password := "secret" |}].
Proof.
  edestruct (put_ends cfg "o" "r" "main" "f" "v1" fresh) as (_ & _ & Hdiff);
    [vm_compute; reflexivity|].
  destruct (Hdiff ltac:(vm_compute; reflexivity)) as (_ & _ & Hput).
  cbv zeta in Hput. rewrite Hput. vm_compute. split; reflexivity.
Defined.

(** A put that fails at the fetch leaves the forge as it was. *)
Lemma failed_put_leaves_forge_witness :
  upstream (putInGit cfg "o" "r" "main" "f" "v1" fresh_unreachable).2
  = upstream fresh_unreachable.
Proof.
  apply failed_put_leaves_forge. intros u Hu. vm_compute in Hu.
  discriminate Hu.
Defined.

(** Put, then get, on the sample forge. *)
Lemma put_then_get_witness :
  (GetFromGit cfg "o" "r" "main" "f"
     (putInGit cfg "o" "r" "main" "f" "v1" fresh).2).1
  = Ret (ReaderWithAutoCloser "v1").
Proof.
  assert (Hput : putInGit cfg "o" "r" "main" "f" "v1" fresh
                 = (Ret "https://github.com/o/r/raw/main/f",
                    (putInGit cfg "o" "r" "main" "f" "v1" fresh).2)).
  { apply pair_from_fst. vm_compute. reflexivity. }
  destruct (GetFromGit cfg "o" "r" "main" "f"
              (putInGit cfg "o" "r" "main" "f" "v1" fresh).2)
    as [[r|e| |] w2] eqn:E.
  - simpl. f_equal.
    exact (put_then_get cfg "o" "r" "main" "f" "v1" fresh _ _ _ _
             fresh_owned Hput E).
  - apply (f_equal fst) in E. vm_compute in E. discriminate E.
  - apply (f_equal fst) in E. vm_compute in E. discriminate E.
  - apply (f_equal fst) in E. vm_compute in E. discriminate E.
Defined.

(** On the mirror left behind while another writer advanced the
    branch, the push of a put is refused; the same put again pushes
    nothing. *)
Lemma failed_push_not_retried_witness :
  (putInGit cfg "o" "r" "main" "f" "v1" advanced).1
  = Fail (wrap "git push" (other "non-fast-forward update"))
  ∧ pushes (putInGit cfg "o" "r" "main" "f" "v1"
              (putInGit cfg "o" "r" "main" "f" "v1" advanced).2).2
    = pushes (putInGit cfg "o" "r" "main" "f" "v1" advanced).2
  ∧ upstream (putInGit cfg "o" "r" "main" "f" "v1"
                (putInGit cfg "o" "r" "main" "f" "v1" advanced).2).2
    = upstream advanced.
Proof.
  edestruct (failed_push_not_retried cfg "o" "r" "main" "f" "v1" advanced)
    as (Hput & _ & Hp & Hu & _);
    [ exact advanced_owned
    | vm_compute; reflexivity | vm_compute; reflexivity
    | vm_compute; reflexivity | vm_compute; reflexivity | ].
  rewrite Hput. cbn [fst snd]. split; [reflexivity|]. split; [exact Hp|exact Hu].
Defined.

(** The first put on the sample forge: the branch of the forge moves
    to the second commit of the store. *)
Lemma put_publishes_witness :
  forge_tip cfg "o" "r" "main" (putInGit cfg "o" "r" "main" "f" "v1" fresh).2
  = Some 2.
Proof.
  assert (Hput : putInGit cfg "o" "r" "main" "f" "v1" fresh
                 = (Ret "https://github.com/o/r/raw/main/f",
                    (putInGit cfg "o" "r" "main" "f" "v1" fresh).2)).
  { apply pair_from_fst. vm_compute. reflexivity. }
  edestruct (put_publishes cfg "o" "r" "main" "f" "v1" fresh)
    as (c & _ & _ & Htip);
    [ exact fresh_owned | exact fresh_home
    | vm_compute; reflexivity | vm_compute; reflexivity
    | exact Hput | ].
  exact Htip.
Defined.

(** The first sync on the sample forge. *)
Lemma first_sync_follows_forge_witness :
  refs <$> dotgit (mirror (fetchGit cfg "o" "r" "main" fresh).2)
  = Some (shape "main" (Some 1) (Some 1) (SymbolicTarget "refs/heads/main")).
Proof.
  assert (Hrun : fetchGit cfg "o" "r" "main" fresh
                 = (Ret (mirrorDir cfg "o" "r" "main",
                         mirrorDir cfg "o" "r" "main"),
                    (fetchGit cfg "o" "r" "main" fresh).2)).
  { apply pair_from_fst. vm_compute. reflexivity. }
  assert (Hn : dotgit (the_dir fresh (mirrorDir cfg "o" "r" "main")) = None)
    by (vm_compute; reflexivity).
  destruct (first_sync_follows_forge cfg "o" "r" "main" fresh _ _ _
              Hn (λ _, eq_refl) Hrun) as (_ & _ & Hsync).
  change (forge_tip cfg "o" "r" "main" fresh) with (Some 1) in Hsync.
  destruct (Hsync eq_refl) as (c & fs & _ & (r & Hd & Hl & _) & _).
  unfold mirror. rewrite Hd. simpl. by rewrite Hl.
Defined.

(** The first get on the sample forge. *)
Lemma first_get_reads_branch_witness :
  (GetFromGit cfg "o" "r" "main" "f" fresh).1 = Ret (ReaderWithAutoCloser "v0").
Proof.
  assert (Hn : dotgit (the_dir fresh (mirrorDir cfg "o" "r" "main")) = None)
    by (vm_compute; reflexivity).
  assert (Ht : forge_tip cfg "o" "r" "main" fresh = Some 1)
    by (vm_compute; reflexivity).
  destruct (GetFromGit cfg "o" "r" "main" "f" fresh) as [[r|e| |] w2] eqn:E.
  - simpl. f_equal.
    destruct (first_get_reads_branch cfg "o" "r" "main" "f" fresh 1 r w2
                Hn (λ _, eq_refl) Ht eq_refl E) as (c & Hc & Hr).
    apply Hr. change (objects fresh) with [commit1] in Hc.
    injection Hc as <-. reflexivity.
  - apply (f_equal fst) in E. vm_compute in E. discriminate E.
  - apply (f_equal fst) in E. vm_compute in E. discriminate E.
  - apply (f_equal fst) in E. vm_compute in E. discriminate E.
Defined.

End GitMore.
